(** * rhel8-kickstart-setup: a shallow embedding and its verified properties

    The program mounts a RHEL-8 installation image, copies the BaseOS and
    AppStream variants into a kickstart layout, edits the two tree-info
    files and releases the mount.  The embedding below follows
    [rhel8-kickstart-setup.py] function by function.  Python exceptions and
    [sys.exit] are results of an error monad, the operating system is an
    explicit [world] (directory tree, loop mounts, process outcomes, log of
    observable effects) threaded through a state monad.

    The model of the operating system is that of a run as root, which
    [mount] requires: permission bits are not modelled and never stand in
    the way.  There are no symbolic links and no special files.  The
    calls the program makes on paths it has built take [..] lexically,
    which is the kernel's answer whenever the directory in front of the
    [..] exists; [os.path.exists], which the program asks about the
    destination as it was typed, follows the kernel ([os_stat]). *)

From stdpp Require Import gmap strings list fin_maps.
From Stdlib Require Import ZArith Ascii.

Local Open Scope Z_scope.

(** ** Python control flow: return, raise, sys.exit *)

Inductive errno :=
| ENOENT | EEXIST | ENOTDIR | EISDIR | EROFS | EBUSY | ENOTEMPTY.

Inductive exn :=
| OSError (code : errno) (path : string)
| SameFileError (path : string)
| NoSectionError (section : string)
| NoOptionError (option section : string)
| ParsingError (source : string)
| JSONDecodeError (source : string)
| KeyError (key : string)
| TypeError (what : string).

Inductive outcome (A : Type) :=
| Return (a : A)
| Raise (e : exn)
| SysExit (code : Z).
Arguments Return {A} a.
Arguments Raise {A} e.
Arguments SysExit {A} code.

Definition obind {A B} (c : outcome A) (k : A → outcome B) : outcome B :=
  match c with
  | Return a => k a
  | Raise e => Raise e
  | SysExit n => SysExit n
  end.

(** The status the interpreter hands to the shell: an uncaught exception is
    reported with a traceback and status 1. *)
Definition exit_status {A} (r : outcome A) : Z :=
  match r with
  | Return _ => 0
  | Raise _ => 1
  | SysExit n => n
  end.

Declare Scope outcome_scope.
Delimit Scope outcome_scope with O.
Notation "x <- c ;; k" := (obind c (λ x, k))
  (at level 20, c at level 99, k at level 200, only parsing) : outcome_scope.

(** ** Strings: the [str] methods the program uses *)

Definition lower_ascii (c : ascii) : ascii :=
  let n := nat_of_ascii c in
  if (Nat.leb 65 n && Nat.leb n 90)%bool then ascii_of_nat (n + 32) else c.

(** [str.lower] *)
Fixpoint lower (s : string) : string :=
  match s with
  | EmptyString => EmptyString
  | String c s' => String (lower_ascii c) (lower s')
  end.

(** [str.startswith] *)
Definition startswith (s p : string) : bool := String.prefix p s.

Definition nl : string := String (ascii_of_nat 10) EmptyString.
Definition tab : string := String (ascii_of_nat 9) EmptyString.

(** [sep.join(l)] *)
Definition str_join (sep : string) (l : list string) : string :=
  String.concat sep l.

(** [s.split("/")] *)
Fixpoint split_slash (s : string) : list string :=
  match s with
  | EmptyString => [EmptyString]
  | String c s' =>
      if Ascii.eqb c "/" then EmptyString :: split_slash s'
      else match split_slash s' with
           | x :: r => String c x :: r
           | [] => [String c EmptyString]
           end
  end.

(** ** Insertion-ordered dictionaries *)

Section dict.
Context {V : Type}.

Fixpoint dict_get (k : string) (d : list (string * V)) : option V :=
  match d with
  | [] => None
  | (k', v) :: d' => if decide (k = k') then Some v else dict_get k d'
  end.

(** [d[k] = v]: an existing key keeps its position, a new key goes last. *)
Fixpoint dict_set (k : string) (v : V) (d : list (string * V)) : list (string * V) :=
  match d with
  | [] => [(k, v)]
  | (k', v') :: d' =>
      if decide (k = k') then (k', v) :: d' else (k', v') :: dict_set k v d'
  end.

(** [del d[k]] *)
Fixpoint dict_del (k : string) (d : list (string * V)) : list (string * V) :=
  match d with
  | [] => []
  | (k', v') :: d' =>
      if decide (k = k') then dict_del k d' else (k', v') :: dict_del k d'
  end.

Definition dict_has (k : string) (d : list (string * V)) : bool :=
  match dict_get k d with Some _ => true | None => false end.

Definition dict_keys (d : list (string * V)) : list string := d.*1.
End dict.

(** ** RawConfigParser

    The tree-info file is an INI document.  The parser object keeps the
    [DEFAULT] section apart from the named sections, as the library does. *)

Module ConfigParser.

Record t := Mk {
  _defaults : list (string * string);
  _sections : list (string * list (string * string))
}.

Definition empty : t := Mk [] [].

Definition DEFAULTSECT : string := "DEFAULT".

Definition optionxform (option : string) : string := lower option.

Definition sections (ti : t) : list string := dict_keys (_sections ti).

Definition has_section (ti : t) (section : string) : bool :=
  dict_has section (_sections ti).

(** [RawConfigParser.set]: no section is created on the fly. *)
Definition set (ti : t) (section option value : string) : outcome t :=
  if bool_decide (section = "" ∨ section = DEFAULTSECT) then
    Return (Mk (dict_set (optionxform option) value (_defaults ti)) (_sections ti))
  else
    match dict_get section (_sections ti) with
    | None => Raise (NoSectionError section)
    | Some sectdict =>
        Return (Mk (_defaults ti)
                   (dict_set section
                      (dict_set (optionxform option) value sectdict)
                      (_sections ti)))
    end.

(** [RawConfigParser.get]: the section's own value, else the default. *)
Definition get (ti : t) (section option : string) : outcome string :=
  let opt := optionxform option in
  match dict_get section (_sections ti) with
  | None =>
      if bool_decide (section = DEFAULTSECT) then
        match dict_get opt (_defaults ti) with
        | Some v => Return v
        | None => Raise (NoOptionError option section)
        end
      else Raise (NoSectionError section)
  | Some sectdict =>
      match dict_get opt sectdict with
      | Some v => Return v
      | None =>
          match dict_get opt (_defaults ti) with
          | Some v => Return v
          | None => Raise (NoOptionError option section)
          end
      end
  end.

(** [RawConfigParser.remove_section]: the parser and whether the section
    existed. *)
Definition remove_section (ti : t) (section : string) : t * bool :=
  let existed := has_section ti section in
  (if existed then Mk (_defaults ti) (dict_del section (_sections ti)) else ti,
   existed).

(** The value stored under a section's own key (no default look-up). *)
Definition value (ti : t) (section key : string) : option string :=
  dict_get section (_sections ti) ≫= dict_get key.

Fixpoint indent_continuation (v : string) : string :=
  match v with
  | EmptyString => EmptyString
  | String c v' =>
      if Ascii.eqb c (ascii_of_nat 10)
      then nl +:+ tab +:+ indent_continuation v'
      else String c (indent_continuation v')
  end.

Definition write_section (name : string) (items : list (string * string)) : string :=
  "[" +:+ name +:+ "]" +:+ nl
  +:+ String.concat ""
        (map (λ kv, kv.1 +:+ " = " +:+ indent_continuation kv.2 +:+ nl) items)
  +:+ nl.

(** [RawConfigParser.write]: the text sent to the file object. *)
Definition write (ti : t) : string :=
  (match _defaults ti with
   | [] => ""
   | _ => write_section DEFAULTSECT (_defaults ti)
   end)
  +:+ String.concat ""
        (map (λ sd, write_section sd.1 sd.2) (_sections ti)).

End ConfigParser.

(** ** JSON values, as [json.load] returns them *)

Inductive json :=
| JNull
| JBool (b : bool)
| JNum (literal : string)
| JStr (s : string)
| JArr (items : list json)
| JObj (members : gmap string json).

(** [j[key]] for a string key *)
Definition py_getitem (j : json) (key : string) : outcome json :=
  match j with
  | JObj members =>
      match members !! key with
      | Some v => Return v
      | None => Raise (KeyError key)
      end
  | JArr _ => Raise (TypeError "list indices must be integers")
  | JStr _ => Raise (TypeError "string indices must be integers")
  | _ => Raise (TypeError "object is not subscriptable")
  end.

Fixpoint chars (s : string) : list string :=
  match s with
  | EmptyString => []
  | String c s' => String c EmptyString :: chars s'
  end.

(** [for item in j] *)
Definition py_iter (j : json) : outcome (list json) :=
  match j with
  | JArr items => Return items
  | JObj members => Return (JStr <$> (map_to_list members).*1)
  | JStr s => Return (JStr <$> chars s)
  | _ => Raise (TypeError "object is not iterable")
  end.

(** [x == j] for a string [x] *)
Definition json_is_str (x : string) (j : json) : bool :=
  match j with
  | JStr s => bool_decide (x = s)
  | _ => false
  end.

(** A path argument must be a string. *)
Definition as_path (j : json) : outcome string :=
  match j with
  | JStr s => Return s
  | _ => Raise (TypeError "expected str, bytes or os.PathLike object")
  end.

(** ** Paths ([posixpath]) *)

Definition endswith_slash (s : string) : bool :=
  match last (split_slash s) with
  | Some EmptyString => bool_decide (s ≠ "")
  | _ => false
  end.

Definition join2 (a b : string) : string :=
  if startswith b "/" then b
  else if (bool_decide (a = "") || endswith_slash a)%bool then a +:+ b
  else a +:+ "/" +:+ b.

(** [os.path.join(a, *p)] *)
Definition join (a : string) (p : list string) : string := fold_left join2 p a.

(** [os.path.basename] *)
Definition basename (p : string) : string := default "" (last (split_slash p)).

(** Path resolution: components from the root, [.] and empty components
    dropped, [..] resolved lexically (the model has no symbolic links). *)
Definition norm_step (stk : list string) (c : string) : list string :=
  if bool_decide (c = "" ∨ c = ".") then stk
  else if bool_decide (c = "..") then removelast stk
  else stk ++ [c].

Definition resolve (cwd : list string) (path : string) : option (list string) :=
  if bool_decide (path = "") then None
  else Some (fold_left norm_step (split_slash path)
               (if startswith path "/" then [] else cwd)).

(** ** The directory tree

    A directory maps names to nodes.  A directory on which an image is
    mounted shows the image's top level and keeps what it held before;
    nothing can be written through it (loop mounts of ISO images are
    read-only). *)

Inductive node :=
| File (data : string)
| Dir (ents : gmap string node)
| Mnt (img : gmap string node) (under : node).

Definition is_dir (n : node) : bool :=
  match n with File _ => false | _ => true end.

Definition entries (n : node) : option (gmap string node) :=
  match n with
  | File _ => None
  | Dir ch | Mnt ch _ => Some ch
  end.

Definition names (ch : gmap string node) : list string := (map_to_list ch).*1.

(** The node a path of components leads to. *)
Fixpoint walk (n : node) (p : list string) : option node :=
  match p with
  | [] => Some n
  | c :: p' =>
      match entries n with
      | Some ch => match ch !! c with Some n' => walk n' p' | None => None end
      | None => None
      end
  end.

(** Change the entry at path [p]: [f] sees what is there and says what
    shall be there.  With [mk] missing directories on the way are created
    ([os.makedirs]). *)
Fixpoint alter_at (mk : bool) (f : option node → outcome (option node))
    (path : string) (p : list string) (n : node) : outcome node :=
  match p with
  | [] =>
      (o <- f (Some n) ;;
       match o with
       | Some n' => Return n'
       | None => Raise (OSError EBUSY path)
       end)%O
  | c :: p' =>
      match n with
      | File _ => Raise (OSError ENOTDIR path)
      | Mnt _ _ => Raise (OSError EROFS path)
      | Dir ch =>
          match p' with
          | [] => (o <- f (ch !! c) ;; Return (Dir (partial_alter (λ _, o) c ch)))%O
          | _ :: _ =>
              match ch !! c with
              | Some n' =>
                  (n'' <- alter_at mk f path p' n' ;; Return (Dir (<[c:=n'']> ch)))%O
              | None =>
                  if mk then
                    (n'' <- alter_at mk f path p' (Dir ∅) ;;
                     Return (Dir (<[c:=n'']> ch)))%O
                  else Raise (OSError ENOENT path)
              end
          end
      end
  end.

(** What [shutil.copytree] leaves of a source node: at every directory the
    [ignore] callback is asked with the directory and its listing, and the
    names it returns are skipped, whatever they name. *)
Fixpoint prune (ignore : string → list string → list string)
    (dir : string) (n : node) : node :=
  match n with
  | File data => File data
  | Dir ch | Mnt ch _ =>
      let ignored_names := ignore dir (names ch) in
      Dir (map_imap
             (λ name c,
                if bool_decide (name ∈ ignored_names) then None
                else Some (prune ignore (join2 dir name) c))
             ch)
  end.

(** ** The world the program runs in *)

Inductive event :=
| EvExec (cmd : list string) (returncode : Z)
| EvSleep (secs : nat)
| EvStderr (text : string)
| EvStdout (text : string)
| EvFs (op : string) (args : list string).

Record world := World {
  w_root : node;                         (* the directory tree *)
  w_cwd : list string;                   (* working directory *)
  w_tmpnames : list string;              (* names tempfile will try next *)
  w_image : string → gmap string node;   (* tree recorded in an image file *)
  w_proc : nat → list string → Z * string;
                                         (* status and output of the n-th process *)
  w_nproc : nat;                         (* processes run so far *)
  w_log : list event                     (* observable effects, oldest first *)
}.

Definition set_root (r : node) (w : world) : world :=
  World r (w_cwd w) (w_tmpnames w) (w_image w) (w_proc w) (w_nproc w) (w_log w).
Definition set_tmpnames (l : list string) (w : world) : world :=
  World (w_root w) (w_cwd w) l (w_image w) (w_proc w) (w_nproc w) (w_log w).
Definition set_nproc (n : nat) (w : world) : world :=
  World (w_root w) (w_cwd w) (w_tmpnames w) (w_image w) (w_proc w) n (w_log w).
Definition add_log (e : event) (w : world) : world :=
  World (w_root w) (w_cwd w) (w_tmpnames w) (w_image w) (w_proc w) (w_nproc w)
        (w_log w ++ [e]).

Definition M (A : Type) : Type := world → outcome A * world.

Definition ret {A} (a : A) : M A := λ w, (Return a, w).
Definition raise {A} (e : exn) : M A := λ w, (Raise e, w).
Definition sys_exit {A} (code : Z) : M A := λ w, (SysExit code, w).
Definition lift {A} (r : outcome A) : M A := λ w, (r, w).
Definition log (e : event) : M unit := λ w, (Return tt, add_log e w).

Definition bind {A B} (c : M A) (k : A → M B) : M B := λ w,
  match c w with
  | (Return a, w') => k a w'
  | (Raise e, w') => (Raise e, w')
  | (SysExit n, w') => (SysExit n, w')
  end.

Declare Scope io_scope.
Delimit Scope io_scope with io.
Notation "x <- c ;; k" := (bind c (λ x, k))
  (at level 20, c at level 99, k at level 200, only parsing) : io_scope.
Notation "c ;; k" := (bind c (λ _, k))
  (at level 100, k at level 200, only parsing, right associativity) : io_scope.

(** [try: body finally: final] *)
Definition try_finally {A} (body : M A) (final : M unit) : M A := λ w,
  let (r, w1) := body w in
  match final w1 with
  | (Return _, w2) => (r, w2)
  | (Raise e, w2) => (Raise e, w2)
  | (SysExit n, w2) => (SysExit n, w2)
  end.

(** [for x in l: body(x)] *)
Fixpoint for_each {A} (l : list A) (body : A → M unit) : M unit :=
  match l with
  | [] => ret tt
  | x :: l' => (body x ;; for_each l' body)%io
  end.

(** ** Operating-system and library calls *)

Definition stat (w : world) (path : string) : option node :=
  resolve (w_cwd w) path ≫= walk (w_root w).

(** The kernel's walk along the components of a path, from the place
    [stk]: an empty component and [.] stay where they are, [..] goes one
    up, and each of them needs a directory to stand in; a name goes down,
    and whether it is there is seen when the place reached is looked up. *)
Fixpoint path_walk (root : node) (stk comps : list string) : option (list string) :=
  match comps with
  | [] => Some stk
  | c :: rest =>
      if bool_decide (c = "" ∨ c = ".") then
        match walk root stk with
        | Some n => if is_dir n then path_walk root stk rest else None
        | None => None
        end
      else if bool_decide (c = "..") then
        match walk root stk with
        | Some n => if is_dir n then path_walk root (removelast stk) rest else None
        | None => None
        end
      else path_walk root (stk ++ [c]) rest
  end.

(** [os.stat(path)], when it succeeds: the node the kernel finds. *)
Definition os_stat (w : world) (path : string) : option node :=
  if bool_decide (path = "") then None
  else path_walk (w_root w) (if startswith path "/" then [] else w_cwd w)
         (split_slash path)
       ≫= walk (w_root w).

(** [os.path.exists(path)]: whether [os.stat] succeeds. *)
Definition os_path_exists (path : string) : M bool := λ w,
  (Return (match os_stat w path with Some _ => true | None => false end), w).

Definition os_path_isdir (path : string) : M bool := λ w,
  (Return (match stat w path with Some n => is_dir n | None => false end), w).

Definition os_listdir (path : string) : M (list string) := λ w,
  match stat w path with
  | Some n =>
      match entries n with
      | Some ch => (Return (names ch), w)
      | None => (Raise (OSError ENOTDIR path), w)
      end
  | None => (Raise (OSError ENOENT path), w)
  end.

(** [open(path).read()] *)
Definition read_file (path : string) : M string := λ w,
  match stat w path with
  | Some (File data) => (Return data, w)
  | Some _ => (Raise (OSError EISDIR path), w)
  | None => (Raise (OSError ENOENT path), w)
  end.

Definition fs_update (mk : bool) (path : string)
    (f : option node → outcome (option node)) : M unit := λ w,
  match resolve (w_cwd w) path with
  | None => (Raise (OSError ENOENT path), w)
  | Some p =>
      match alter_at mk f path p (w_root w) with
      | Return root' => (Return tt, set_root root' w)
      | Raise e => (Raise e, w)
      | SysExit n => (SysExit n, w)
      end
  end.

(** Create or truncate a file and fill it. *)
Definition put_file (path data : string) : M unit :=
  fs_update false path
    (λ o, match o with
          | None | Some (File _) => Return (Some (File data))
          | Some _ => Raise (OSError EISDIR path)
          end).

(** [with open(path, "w") as f: f.write(data)] *)
Definition write_file (path data : string) : M unit :=
  (log (EvFs "open-w" [path]) ;; put_file path data)%io.

Definition os_mkdir (path : string) : M unit :=
  fs_update false path
    (λ o, match o with
          | None => Return (Some (Dir ∅))
          | Some _ => Raise (OSError EEXIST path)
          end).

Definition os_rmdir (path : string) : M unit :=
  (log (EvFs "rmdir" [path]) ;;
   fs_update false path
     (λ o, match o with
           | None => Raise (OSError ENOENT path)
           | Some (File _) => Raise (OSError ENOTDIR path)
           | Some (Mnt _ _) => Raise (OSError EBUSY path)
           | Some (Dir ch) =>
               match map_to_list ch with
               | [] => Return None
               | _ :: _ => Raise (OSError ENOTEMPTY path)
               end
           end))%io.

(** [tempfile.mkdtemp(suffix=...)]: the first candidate name that is free. *)
Fixpoint mkdtemp_from (candidates : list string) (suffix : string) : M string :=
  match candidates with
  | [] => raise (OSError EEXIST "No usable temporary directory name found")
  | name :: rest => λ w,
      let file := join "/tmp" ["tmp" +:+ name +:+ suffix] in
      match os_mkdir file (set_tmpnames rest w) with
      | (Return _, w') => (Return file, w')
      | (Raise (OSError EEXIST _), w') => mkdtemp_from rest suffix w'
      | (Raise e, w') => (Raise e, w')
      | (SysExit n, w') => (SysExit n, w')
      end
  end.

Definition mkdtemp (suffix : string) : M string := λ w,
  mkdtemp_from (w_tmpnames w) suffix (add_log (EvFs "mkdtemp" [suffix]) w).

Definition time_sleep (secs : nat) : M unit := log (EvSleep secs).

Definition print_stderr (text : string) : M unit := log (EvStderr text).

(** [shutil.copy(src, dst)] *)
Definition shutil_copy (src dst : string) : M unit :=
  (log (EvFs "copy" [src; dst]) ;;
   d <- os_path_isdir dst ;;
   let dst := if d then join dst [basename src] else dst in
   same <- (λ w, (Return (match stat w src, stat w dst with
                          | Some _, Some _ =>
                              bool_decide (resolve (w_cwd w) src = resolve (w_cwd w) dst)
                          | _, _ => false
                          end), w)) ;;
   if same : bool then raise (SameFileError src)
   else
     data <- read_file src ;;
     put_file dst data)%io.

(** [shutil.copytree(src, dst, ignore=ignore)]: the destination must not
    exist, its missing parents are created, and the pruned source is put
    there.  The source is read before the destination is made; a
    destination inside the source is outside the model (the program copies
    from a read-only mount). *)
Definition shutil_copytree (src dst : string)
    (ignore : string → list string → list string) : M unit :=
  (log (EvFs "copytree" [src; dst]) ;;
   n <- (λ w, match stat w src with
              | Some (File _) => (Raise (OSError ENOTDIR src), w)
              | Some n => (Return n, w)
              | None => (Raise (OSError ENOENT src), w)
              end) ;;
   fs_update true dst
     (λ o, match o with
           | None => Return (Some (prune ignore src n))
           | Some _ => Raise (OSError EEXIST dst)
           end))%io.

(** What a finished process has done to the tree.  The program starts
    [mount -o loop], [umount] and [chmod]; permissions are not modelled. *)
Definition process_effect (cmd : list string) (w : world) : world :=
  match cmd with
  | ["mount"; "-o"; "loop"; image; mount_point] =>
      match fs_update false mount_point
              (λ o, match o with
                    | Some (File _) | None => Raise (OSError ENOTDIR mount_point)
                    | Some d => Return (Some (Mnt (w_image w image) d))
                    end) w with
      | (Return _, w') => w'
      | _ => w
      end
  | ["umount"; mount_point] =>
      match fs_update false mount_point
              (λ o, match o with
                    | Some (Mnt _ under) => Return (Some under)
                    | _ => Raise (OSError ENOENT mount_point)
                    end) w with
      | (Return _, w') => w'
      | _ => w
      end
  | _ => w
  end.

(** [subprocess.Popen(cmd, stdout=PIPE, stderr=STDOUT)] followed by
    [communicate()]: the status and merged output come from the
    environment, a process that exits with 0 has done its work. *)
Definition popen (cmd : list string) : M (Z * string) := λ w,
  let result := w_proc w (w_nproc w) cmd in
  let w1 := add_log (EvExec cmd result.1) (set_nproc (S (w_nproc w)) w) in
  (Return result, if bool_decide (result.1 = 0) then process_effect cmd w1 else w1).

(** ** optparse

    The parser built by [OptionParser(usage)] knows one option,
    [-h]/[--help]; everything else that looks like an option is an error. *)

Inductive parsed :=
| PArgs (args : list string)
| PHelp
| PError (msg : string).

(** [arg.split("=", 1)]: the part before the first [=], and whether there
    is one. *)
Fixpoint split_eq (arg : string) : string * bool :=
  match arg with
  | EmptyString => (EmptyString, false)
  | String c arg' =>
      if Ascii.eqb c "=" then (EmptyString, true)
      else let r := split_eq arg' in (String c r.1, r.2)
  end.

Definition process_long_opt (arg : string) : parsed :=
  let (opt, had_explicit_value) := split_eq arg in
  if startswith "--help" opt then
    if had_explicit_value then PError "--help option does not take a value"
    else PHelp
  else PError ("no such option: " +:+ opt).

Definition process_short_opts (arg : string) : parsed :=
  match arg with
  | String _ (String ch _) =>
      if Ascii.eqb ch "h" then PHelp
      else PError ("no such option: -" +:+ String ch EmptyString)
  | _ => PError "no such option: -"
  end.

Fixpoint process_args (rargs largs : list string) : parsed :=
  match rargs with
  | [] => PArgs largs
  | arg :: rest =>
      if bool_decide (arg = "--") then PArgs (largs ++ rest)
      else if startswith arg "--" then process_long_opt arg
      else if (startswith arg "-" && bool_decide (arg ≠ "-"))%bool
           then process_short_opts arg
      else process_args rest (largs ++ [arg])
  end.

Definition usage_text (prog : string) : string :=
  "Usage: " +:+ prog +:+ " ISO_FILE DEST_DIR" +:+ nl.

Definition help_text (prog : string) : string :=
  usage_text prog +:+ nl +:+ "Options:" +:+ nl
  +:+ "  -h, --help  show this help message and exit" +:+ nl.

(** [parser.error(msg)]: usage and message on the error stream, status 2. *)
Definition parser_error {A} (prog msg : string) : M A :=
  (print_stderr (usage_text prog) ;;
   print_stderr (prog +:+ ": error: " +:+ msg +:+ nl) ;;
   sys_exit 2)%io.

(** [parser.parse_args()]: the positional arguments. *)
Definition parse_args (prog : string) (argv : list string) : M (list string) :=
  match process_args argv [] with
  | PArgs args => ret args
  | PHelp => (log (EvStdout (help_text prog)) ;; sys_exit 0)%io
  | PError msg => parser_error prog msg
  end.

(** ** The program *)

Section Program.

(** [json.loads] and the reading half of [RawConfigParser], applied to
    the text of a file; [None] is the library's parse error. *)
Variable json_loads : string → option json.
Variable ini_parse : string → option ConfigParser.t.

(** [run]: run command and either report result or abort the script. *)
Definition run (cmd : list string) (can_fail : bool) : M bool :=
  (proc <- popen cmd ;;
   let returncode := proc.1 in
   let stdout := proc.2 in
   if bool_decide (returncode = 0) then ret true
   else if can_fail then ret false
   else
     print_stderr
       ("Executed command '" +:+ str_join " " cmd
        +:+ "' failed with following output:") ;;
     print_stderr stdout ;;
     sys_exit 1)%io.

(** The retry loop of [mount_iso]'s [finally] block,
    [for timeout in range(5)]. *)
Fixpoint umount_retry (mount_point : string) (timeouts : list nat) : M unit :=
  match timeouts with
  | [] => ret tt
  | timeout :: rest =>
      (ok <- run ["umount"; mount_point] true ;;
       if ok : bool then ret tt
       else time_sleep timeout ;; umount_retry mount_point rest)%io
  end.

(** The [finally] block of [mount_iso]. *)
Definition mount_iso_finally (mount_point : string) : M unit :=
  (umount_retry mount_point (seq 0 5) ;;
   os_rmdir mount_point)%io.

(** [with mount_iso(image) as mount_point: body] *)
Definition mount_iso {A} (image : string) (body : string → M A) : M A :=
  (mount_point <- mkdtemp ".rhel-8-iso" ;;
   run ["mount"; "-o"; "loop"; image; mount_point] false ;;
   try_finally (body mount_point) (mount_iso_finally mount_point))%io.

Definition _tweak_paths (ti : ConfigParser.t) (variant : string)
    (platforms : bool) : outcome ConfigParser.t :=
  (ti <- ConfigParser.set ti "general" "variants" variant ;;
   ti <- ConfigParser.set ti "general" "variant" variant ;;
   ti <- ConfigParser.set ti "general" "repository" "." ;;
   ti <- ConfigParser.set ti "general" "packagedir" "Packages" ;;
   ti <- ConfigParser.set ti "tree" "variants" variant ;;

   ti <- ConfigParser.set ti ("variant-" +:+ variant) "packages" "Packages" ;;
   ti <- ConfigParser.set ti ("variant-" +:+ variant) "repository" "." ;;

   ti <- (if platforms then
            arch <- ConfigParser.get ti "general" "arch" ;;
            ti <- ConfigParser.set ti "general" "platforms" arch ;;
            ConfigParser.set ti "tree" "platforms" arch
          else Return ti) ;;

   Return (ConfigParser.remove_section ti "media").1)%O.

(** [ti = RawConfigParser(); ti.read(file_path)]: a file that cannot be
    opened is skipped without a word. *)
Definition read_config (file_path : string) : M ConfigParser.t := λ w,
  match stat w file_path with
  | Some (File data) =>
      match ini_parse data with
      | Some ti => (Return ti, w)
      | None => (Raise (ParsingError file_path), w)
      end
  | _ => (Return ConfigParser.empty, w)
  end.

(** The edit of [tweak_baseos_treeinfo] on the parser object. *)
Definition edit_baseos (ti : ConfigParser.t) : outcome ConfigParser.t :=
  (ti <- _tweak_paths ti "BaseOS" false ;;
   Return (ConfigParser.remove_section ti "variant-AppStream").1)%O.

Definition tweak_baseos_treeinfo (file_path : string) : M unit :=
  (ti <- read_config file_path ;;
   ti <- lift (edit_baseos ti) ;;
   write_file file_path (ConfigParser.write ti))%io.

(** The edit of [tweak_appstream_treeinfo] on the parser object. *)
Definition edit_appstream (ti : ConfigParser.t) : outcome ConfigParser.t :=
  (ti <- _tweak_paths ti "AppStream" true ;;
   let sections_to_remove :=
     ["variant-BaseOS"; "checksums"; "stage2"]
     ++ filter (λ section, startswith section "images-") (ConfigParser.sections ti) in
   Return (fold_left (λ ti section, (ConfigParser.remove_section ti section).1)
             sections_to_remove ti))%O.

Definition tweak_appstream_treeinfo (file_path : string) : M unit :=
  (ti <- read_config file_path ;;
   ti <- lift (edit_appstream ti) ;;
   write_file file_path (ConfigParser.write ti))%io.

Definition filt (dir : string) (files : list string) : list string :=
  ["TRANS.TBL"].

Definition copytree (src dst : string) : M unit :=
  shutil_copytree src dst filt.

Definition copy_boot_files (srcdir destdir : string) (ignore : list json) : M unit :=
  (let IGNORE :=
     (JStr <$> ["AppStream"; "BaseOS"; ".treeinfo"; ".discinfo"; "media.repo"])
     ++ ignore in
   listing <- os_listdir srcdir ;;
   for_each listing (λ fname,
     if existsb (json_is_str fname) IGNORE then ret tt
     else
       let src := join srcdir [fname] in
       d <- os_path_isdir src ;;
       if d : bool then copytree src (join destdir [fname])
       else shutil_copy src destdir))%io.

(** Lines 145-148 of [main]: the names of the extra files, the manifest
    first. *)
Definition read_extra_files (mount_dir : string) : M (list json) :=
  (text <- read_file (join mount_dir ["extra_files.json"]) ;;
   extra_files_data <-
     match json_loads text with
     | Some j => ret j
     | None => raise (JSONDecodeError "extra_files.json")
     end ;;
   extra_files <- lift (data <- py_getitem extra_files_data "data" ;;
                        items <- py_iter data ;;
                        foldr (λ item acc,
                                 file <- py_getitem item "file" ;;
                                 rest <- acc ;;
                                 Return (file :: rest))
                              (Return []) items)%O ;;
   ret (JStr "extra_files.json" :: extra_files))%io.

(** The body of the [with mount_iso(...)] block of [main]. *)
Definition copy_variants (mount_dir destdir : string) : M unit :=
  (extra_files <- read_extra_files mount_dir ;;

   for_each ["AppStream"; "BaseOS"] (λ variant,
     let variant_dir := join destdir [lower variant; "kickstart"] in
     copytree (join mount_dir [variant]) variant_dir ;;

     for_each ["discinfo"; "treeinfo"] (λ fname,
       shutil_copy (join mount_dir ["." +:+ fname]) (join variant_dir [fname])) ;;

     for_each extra_files (λ item,
       fname <- lift (as_path item) ;;
       shutil_copy (join mount_dir [fname]) variant_dir)) ;;

   copy_boot_files mount_dir (join destdir ["baseos"; "kickstart"]) extra_files)%io.

Definition main (sys_argv : list string) : M unit :=
  (let prog := basename (default "" (head sys_argv)) in
   args <- parse_args prog (tail sys_argv) ;;
   match args with
   | [isofile; destdir] =>
       ex <- os_path_exists destdir ;;
       if ex : bool then
         parser_error prog ("Destination directory already exists: " +:+ destdir)
       else
         mount_iso isofile (λ mount_dir, copy_variants mount_dir destdir) ;;

         tweak_baseos_treeinfo (join destdir ["baseos"; "kickstart"; "treeinfo"]) ;;
         tweak_appstream_treeinfo (join destdir ["appstream"; "kickstart"; "treeinfo"]) ;;

         run ["chmod"; "u+w"; "-R"; destdir] false ;;
         ret tt
   | _ =>
       parser_error prog
         "Expected 2 arguments, path to ISO file and destination directory"
   end)%io.

End Program.

(** ** Concrete parsers and a concrete machine, for running the model *)

(** A reader for the plain fragment of the INI syntax that tree-info files
    use: [[section]] headers, [key = value] or [key: value] lines, blank
    lines and full-line comments.  Anything else is rejected, as are
    repeated sections and options (the library's strict mode). *)

Fixpoint lines_go (cur : string) (s : string) : list string :=
  match s with
  | EmptyString => [String.rev cur]
  | String c s' =>
      if Ascii.eqb c (ascii_of_nat 10) then String.rev cur :: lines_go "" s'
      else lines_go (String c cur) s'
  end.

Definition splitlines (s : string) : list string := lines_go "" s.

Fixpoint lstrip (s : string) : string :=
  match s with
  | String c s' => if Ascii.is_space c then lstrip s' else s
  | EmptyString => EmptyString
  end.

Definition strip (s : string) : string :=
  String.rev (lstrip (String.rev (lstrip s))).

(** The text before and after the first [=] or [:]. *)
Fixpoint split_delim (s : string) : option (string * string) :=
  match s with
  | EmptyString => None
  | String c s' =>
      if (Ascii.eqb c "=" || Ascii.eqb c ":")%bool then Some (EmptyString, s')
      else match split_delim s' with
           | Some (k, v) => Some (String c k, v)
           | None => None
           end
  end.

Definition section_header (line : string) : option string :=
  match line with
  | String c rest =>
      if Ascii.eqb c "[" then
        match String.rev rest with
        | String c' name => if Ascii.eqb c' "]" then Some (String.rev name) else None
        | EmptyString => None
        end
      else None
  | EmptyString => None
  end.

Definition parse_ini_line (st : option (option string * ConfigParser.t)) (raw : string)
    : option (option string * ConfigParser.t) :=
  match st with
  | None => None
  | Some (cursect, ti) =>
      let line := strip raw in
      if (bool_decide (line = "") || startswith line "#" || startswith line ";")%bool
      then Some (cursect, ti)
      else if bool_decide (line ≠ raw ∧ lstrip raw ≠ raw) then None
      else
        match section_header line with
        | Some name =>
            if bool_decide (name = ConfigParser.DEFAULTSECT) then Some (Some name, ti)
            else if ConfigParser.has_section ti name then None
            else Some (Some name,
                       ConfigParser.Mk (ConfigParser._defaults ti)
                         (ConfigParser._sections ti ++ [(name, [])]))
        | None =>
            match cursect, split_delim line with
            | Some sect, Some (k, v) =>
                let key := ConfigParser.optionxform (strip k) in
                let known :=
                  if bool_decide (sect = ConfigParser.DEFAULTSECT)
                  then dict_has key (ConfigParser._defaults ti)
                  else match ConfigParser.value ti sect key with
                       | Some _ => true
                       | None => false
                       end in
                if known then None
                else match ConfigParser.set ti sect key (strip v) with
                     | Return ti' => Some (cursect, ti')
                     | _ => None
                     end
            | _, _ => None
            end
        end
  end.

Definition parse_ini (text : string) : option ConfigParser.t :=
  snd <$> fold_left parse_ini_line (splitlines text) (Some (None, ConfigParser.empty)).

(** The manifest of the sample image and a decoder that knows this one
    document. *)
Definition dq : string := String (ascii_of_nat 34) EmptyString.

Definition sample_manifest_text : string :=
  "{" +:+ dq +:+ "data" +:+ dq +:+ ": [{" +:+ dq +:+ "file" +:+ dq +:+ ": "
  +:+ dq +:+ "README" +:+ dq +:+ "}]}".

Definition sample_manifest : json :=
  JObj {[ "data" := JArr [JObj {[ "file" := JStr "README" ]}] ]}.

Definition sample_json_loads (text : string) : option json :=
  if bool_decide (text = sample_manifest_text) then Some sample_manifest else None.

Definition sample_treeinfo_text : string :=
  String.concat nl
    [ "[checksums]";
      "images/boot.iso = sha256:4a1c";
      "";
      "[general]";
      "; WARNING.0 = This section provides compatibility with pre-productmd treeinfos.";
      "arch = x86_64";
      "family = Red Hat Enterprise Linux";
      "name = Red Hat Enterprise Linux 8.1.0";
      "packagedir = AppStream/Packages";
      "platforms = x86_64,xen";
      "repository = AppStream";
      "variant = AppStream";
      "variants = AppStream,BaseOS";
      "version = 8.1.0";
      "";
      "[images-x86_64]";
      "boot.iso = images/boot.iso";
      "kernel = images/pxeboot/vmlinuz";
      "";
      "[images-xen]";
      "kernel = images/pxeboot/vmlinuz";
      "";
      "[media]";
      "discnum = 1";
      "totaldiscs = 1";
      "";
      "[stage2]";
      "mainimage = images/install.img";
      "";
      "[tree]";
      "arch = x86_64";
      "platforms = x86_64,xen";
      "variants = AppStream,BaseOS";
      "";
      "[variant-AppStream]";
      "id = AppStream";
      "packages = AppStream/Packages";
      "repository = AppStream";
      "";
      "[variant-BaseOS]";
      "id = BaseOS";
      "packages = BaseOS/Packages";
      "repository = BaseOS";
      "" ].

Definition dir_of (l : list (string * node)) : node := Dir (list_to_map l).

(** The top level of an image that holds the two variants, the hidden
    tree-info and disc-info files, the manifest, the file [README] and the
    boot directory [isolinux], and nothing else. *)
Definition fixture_image (appstream baseos : gmap string node)
    (treeinfo discinfo manifest readme : string)
    (isolinux : gmap string node) : gmap string node :=
  list_to_map
    [ ("AppStream", Dir appstream);
      ("BaseOS", Dir baseos);
      (".treeinfo", File treeinfo);
      (".discinfo", File discinfo);
      ("extra_files.json", File manifest);
      ("README", File readme);
      ("isolinux", Dir isolinux) ].

Definition sample_packages (rpm : string) : gmap string node :=
  list_to_map
    [ ("Packages", dir_of [ (rpm, File "rpm"); ("TRANS.TBL", File "index") ]);
      ("repodata", dir_of [ ("repomd.xml", File "<repomd/>") ]);
      ("TRANS.TBL", File "index") ].

(** The top level of the sample image. *)
Definition sample_image : gmap string node :=
  fixture_image (sample_packages "httpd.rpm") (sample_packages "bash.rpm")
    sample_treeinfo_text "1565386182.801391" sample_manifest_text "read me"
    (list_to_map [ ("isolinux.cfg", File "default vesamenu.c32");
                   ("TRANS.TBL", File "index") ]).

(** A machine with an empty [/tmp] and [/srv], on which every process
    succeeds, except that [umount] finds the mount point in use as long as
    no more than [busy] processes have been started: after the one [mount]
    of a run, the first [busy] calls of [umount] fail. *)
Definition sample_proc (busy : nat) (n : nat) (cmd : list string) : Z * string :=
  match cmd with
  | "umount" :: _ =>
      if bool_decide (n < 1 + busy)%nat then (32, "umount: target is busy.") else (0, "")
  | _ => (0, "")
  end.

Definition sample_world (busy : nat) : world :=
  {| w_root := dir_of [ ("tmp", Dir ∅); ("srv", Dir ∅);
                        ("isos", dir_of [ ("rhel8.iso", File "CD001") ]) ];
     w_cwd := ["srv"];
     w_tmpnames := ["k3x9q2ab"; "p0w7zz1c"];
     w_image := λ _, sample_image;
     w_proc := sample_proc busy;
     w_nproc := 0;
     w_log := [] |}.

Definition sample_argv : list string :=
  ["/usr/local/bin/rhel8-kickstart-setup"; "/isos/rhel8.iso"; "/srv/ks"].

(** ** Auxiliary definitions used in the proofs *)

(** The seven unconditional assignments of [_tweak_paths]. *)
Definition assign_paths (ti : ConfigParser.t) (variant : string)
    : outcome ConfigParser.t :=
  (ti <- ConfigParser.set ti "general" "variants" variant ;;
   ti <- ConfigParser.set ti "general" "variant" variant ;;
   ti <- ConfigParser.set ti "general" "repository" "." ;;
   ti <- ConfigParser.set ti "general" "packagedir" "Packages" ;;
   ti <- ConfigParser.set ti "tree" "variants" variant ;;
   ti <- ConfigParser.set ti ("variant-" +:+ variant) "packages" "Packages" ;;
   ConfigParser.set ti ("variant-" +:+ variant) "repository" ".")%O.

(** The platform rewrite of [_tweak_paths]. *)
Definition platforms_rewrite (ti : ConfigParser.t) : outcome ConfigParser.t :=
  (arch <- ConfigParser.get ti "general" "arch" ;;
   ti <- ConfigParser.set ti "general" "platforms" arch ;;
   ConfigParser.set ti "tree" "platforms" arch)%O.

(** The document [tweak_baseos_treeinfo] writes back. *)
Definition baseos_edited (ti : ConfigParser.t) : Prop :=
  ConfigParser.has_section ti "variant-AppStream" = false
  ∧ ConfigParser.has_section ti "media" = false
  ∧ ConfigParser.value ti "general" "variants" = Some "BaseOS"
  ∧ ConfigParser.value ti "general" "variant" = Some "BaseOS"
  ∧ ConfigParser.value ti "tree" "variants" = Some "BaseOS"
  ∧ ConfigParser.value ti "general" "repository" = Some "."
  ∧ ConfigParser.value ti "variant-BaseOS" "repository" = Some "."
  ∧ ConfigParser.value ti "general" "packagedir" = Some "Packages"
  ∧ ConfigParser.value ti "variant-BaseOS" "packages" = Some "Packages".

(** The document [tweak_appstream_treeinfo] writes back; [arch] is the
    value the unedited document gives for [general.arch]. *)
Definition appstream_edited (arch : string) (ti : ConfigParser.t) : Prop :=
  ConfigParser.has_section ti "variant-BaseOS" = false
  ∧ ConfigParser.has_section ti "checksums" = false
  ∧ ConfigParser.has_section ti "stage2" = false
  ∧ ConfigParser.has_section ti "media" = false
  ∧ (∀ s, s ∈ ConfigParser.sections ti → startswith s "images-" = false)
  ∧ ConfigParser.value ti "general" "platforms" = Some arch
  ∧ ConfigParser.value ti "tree" "platforms" = Some arch
  ∧ ConfigParser.value ti "general" "variants" = Some "AppStream"
  ∧ ConfigParser.value ti "general" "variant" = Some "AppStream"
  ∧ ConfigParser.value ti "tree" "variants" = Some "AppStream"
  ∧ ConfigParser.value ti "general" "repository" = Some "."
  ∧ ConfigParser.value ti "variant-AppStream" "repository" = Some "."
  ∧ ConfigParser.value ti "general" "packagedir" = Some "Packages"
  ∧ ConfigParser.value ti "variant-AppStream" "packages" = Some "Packages".

(** The log of a run of failed [umount] attempts: each attempt is followed
    by its sleep; [timeout] is the sleep after the first of them. *)
Fixpoint failed_attempts (cmd : list string) (rcs : list Z) (timeout : nat)
    : list event :=
  match rcs with
  | [] => []
  | rc :: rcs' => EvExec cmd rc :: EvSleep timeout :: failed_attempts cmd rcs' (S timeout)
  end.

(** The seconds slept according to a log. *)
Fixpoint total_sleep (evs : list event) : nat :=
  match evs with
  | [] => 0
  | EvSleep secs :: evs' => secs + total_sleep evs'
  | _ :: evs' => total_sleep evs'
  end.

Definition is_exec (e : event) : bool :=
  match e with EvExec _ _ => true | _ => false end.

(** Every sleep of a log is followed, sooner or later, by the start of a
    process: the sleeps lie between attempts. *)
Fixpoint sleeps_between_attempts (evs : list event) : bool :=
  match evs with
  | [] => true
  | EvSleep _ :: evs' => existsb is_exec evs' && sleeps_between_attempts evs'
  | _ :: evs' => sleeps_between_attempts evs'
  end.

(** The status the environment will give to the [i]-th process started
    from now on, should it be [cmd]. *)
Definition next_rc (w : world) (i : nat) (cmd : list string) : Z :=
  (w_proc w (w_nproc w + i) cmd).1.

(** The world once the next process, [cmd], has run. *)
Definition after_process (cmd : list string) (w : world) : world :=
  let rc := next_rc w 0 cmd in
  let w1 := add_log (EvExec cmd rc) (set_nproc (S (w_nproc w)) w) in
  if bool_decide (rc = 0) then process_effect cmd w1 else w1.

(** What a path shows: nothing, a file with its content, or a directory. *)
Definition peek (o : option node) : option (option string) :=
  match o with
  | None => None
  | Some (File data) => Some (Some data)
  | Some _ => Some None
  end.

(** The reading of the exclusion rule under which only files called
    [name] are left out of a copy from [s] to [d], and every other entry,
    directories called [name] and what they hold included, arrives. *)
Definition skips_only_files_named (name : string)
    (before after : node) (s d : list string) : Prop :=
  ∀ rel,
    peek (walk after (d ++ rel)) =
    match walk before (s ++ rel) with
    | Some (File data) =>
        if bool_decide (last rel = Some name) then None else Some (Some data)
    | o => peek o
    end.

(** The reading of the validation rule that counts the arguments as they
    stand on the command line: with other than two of them the run ends
    with a status that is not 0. *)
Definition rejects_other_counts (json_loads : string → option json)
    (ini_parse : string → option ConfigParser.t)
    (w : world) (sys_argv : list string) : Prop :=
  length (tail sys_argv) ≠ 2%nat →
  exit_status (main json_loads ini_parse sys_argv w).1 ≠ 0.

(** A tree with a directory that carries the name of the index file. *)
Definition odd_world : world :=
  {| w_root := dir_of [ ("src", dir_of [ ("TRANS.TBL", dir_of [ ("a", File "kept?") ]);
                                         ("b", File "b") ]) ];
     w_cwd := [];
     w_tmpnames := [];
     w_image := λ _, ∅;
     w_proc := λ _ _, (0, "");
     w_nproc := 0;
     w_log := [] |}.

(** A machine that holds an unedited tree-info file. *)
Definition edit_world : world :=
  {| w_root := dir_of [ ("srv", dir_of [ ("treeinfo", File sample_treeinfo_text) ]) ];
     w_cwd := ["srv"];
     w_tmpnames := [];
     w_image := λ _, ∅;
     w_proc := λ _ _, (0, "");
     w_nproc := 0;
     w_log := [] |}.

(** The sample machine without loop devices: [mount] fails. *)
Definition no_loop_world : world :=
  {| w_root := w_root (sample_world 0);
     w_cwd := ["srv"];
     w_tmpnames := ["k3x9q2ab"];
     w_image := λ _, sample_image;
     w_proc := λ _ cmd,
       match cmd with
       | "mount" :: _ => (32, "mount: failed to setup loop device")
       | _ => (0, "")
       end;
     w_nproc := 0;
     w_log := [] |}.

Definition sample_mount_point : string := "/tmp/tmpk3x9q2ab.rhel-8-iso".

(** A plain file or directory name: one component that is neither empty
    nor [.] nor [..]. *)
Definition simple_name (s : string) : bool :=
  bool_decide (split_slash s = [s] ∧ s ≠ "" ∧ s ≠ "." ∧ s ≠ "..")
  && negb (startswith s "/").

(** The components a directory path stands for; the empty string stands
    for the working directory when names are joined to it. *)
Definition rbase (cwd : list string) (d : string) : list string :=
  fold_left norm_step (split_slash d) (if startswith d "/" then [] else cwd).

(** Neither path leads through the other. *)
Definition diverge (p q : list string) : Prop :=
  ¬ p `prefix_of` q ∧ ¬ q `prefix_of` p.

(** [w'] is [w] after an alteration at [p] that has put [o] there: the
    working directory is the same, below [p] the tree is [o], beside [p] it
    is what it was, and the way to [p] leads through plain directories. *)
Definition altered (w w' : world) (p : list string) (o : option node) : Prop :=
  w_cwd w' = w_cwd w
  ∧ (∀ r, walk (w_root w') (p ++ r) = o ≫= λ m, walk m r)
  ∧ (∀ q, diverge p q → walk (w_root w') q = walk (w_root w) q)
  ∧ (∀ q r, p = q ++ r → r ≠ [] → ∃ ch, walk (w_root w') q = Some (Dir ch)).

(** An alteration that turns every existing directory down. *)
Definition refuses_dirs (f : option node → outcome (option node)) : Prop :=
  ∀ x, is_dir x = true → ∃ e, f (Some x) = Raise e.

(** No mount point of [w] is on the way to [p] or below it. *)
Definition clear_of_mounts (w : world) (p : list string) : Prop :=
  ∀ q img u, walk (w_root w) q = Some (Mnt img u) → diverge p q.


(** The node a path leads to through plain directories only: no mount
    point on the way. *)
Fixpoint plain_to (n : node) (p : list string) : option node :=
  match p with
  | [] => Some n
  | c :: p' =>
      match n with
      | Dir ch => match ch !! c with Some n' => plain_to n' p' | None => None end
      | _ => None
      end
  end.

(** The shape the two file editors share: read the document, edit it,
    write it back to the same path. *)
Definition edit_file (ini_parse : string → option ConfigParser.t)
    (edit : ConfigParser.t → outcome ConfigParser.t) (file_path : string) : M unit :=
  (ti <- read_config ini_parse file_path ;;
   ti <- lift (edit ti) ;;
   write_file file_path (ConfigParser.write ti))%io.

(** [n'] is [n] after an alteration at [p] that creates no directories on
    the way. *)
Definition altered_in_place (p : list string) (n n' : node) : Prop :=
  ∃ f path, alter_at false f path p n = Return n'.

(** [fname in IGNORE] in [copy_boot_files]. *)
Definition boot_ignored (ignore : list json) (fname : string) : bool :=
  existsb (json_is_str fname)
    ((JStr <$> ["AppStream"; "BaseOS"; ".treeinfo"; ".discinfo"; "media.repo"])
     ++ ignore).

(** The body of the loop of [copy_boot_files]. *)
Definition boot_step (srcdir destdir : string) (ignore : list json)
    (fname : string) : M unit :=
  if boot_ignored ignore fname then ret tt
  else
    let src := join srcdir [fname] in
    (d <- os_path_isdir src ;;
     if d : bool then copytree src (join destdir [fname])
     else shutil_copy src destdir)%io.

(** What the loop of [copy_boot_files] relies on and keeps: the working
    directory, the source directory, and a directory at the destination. *)
Definition boot_ready (cwd ps pd : list string) (srcnode : node) (w : world) : Prop :=
  w_cwd w = cwd
  ∧ walk (w_root w) ps = Some srcnode
  ∧ ∃ dn, walk (w_root w) pd = Some dn ∧ is_dir dn = true.

(** The command lines of the processes a log records, in their order. *)
Definition commands (evs : list event) : list (list string) :=
  omap (λ e, match e with EvExec cmd _ => Some cmd | _ => None end) evs.

(** A computation that starts no process: whatever it adds to the log, no
    command is in it. *)
Definition quiet {A} (c : M A) : Prop :=
  ∀ w r w', c w = (r, w') →
    ∃ new, w_log w' = w_log w ++ new ∧ commands new = [].

(** The sample machine inside the scope: the temporary directory is made
    and the sample image is mounted on it. *)
Definition mounted_world : world :=
  (run ["mount"; "-o"; "loop"; "/isos/rhel8.iso"; sample_mount_point] false
     (mkdtemp ".rhel-8-iso" (sample_world 0)).2).2.

(** A machine whose image has no manifest. *)
Definition bare_world : world :=
  {| w_root := w_root (sample_world 0);
     w_cwd := ["srv"];
     w_tmpnames := ["k3x9q2ab"];
     w_image := λ _, delete "extra_files.json" sample_image;
     w_proc := sample_proc 1;
     w_nproc := 0;
     w_log := [] |}.

(** A computation that stays inside [D] and leaves the mount at [pm]
    alone: run with working directory [cwd] and the image mounted at
    [pm], it ends, however it ends, with the same working directory and
    the same mount, and what does not lie at or below [D] is as it was. *)
Definition keeps (cwd D pm : list string) (img : gmap string node) (u : node)
    {A} (c : M A) : Prop :=
  ∀ w r w',
    w_cwd w = cwd →
    walk (w_root w) pm = Some (Mnt img u) →
    c w = (r, w') →
    w_cwd w' = cwd
    ∧ walk (w_root w') pm = Some (Mnt img u)
    ∧ ∀ q, diverge D q → walk (w_root w') q = walk (w_root w) q.

(** * Verified properties *)

(** ** Dictionaries *)

Section dict_facts.
Context {V : Type}.
Implicit Types (d : list (string * V)) (k : string).

Lemma dict_get_set k k' v d :
  dict_get k (dict_set k' v d) = if decide (k = k') then Some v else dict_get k d.
Proof.
  induction d as [|[k0 v0] d IH]; simpl.
  - repeat case_decide; congruence.
  - destruct (decide (k' = k0)) as [->|Hne]; simpl.
    + repeat case_decide; congruence.
    + rewrite IH. repeat case_decide; congruence.
Qed.

Lemma dict_get_del k k' d :
  dict_get k (dict_del k' d) = if decide (k = k') then None else dict_get k d.
Proof.
  induction d as [|[k0 v0] d IH]; simpl.
  - by case_decide.
  - destruct (decide (k' = k0)) as [->|Hne]; simpl.
    + rewrite IH. repeat case_decide; congruence.
    + rewrite IH. repeat case_decide; congruence.
Qed.

Lemma dict_get_None k d : dict_get k d = None ↔ k ∉ dict_keys d.
Proof.
  unfold dict_keys. induction d as [|[k0 v0] d IH]; simpl.
  - split; [intros _; apply not_elem_of_nil | done].
  - rewrite not_elem_of_cons. case_decide; [|tauto].
    split; [done | intros [? _]; congruence].
Qed.

Lemma dict_has_keys k d : dict_has k d = true ↔ k ∈ dict_keys d.
Proof.
  unfold dict_has. destruct (dict_get k d) eqn:E.
  - split; [intros _ | done].
    destruct (decide (k ∈ dict_keys d)) as [|Hn]; [done|].
    apply dict_get_None in Hn. congruence.
  - apply dict_get_None in E. split; [done | tauto].
Qed.

Lemma dict_del_absent k d : dict_get k d = None → dict_del k d = d.
Proof.
  induction d as [|[k0 v0] d IH]; simpl; [done|].
  case_decide; [done|]. intros ?. by rewrite IH.
Qed.

Lemma dict_keys_set k v d :
  is_Some (dict_get k d) → dict_keys (dict_set k v d) = dict_keys d.
Proof.
  unfold dict_keys. induction d as [|[k0 v0] d IH]; simpl.
  - by intros [? ?].
  - case_decide; simpl; [done|]. intros ?. f_equal. by apply IH.
Qed.
End dict_facts.

(** ** The parser object *)

Section parser_facts.
Import ConfigParser.
Implicit Types (ti : ConfigParser.t) (s k v : string).

Lemma has_section_get ti s :
  has_section ti s = true ↔ is_Some (dict_get s (_sections ti)).
Proof.
  unfold has_section, dict_has.
  destruct (dict_get _ _); split; intros H; try done; try by eexists.
Qed.

Lemma has_section_sections ti s : has_section ti s = true ↔ s ∈ sections ti.
Proof. apply dict_has_keys. Qed.

(** A successful [set] on a named section: the section was there, its
    key now holds the value, and nothing else moved. *)
Lemma set_Return ti s o v ti' :
  s ≠ "" → s ≠ DEFAULTSECT →
  set ti s o v = Return ti' →
  has_section ti s = true
  ∧ (∀ s' k, value ti' s' k =
       if decide (s' = s) then
         if decide (k = lower o) then Some v else value ti s' k
       else value ti s' k)
  ∧ (∀ s', has_section ti' s' = has_section ti s')
  ∧ sections ti' = sections ti
  ∧ _defaults ti' = _defaults ti.
Proof.
  intros Hs1 Hs2. unfold set.
  rewrite bool_decide_false by (intros [?|?]; done).
  destruct (dict_get s (_sections ti)) as [d|] eqn:Hd; [|done].
  intros [= <-]. split_and!; simpl; try done.
  - apply has_section_get. by eexists.
  - intros s' k. unfold value; simpl. rewrite dict_get_set.
    destruct (decide (s' = s)) as [->|]; [|done].
    rewrite Hd; simpl. apply dict_get_set.
  - intros s'. unfold has_section, dict_has; simpl. rewrite dict_get_set.
    destruct (decide (s' = s)) as [->|]; [|done]. by rewrite Hd.
  - unfold sections; simpl. apply dict_keys_set. by eexists.
Qed.

Lemma set_Raise ti s o v e :
  s ≠ "" → s ≠ DEFAULTSECT →
  set ti s o v = Raise e → e = NoSectionError s ∧ has_section ti s = false.
Proof.
  intros Hs1 Hs2. unfold set, has_section, dict_has.
  rewrite bool_decide_false by (intros [?|?]; done).
  destruct (dict_get s (_sections ti)); [done|]. by intros [= <-].
Qed.

Lemma set_not_exit ti s o v n : set ti s o v ≠ SysExit n.
Proof. unfold set. case_bool_decide; [done|]. by destruct (dict_get _ _). Qed.

Lemma set_present ti s o v :
  s ≠ "" → s ≠ DEFAULTSECT → has_section ti s = true →
  ∃ ti', set ti s o v = Return ti'.
Proof.
  intros Hs1 Hs2 [d Hd]%has_section_get. unfold set.
  rewrite bool_decide_false by (intros [?|?]; done). rewrite Hd. by eexists.
Qed.

Lemma remove_section_has ti s s' :
  has_section (remove_section ti s).1 s' =
  if decide (s' = s) then false else has_section ti s'.
Proof.
  unfold remove_section; simpl. destruct (has_section ti s) eqn:E.
  - unfold has_section, dict_has; simpl. rewrite dict_get_del. by case_decide.
  - case_decide; [by subst|done].
Qed.

Lemma remove_section_value ti s s' k :
  value (remove_section ti s).1 s' k =
  if decide (s' = s) then None else value ti s' k.
Proof.
  unfold remove_section; simpl. destruct (has_section ti s) eqn:E.
  - unfold value; simpl. rewrite dict_get_del. by case_decide.
  - case_decide as Heq; [|done]. subst.
    unfold value, has_section, dict_has in *. by destruct (dict_get _ _).
Qed.

Lemma remove_section_defaults ti s :
  _defaults (remove_section ti s).1 = _defaults ti.
Proof. unfold remove_section; simpl. by destruct (has_section ti s). Qed.

(** Removing a section that is not there changes nothing and raises
    nothing. *)
Lemma remove_section_absent ti s :
  has_section ti s = false → remove_section ti s = (ti, false).
Proof. unfold remove_section. by intros ->. Qed.

Lemma remove_sections_has l ti s' :
  has_section (fold_left (λ ti s, (remove_section ti s).1) l ti) s' =
  if decide (s' ∈ l) then false else has_section ti s'.
Proof.
  revert ti. induction l as [|s l IH]; intros ti; cbn [fold_left].
  - destruct (decide (s' ∈ [])) as [H|]; [by apply elem_of_nil in H|done].
  - rewrite IH, remove_section_has.
    repeat case_decide; subst; try done; exfalso; set_solver.
Qed.

Lemma remove_sections_value l ti s' k :
  value (fold_left (λ ti s, (remove_section ti s).1) l ti) s' k =
  if decide (s' ∈ l) then None else value ti s' k.
Proof.
  revert ti. induction l as [|s l IH]; intros ti; cbn [fold_left].
  - destruct (decide (s' ∈ [])) as [H|]; [by apply elem_of_nil in H|done].
  - rewrite IH, remove_section_value.
    repeat case_decide; subst; try done; exfalso; set_solver.
Qed.

Lemma get_defaults_irrelevant ti ti' s o :
  (∀ k, value ti' s k = value ti s k) →
  has_section ti' s = has_section ti s →
  _defaults ti' = _defaults ti →
  get ti' s o = get ti s o.
Proof.
  intros Hv Hh Hd. unfold get. rewrite Hd.
  specialize (Hv (optionxform o)). unfold value, has_section, dict_has in *.
  destruct (dict_get s (_sections ti')), (dict_get s (_sections ti));
    simpl in *; try done.
  by rewrite Hv.
Qed.
End parser_facts.

(** ** The tree-info editors on the parser object *)

Lemma obind_Return {A B} (c : outcome A) (k : A → outcome B) b :
  obind c k = Return b → ∃ a, c = Return a ∧ k a = Return b.
Proof. destruct c; simpl; [by eauto | done | done]. Qed.

Lemma Return_inj {A} (a b : A) : Return a = Return b → a = b.
Proof. congruence. Qed.

Lemma variant_section_named v :
  "variant-" +:+ v ≠ "" ∧ "variant-" +:+ v ≠ ConfigParser.DEFAULTSECT
  ∧ "variant-" +:+ v ≠ "general" ∧ "variant-" +:+ v ≠ "tree"
  ∧ "variant-" +:+ v ≠ "media".
Proof. done. Qed.

Section editor_facts.
Import ConfigParser.
Implicit Types (ti : ConfigParser.t).

Lemma assign_paths_Return ti variant ti' :
  assign_paths ti variant = Return ti' →
  has_section ti "general" = true
  ∧ has_section ti "tree" = true
  ∧ has_section ti ("variant-" +:+ variant) = true
  ∧ (∀ s, has_section ti' s = has_section ti s)
  ∧ _defaults ti' = _defaults ti
  ∧ (∀ s k, value ti' s k =
       if decide (s = "variant-" +:+ variant) then
         if decide (k = "repository") then Some "."
         else if decide (k = "packages") then Some "Packages"
         else value ti s k
       else if decide (s = "tree") then
         if decide (k = "variants") then Some variant else value ti s k
       else if decide (s = "general") then
         if decide (k = "packagedir") then Some "Packages"
         else if decide (k = "repository") then Some "."
         else if decide (k = "variant") then Some variant
         else if decide (k = "variants") then Some variant
         else value ti s k
       else value ti s k).
Proof.
  intros H. unfold assign_paths in H.
  destruct (variant_section_named variant) as (N1 & N2 & N3 & N4 & N5).
  apply obind_Return in H as (t1 & E & H).
  apply set_Return in E as (P1 & V1 & S1 & _ & D1); [|done..].
  apply obind_Return in H as (t2 & E & H).
  apply set_Return in E as (P2 & V2 & S2 & _ & D2); [|done..].
  apply obind_Return in H as (t3 & E & H).
  apply set_Return in E as (P3 & V3 & S3 & _ & D3); [|done..].
  apply obind_Return in H as (t4 & E & H).
  apply set_Return in E as (P4 & V4 & S4 & _ & D4); [|done..].
  apply obind_Return in H as (t5 & E & H).
  apply set_Return in E as (P5 & V5 & S5 & _ & D5); [|done..].
  apply obind_Return in H as (t6 & E & H).
  apply set_Return in E as (P6 & V6 & S6 & _ & D6); [|done..].
  apply set_Return in H as (P7 & V7 & S7 & _ & D7); [|done..].
  split_and!.
  - done.
  - by rewrite S4, S3, S2, S1 in P5.
  - by rewrite S5, S4, S3, S2, S1 in P6.
  - intros s. by rewrite S7, S6, S5, S4, S3, S2, S1.
  - congruence.
  - intros s k. rewrite V7, V6, V5, V4, V3, V2, V1.
    change (lower "repository") with "repository".
    change (lower "packages") with "packages".
    change (lower "variants") with "variants".
    change (lower "variant") with "variant".
    change (lower "packagedir") with "packagedir".
    repeat case_decide; simplify_eq; done.
Qed.

Lemma assign_paths_Raise ti variant e :
  assign_paths ti variant = Raise e →
  ∃ s, e = NoSectionError s
       ∧ s ∈ ["general"; "tree"; "variant-" +:+ variant]
       ∧ has_section ti s = false.
Proof.
  intros H. unfold assign_paths in H.
  destruct (variant_section_named variant) as (N1 & N2 & N3 & N4 & N5).
  destruct (set ti "general" "variants" variant) as [t1| |] eqn:E; simpl in H;
    [|injection H as ->; apply set_Raise in E as [-> ?]; [|done..];
      eexists; split_and!; [done|set_solver|done] | done].
  apply set_Return in E as (P1 & V1 & S1 & _ & D1); [|done..].
  destruct (set_present t1 "general" "variant" variant) as [t2 E]; [done..| |].
  { by rewrite S1. }
  rewrite E in H; simpl in H.
  apply set_Return in E as (P2 & V2 & S2 & _ & D2); [|done..].
  destruct (set_present t2 "general" "repository" ".") as [t3 E]; [done..| |].
  { by rewrite S2, S1. }
  rewrite E in H; simpl in H.
  apply set_Return in E as (P3 & V3 & S3 & _ & D3); [|done..].
  destruct (set_present t3 "general" "packagedir" "Packages") as [t4 E]; [done..| |].
  { by rewrite S3, S2, S1. }
  rewrite E in H; simpl in H.
  apply set_Return in E as (P4 & V4 & S4 & _ & D4); [|done..].
  destruct (set t4 "tree" "variants" variant) as [t5| |] eqn:E; simpl in H;
    [|injection H as ->; apply set_Raise in E as [-> E]; [|done..];
      rewrite S4, S3, S2, S1 in E;
      eexists; split_and!; [done|set_solver|done] | done].
  apply set_Return in E as (P5 & V5 & S5 & _ & D5); [|done..].
  destruct (set t5 ("variant-" +:+ variant) "packages" "Packages") as [t6| |] eqn:E;
    simpl in H;
    [|injection H as ->; apply set_Raise in E as [-> E]; [|done..];
      rewrite S5, S4, S3, S2, S1 in E;
      eexists; split_and!; [done|set_solver|done] | done].
  apply set_Return in E as (P6 & V6 & S6 & _ & D6); [|done..].
  destruct (set_present t6 ("variant-" +:+ variant) "repository" ".") as [t7 E];
    [done..| |].
  { by rewrite S6. }
  congruence.
Qed.

Lemma assign_paths_not_exit ti variant n : assign_paths ti variant ≠ SysExit n.
Proof.
  unfold assign_paths.
  repeat (match goal with
          | |- obind (set ?t ?s ?o ?v) _ ≠ _ =>
              let E := fresh in
              destruct (set t s o v) eqn:E; simpl;
              [|done|by apply set_not_exit in E]
          end).
  apply set_not_exit.
Qed.
End editor_facts.

Section editor_results.
Import ConfigParser.
Implicit Types (ti : ConfigParser.t).

Lemma get_ext ti ti' s o :
  value ti' s (lower o) = value ti s (lower o) →
  has_section ti' s = has_section ti s →
  _defaults ti' = _defaults ti →
  get ti' s o = get ti s o.
Proof.
  intros Hv Hh Hd. unfold get, optionxform. rewrite Hd.
  unfold value, has_section, dict_has in *.
  destruct (dict_get s (_sections ti')), (dict_get s (_sections ti));
    simpl in *; try done.
  by rewrite Hv.
Qed.

Lemma get_not_exit ti s o n : get ti s o ≠ SysExit n.
Proof. unfold get. repeat case_match; done. Qed.

(** [_tweak_paths] is the seven assignments, the optional platform
    rewrite and the removal of [media]. *)
Lemma tweak_paths_unfold ti variant platforms :
  _tweak_paths ti variant platforms =
  (ti <- assign_paths ti variant ;;
   ti <- (if platforms then
            arch <- get ti "general" "arch" ;;
            ti <- set ti "general" "platforms" arch ;;
            set ti "tree" "platforms" arch
          else Return ti) ;;
   Return (remove_section ti "media").1)%O.
Proof.
  unfold _tweak_paths, assign_paths.
  repeat (match goal with
          | |- obind (set ?t ?s ?o ?v) _ = _ => destruct (set t s o v); simpl; [|done..]
          end).
  done.
Qed.

Lemma platforms_rewrite_Return ti ti' :
  platforms_rewrite ti = Return ti' →
  ∃ arch, get ti "general" "arch" = Return arch
    ∧ (∀ s, has_section ti' s = has_section ti s)
    ∧ _defaults ti' = _defaults ti
    ∧ (∀ s k, value ti' s k =
         if decide ((s = "tree" ∨ s = "general") ∧ k = "platforms")
         then Some arch else value ti s k).
Proof.
  unfold platforms_rewrite. intros H.
  apply obind_Return in H as (arch & Ha & H).
  apply obind_Return in H as (t1 & E & H).
  apply set_Return in E as (P1 & V1 & S1 & _ & D1); [|done..].
  apply set_Return in H as (P2 & V2 & S2 & _ & D2); [|done..].
  exists arch. split_and!; [done| |congruence|].
  - intros s. by rewrite S2, S1.
  - intros s k. rewrite V2, V1.
    change (lower "platforms") with "platforms".
    repeat case_decide; try done; naive_solver.
Qed.

(** With [general] and [tree] in place the platform rewrite can only
    fail on the look-up of [arch]. *)
Lemma platforms_rewrite_Raise ti e :
  has_section ti "general" = true → has_section ti "tree" = true →
  platforms_rewrite ti = Raise e →
  e = NoOptionError "arch" "general"
  ∧ value ti "general" "arch" = None
  ∧ dict_get "arch" (_defaults ti) = None.
Proof.
  intros Hg Ht. unfold platforms_rewrite.
  destruct (get ti "general" "arch") as [arch| |] eqn:Ha; simpl.
  - destruct (set_present ti "general" "platforms" arch) as [t1 E]; [done..|].
    rewrite E; simpl.
    apply set_Return in E as (P1 & V1 & S1 & _ & D1); [|done..].
    destruct (set_present t1 "tree" "platforms" arch) as [t2 E]; [done..| |].
    { by rewrite S1. }
    by rewrite E.
  - intros [= <-]. revert Ha. unfold get, value.
    change (optionxform "arch") with "arch".
    apply has_section_get in Hg as [d Hd]. rewrite Hd. simpl.
    destruct (dict_get "arch" d); [done|].
    destruct (dict_get "arch" (_defaults ti)); [done|]. by intros [= <-].
  - done.
Qed.

Lemma edit_baseos_Return ti ti' :
  edit_baseos ti = Return ti' → baseos_edited ti'.
Proof.
  unfold edit_baseos. rewrite tweak_paths_unfold. intros H.
  apply obind_Return in H as (t & H & <-%Return_inj).
  apply obind_Return in H as (t7 & H7 & H).
  apply obind_Return in H as (t8 & <-%Return_inj & <-%Return_inj).
  apply assign_paths_Return in H7 as (_ & _ & _ & S & D & V).
  unfold baseos_edited.
  rewrite !remove_section_has, !remove_section_value, !V.
  split_and!; done.
Qed.

Lemma edit_appstream_Return ti ti' :
  edit_appstream ti = Return ti' →
  ∃ arch, get ti "general" "arch" = Return arch ∧ appstream_edited arch ti'.
Proof.
  unfold edit_appstream. rewrite tweak_paths_unfold. intros H.
  apply obind_Return in H as (t & H & <-%Return_inj).
  apply obind_Return in H as (t7 & H7 & H).
  apply obind_Return in H as (t9 & H9 & <-%Return_inj).
  apply assign_paths_Return in H7 as (_ & _ & _ & S7 & D7 & V7).
  apply platforms_rewrite_Return in H9 as (arch & Ha & S9 & D9 & V9).
  exists arch. split.
  { rewrite <- Ha. symmetry. apply get_ext; [|done..].
    rewrite V7. change (lower "arch") with "arch". by repeat case_decide. }
  set (t := (remove_section t9 "media").1).
  set (L := _ ++ _).
  assert (HL : ∀ s, startswith s "images-" = false →
                    s ≠ "variant-BaseOS" → s ≠ "checksums" → s ≠ "stage2" → s ∉ L).
  { intros s Hs ? ? ?. unfold L. rewrite elem_of_app, list_elem_of_filter.
    intros [Hin|[Hp _]]; [set_solver|]. by rewrite Hs in Hp. }
  unfold appstream_edited.
  rewrite !remove_sections_has, !remove_sections_value.
  assert (L1 : "variant-BaseOS" ∈ L) by (apply elem_of_app; left; set_solver).
  assert (L2 : "checksums" ∈ L) by (apply elem_of_app; left; set_solver).
  assert (L3 : "stage2" ∈ L) by (apply elem_of_app; left; set_solver).
  rewrite !(decide_True _ _ L1), !(decide_True _ _ L2), !(decide_True _ _ L3).
  rewrite !(decide_False (P := "general" ∈ L)) by (by apply HL).
  rewrite !(decide_False (P := "tree" ∈ L)) by (by apply HL).
  rewrite !(decide_False (P := "variant-AppStream" ∈ L)) by (by apply HL).
  rewrite !(decide_False (P := "media" ∈ L)) by (by apply HL).
  unfold t. rewrite !remove_section_has, !remove_section_value, !V9, !V7.
  split_and!; try done.
  intros s Hin%has_section_sections.
  rewrite remove_sections_has in Hin.
  destruct (decide (s ∈ L)) as [|Hn]; [done|].
  destruct (startswith s "images-") eqn:Hp; [|done].
  exfalso. apply Hn. unfold L. apply elem_of_app. right.
  apply list_elem_of_filter. split; [by rewrite Hp|].
  by apply has_section_sections.
Qed.
End editor_results.

(** ** The state monad *)

Lemma bind_Return {A B} (c : M A) (k : A → M B) w b w' :
  bind c k w = (Return b, w') →
  ∃ a w1, c w = (Return a, w1) ∧ k a w1 = (Return b, w').
Proof.
  unfold bind. destruct (c w) as [[a| |] w1]; [by eauto | done | done].
Qed.

Lemma bind_Raise {A B} (c : M A) (k : A → M B) w e w' :
  bind c k w = (Raise e, w') →
  c w = (Raise e, w') ∨ ∃ a w1, c w = (Return a, w1) ∧ k a w1 = (Raise e, w').
Proof.
  unfold bind. destruct (c w) as [[a| |] w1]; intros H.
  - right. exists a, w1. by split.
  - injection H as -> ->. by left.
  - discriminate.
Qed.

(** ** Walking and altering the tree *)

Lemma walk_empty_dir c p : walk (Dir ∅) (c :: p) = None.
Proof. simpl. by rewrite lookup_empty. Qed.

Lemma walk_app n p q : walk n (p ++ q) = walk n p ≫= λ m, walk m q.
Proof.
  revert n. induction p as [|c p IH]; intros n; [done|].
  cbn [app walk]. destruct (entries n) as [ch|]; [|done].
  destruct (ch !! c) as [n'|]; [|done]. apply IH.
Qed.

Lemma alter_at_deeper mk f path c c2 p2 ch :
  alter_at mk f path (c :: c2 :: p2) (Dir ch) =
  match ch !! c with
  | Some n' =>
      (n'' <- alter_at mk f path (c2 :: p2) n' ;; Return (Dir (<[c:=n'']> ch)))%O
  | None =>
      if mk then
        (n'' <- alter_at mk f path (c2 :: p2) (Dir ∅) ;;
         Return (Dir (<[c:=n'']> ch)))%O
      else Raise (OSError ENOENT path)
  end.
Proof. done. Qed.

(** A successful alteration has asked [f] about the node at [p] and has
    put [f]'s answer there. *)
Lemma alter_at_walk mk f path p n n' :
  alter_at mk f path p n = Return n' →
  ∃ o, f (walk n p) = Return o ∧ walk n' p = o.
Proof.
  revert n n'. induction p as [|c p IH]; intros n n' H.
  - simpl in H. apply obind_Return in H as ([n1|] & Hf & H); [|done].
    apply Return_inj in H as <-. by exists (Some n1).
  - destruct n as [d|ch|img u]; [done| |done].
    destruct p as [|c2 p2].
    + simpl in H. apply obind_Return in H as (o & Hf & <-%Return_inj).
      exists o. simpl. rewrite lookup_partial_alter_eq.
      split; [|by destruct o]. by destruct (ch !! c).
    + rewrite alter_at_deeper in H. cbn [walk entries].
      destruct (ch !! c) as [n1|] eqn:Hc.
      * apply obind_Return in H as (n1' & H1 & <-%Return_inj).
        apply IH in H1 as (o & Hf & Hw). exists o. split; [done|].
        cbn [walk entries]. by rewrite lookup_insert_eq.
      * destruct mk; [|done].
        apply obind_Return in H as (n1' & H1 & <-%Return_inj).
        destruct (IH (Dir ∅) n1' H1) as (o & Hf & Hw). exists o.
        rewrite walk_empty_dir in Hf. split; [done|].
        cbn [walk entries]. by rewrite lookup_insert_eq.
Qed.

Lemma alter_at_Raise mk f path p n e :
  (∀ o e, f o = Raise e → ∃ c q, e = OSError c q) →
  alter_at mk f path p n = Raise e → ∃ c q, e = OSError c q.
Proof.
  intros Hf. revert n. induction p as [|c p IH]; intros n H.
  - simpl in H. destruct (f (Some n)) as [[?|]| |] eqn:E; simpl in H; try done.
    + injection H as <-. by eauto.
    + injection H as <-. by apply (Hf _ _ E).
  - destruct n as [d|ch|img u]; [injection H as <-; by eauto| |injection H as <-; by eauto].
    destruct p as [|c2 p2].
    + simpl in H. destruct (f (ch !! c)) eqn:E; simpl in H; try done.
      injection H as <-. by apply (Hf _ _ E).
    + rewrite alter_at_deeper in H.
      destruct (ch !! c) as [n1|].
      * destruct (alter_at mk f path (c2 :: p2) n1) eqn:E; simpl in H; try done.
        injection H as <-. by apply (IH _ E).
      * destruct mk; [|injection H as <-; by eauto].
        destruct (alter_at true f path (c2 :: p2) (Dir ∅)) eqn:E; simpl in H; try done.
        injection H as <-. by apply (IH _ E).
Qed.

Lemma alter_at_not_exit mk f path p n code :
  (∀ o code', f o ≠ SysExit code') →
  alter_at mk f path p n ≠ SysExit code.
Proof.
  intros Hf. revert n code. induction p as [|c p IH]; intros n code.
  - simpl. destruct (f (Some n)) as [[?|]| |] eqn:E; simpl; try done.
    by apply Hf in E.
  - destruct n as [d|ch|img u]; [done| |done].
    destruct p as [|c2 p2].
    + simpl. destruct (f (ch !! c)) eqn:E; simpl; try done. by apply Hf in E.
    + rewrite alter_at_deeper. destruct (ch !! c) as [n1|].
      * destruct (alter_at mk f path (c2 :: p2) n1) eqn:E; simpl; try done.
        by apply IH in E.
      * destruct mk; [|done].
        destruct (alter_at true f path (c2 :: p2) (Dir ∅)) eqn:E; simpl; try done.
        by apply IH in E.
Qed.

(** ** Paths *)

Lemma split_slash_nonempty s : split_slash s ≠ [].
Proof.
  destruct s as [|c s]; simpl; [done|].
  destruct (Ascii.eqb c "/"); [done|]. by destruct (split_slash s).
Qed.

Lemma split_slash_sep d name :
  split_slash name = [name] →
  split_slash (d +:+ "/" +:+ name) = split_slash d ++ [name].
Proof.
  intros Hn. induction d as [|c d IH].
  - change (split_slash ("" +:+ "/" +:+ name)) with ("" :: split_slash name).
    by rewrite Hn.
  - change (String c d +:+ "/" +:+ name) with (String c (d +:+ "/" +:+ name)).
    cbn [split_slash]. rewrite IH.
    destruct (Ascii.eqb c "/"); [done|].
    pose proof (split_slash_nonempty d).
    by destruct (split_slash d).
Qed.

Lemma split_slash_after_slash d name :
  split_slash name = [name] →
  last (split_slash d) = Some "" →
  split_slash (d +:+ name) = removelast (split_slash d) ++ [name].
Proof.
  intros Hn. induction d as [|c d IH]; intros Hl.
  - change ("" +:+ name) with name. by rewrite Hn.
  - change (String c d +:+ name) with (String c (d +:+ name)).
    cbn [split_slash] in *.
    pose proof (split_slash_nonempty d) as Hne.
    destruct (Ascii.eqb c "/").
    + destruct (split_slash d) as [|x r] eqn:E; [done|].
      rewrite IH by done. done.
    + destruct (split_slash d) as [|x r] eqn:E; [done|].
      destruct r as [|y r]; [done|].
      rewrite IH by done. done.
Qed.

Lemma prefix_empty s : String.prefix "" s = true.
Proof. by destruct s. Qed.

Lemma startswith_app d x : d ≠ "" → startswith (d +:+ x) "/" = startswith d "/".
Proof.
  destruct d as [|c d]; [done|]. intros _. unfold startswith.
  change (String c d +:+ x) with (String c (d +:+ x)).
  cbn [String.prefix]. destruct (ascii_dec _ _); [|done].
  by rewrite !prefix_empty.
Qed.

Lemma simple_name_spec name :
  simple_name name = true →
  split_slash name = [name] ∧ name ≠ "" ∧ name ≠ "." ∧ name ≠ ".."
  ∧ startswith name "/" = false.
Proof.
  unfold simple_name. intros [H1 H2]%andb_prop.
  apply bool_decide_eq_true in H1 as (? & ? & ? & ?).
  apply negb_true_iff in H2. done.
Qed.

Lemma norm_step_simple stk name :
  simple_name name = true → norm_step stk name = stk ++ [name].
Proof.
  intros (_ & ? & ? & ? & _)%simple_name_spec. unfold norm_step.
  rewrite bool_decide_false by (intros [?|?]; done).
  by rewrite bool_decide_false.
Qed.

Lemma resolve_nonempty cwd d : d ≠ "" → resolve cwd d = Some (rbase cwd d).
Proof. intros Hd. unfold resolve, rbase. by rewrite bool_decide_false. Qed.

Lemma app_nonempty d x : d ≠ "" → d +:+ x ≠ "".
Proof. by destruct d. Qed.

(** Joining a plain name to a directory path appends one component. *)
Lemma join2_simple cwd d name :
  simple_name name = true →
  join2 d name ≠ ""
  ∧ rbase cwd (join2 d name) = rbase cwd d ++ [name]
  ∧ basename (join2 d name) = name.
Proof.
  intros Hs. pose proof (norm_step_simple) as Hstep.
  apply simple_name_spec in Hs as Hs'. destruct Hs' as (Hsp & Hne & _ & _ & Hst).
  unfold join2. rewrite Hst.
  destruct (decide (d = "")) as [->|Hd].
  - rewrite bool_decide_true by done. cbn [orb].
    change ("" +:+ name) with name.
    split_and!; [done| |].
    + unfold rbase. rewrite Hst, Hsp. simpl. by apply Hstep.
    + unfold basename. by rewrite Hsp.
  - rewrite (bool_decide_false (d = "")) by done. cbn [orb].
    destruct (endswith_slash d) eqn:He.
    + unfold endswith_slash in He.
      destruct (last (split_slash d)) as [[|]|] eqn:Hl; try done.
      pose proof (split_slash_after_slash d name Hsp Hl) as Hsplit.
      apply last_Some in Hl as [l' Hl'].
      rewrite Hl', removelast_last in Hsplit.
      split_and!; [by apply app_nonempty| |].
      * unfold rbase. rewrite startswith_app by done. rewrite Hsplit, Hl'.
        rewrite !fold_left_app. simpl. by rewrite Hstep.
      * unfold basename. rewrite Hsplit. by rewrite last_snoc.
    + pose proof (split_slash_sep d name Hsp) as Hsplit.
      split_and!; [by apply app_nonempty| |].
      * unfold rbase. rewrite startswith_app by done. rewrite Hsplit.
        rewrite fold_left_app. simpl. by rewrite Hstep.
      * unfold basename. rewrite Hsplit. by rewrite last_snoc.
Qed.

Lemma join_simple_from cwd names d :
  Forall (λ name, simple_name name = true) names →
  d ≠ "" →
  fold_left join2 names d ≠ ""
  ∧ rbase cwd (fold_left join2 names d) = rbase cwd d ++ names.
Proof.
  intros Hall. revert d. induction Hall as [|n1 names H1 Hall IH]; intros d Hd.
  - by rewrite app_nil_r.
  - cbn [fold_left].
    destruct (join2_simple cwd d n1 H1) as (Hn & Hr & _).
    destruct (IH _ Hn) as [IH1 IH2]. split; [done|].
    rewrite IH2, Hr. by rewrite <- app_assoc.
Qed.

(** [os.path.join] of plain names appends them to the directory's path. *)
Lemma join_simple cwd d names :
  Forall (λ name, simple_name name = true) names →
  names ≠ [] →
  resolve cwd (join d names) = Some (rbase cwd d ++ names).
Proof.
  intros Hall Hne. destruct names as [|n0 names]; [done|].
  apply Forall_cons in Hall as [H0 Hall].
  unfold join. cbn [fold_left].
  destruct (join2_simple cwd d n0 H0) as (Hn & Hr & _).
  destruct (join_simple_from cwd names _ Hall Hn) as [H1 H2].
  rewrite resolve_nonempty by done. rewrite H2, Hr. by rewrite <- app_assoc.
Qed.

Lemma basename_join d names name :
  simple_name name = true → basename (join d (names ++ [name])) = name.
Proof.
  intros Hs. unfold join. rewrite fold_left_app. simpl.
  by apply (join2_simple []).
Qed.

Lemma basename_join_one d name :
  simple_name name = true → basename (join d [name]) = name.
Proof. intros Hs. by apply (basename_join d []). Qed.

Lemma diverge_sym p q : diverge p q → diverge q p.
Proof. unfold diverge. tauto. Qed.

Lemma diverge_ext p q r s : diverge p q → diverge (p ++ r) (q ++ s).
Proof.
  intros [H1 H2]. split; intros Hpre.
  - destruct (prefix_weak_total p q (q ++ s)); try done.
    + etrans; [|apply Hpre]. by apply prefix_app_r.
    + by apply prefix_app_r.
  - destruct (prefix_weak_total p q (p ++ r)); try done.
    + by apply prefix_app_r.
    + etrans; [|apply Hpre]. by apply prefix_app_r.
Qed.

Lemma diverge_common b s t : diverge s t → diverge (b ++ s) (b ++ t).
Proof. intros [H1 H2]. split; intros H%prefix_app_inv; done. Qed.

Lemma diverge_cons c p q : diverge (c :: p) (c :: q) → diverge p q.
Proof.
  intros [H1 H2]. split; intros H; [apply H1|apply H2]; by apply prefix_cons.
Qed.

(** The kernel's walk, when it arrives, arrives where the lexical
    resolution does. *)
Lemma path_walk_norm root comps stk p :
  path_walk root stk comps = Some p → fold_left norm_step comps stk = p.
Proof.
  revert stk. induction comps as [|c comps IH]; intros stk; cbn [path_walk fold_left].
  - by intros [= ->].
  - unfold norm_step at 2. repeat case_bool_decide.
    + destruct (walk root stk) as [n|]; [|done]. destruct (is_dir n); [|done]. apply IH.
    + destruct (walk root stk) as [n|]; [|done]. destruct (is_dir n); [|done]. apply IH.
    + apply IH.
Qed.

Lemma os_stat_stat w path n : os_stat w path = Some n → stat w path = Some n.
Proof.
  unfold os_stat, stat, resolve. case_bool_decide; [done|].
  destruct (path_walk _ _ _) as [p|] eqn:E; [|done].
  apply path_walk_norm in E. by rewrite E.
Qed.

Lemma os_stat_None w path : stat w path = None → os_stat w path = None.
Proof.
  intros H. destruct (os_stat w path) as [n|] eqn:E; [|done].
  apply os_stat_stat in E. congruence.
Qed.

(** ** Alterations leave the rest of the tree alone *)

(** A path that diverges from the altered one leads where it led. *)
Lemma alter_at_frame mk f path p n n' q :
  alter_at mk f path p n = Return n' →
  diverge p q →
  walk n' q = walk n q.
Proof.
  revert n n' q. induction p as [|c p IH]; intros n n' q H Hdiv.
  - destruct Hdiv as [Hd _]. exfalso. apply Hd. apply prefix_nil.
  - destruct q as [|c' q].
    { destruct Hdiv as [_ Hd]. exfalso. apply Hd. apply prefix_nil. }
    destruct n as [d|ch|img u]; [done| |done].
    destruct p as [|c2 p2].
    + simpl in H. apply obind_Return in H as (o & Hf & <-%Return_inj).
      cbn [walk entries].
      assert (c ≠ c') as Hne.
      { intros ->. destruct Hdiv as [Hd _]. apply Hd.
        apply prefix_cons, prefix_nil. }
      by rewrite lookup_partial_alter_ne.
    + rewrite alter_at_deeper in H. cbn [walk entries].
      destruct (decide (c = c')) as [<-|Hne].
      * apply diverge_cons in Hdiv.
        destruct (ch !! c) as [n1|] eqn:Hc.
        -- apply obind_Return in H as (n1' & H1 & <-%Return_inj).
           cbn [walk entries]. rewrite lookup_insert_eq. by eapply IH.
        -- destruct mk; [|done].
           apply obind_Return in H as (n1' & H1 & <-%Return_inj).
           cbn [walk entries]. rewrite lookup_insert_eq.
           rewrite (IH _ _ _ H1 Hdiv).
           destruct q as [|c3 q3]; [|apply walk_empty_dir].
           destruct Hdiv as [_ Hd]. exfalso. apply Hd. apply prefix_nil.
      * destruct (ch !! c) as [n1|] eqn:Hc.
        -- apply obind_Return in H as (n1' & H1 & <-%Return_inj).
           cbn [walk entries]. by rewrite lookup_insert_ne.
        -- destruct mk; [|done].
           apply obind_Return in H as (n1' & H1 & <-%Return_inj).
           cbn [walk entries]. by rewrite lookup_insert_ne.
Qed.

(** Before a successful alteration, what lies on the way to the altered
    path is a plain directory, or missing when directories are made. *)
Lemma alter_at_way_before mk f path p n n' q r :
  alter_at mk f path p n = Return n' →
  p = q ++ r → r ≠ [] →
  walk n q = None ∨ ∃ ch, walk n q = Some (Dir ch).
Proof.
  revert n n' q. induction p as [|c p IH]; intros n n' q H Hp Hr.
  - by destruct q, r.
  - destruct n as [d|ch|img u]; [done| |done].
    destruct q as [|c' q]; [right; by eexists|].
    injection Hp as <- Hp.
    destruct p as [|c2 p2]; [by destruct q, r|].
    rewrite alter_at_deeper in H. cbn [walk entries].
    destruct (ch !! c) as [n1|] eqn:Hc; [|by left].
    apply obind_Return in H as (n1' & H1 & _). by eapply IH.
Qed.

(** After a successful alteration, what lies on the way to the altered
    path is a plain directory. *)
Lemma alter_at_way_after mk f path p n n' q r :
  alter_at mk f path p n = Return n' →
  p = q ++ r → r ≠ [] →
  ∃ ch, walk n' q = Some (Dir ch).
Proof.
  revert n n' q. induction p as [|c p IH]; intros n n' q H Hp Hr.
  - by destruct q, r.
  - destruct n as [d|ch|img u]; [done| |done].
    destruct p as [|c2 p2].
    + simpl in H. apply obind_Return in H as (o & Hf & <-%Return_inj).
      destruct q as [|c' q]; [by eexists|].
      injection Hp as <- Hp. by destruct q, r.
    + rewrite alter_at_deeper in H.
      assert (∃ n1', n' = Dir (<[c:=n1']> ch)
                     ∧ ∃ n1, alter_at mk f path (c2 :: p2) n1 = Return n1')
        as (n1' & -> & n1 & H1).
      { destruct (ch !! c) as [n1|].
        - apply obind_Return in H as (n1' & H1 & <-%Return_inj). by eauto.
        - destruct mk; [|done].
          apply obind_Return in H as (n1' & H1 & <-%Return_inj). by eauto. }
      destruct q as [|c' q]; [by eexists|].
      injection Hp as <- Hp. cbn [walk entries]. rewrite lookup_insert_eq.
      by eapply IH.
Qed.

(** What is found at the altered path and below it. *)
Lemma alter_at_below mk f path p n n' o r :
  alter_at mk f path p n = Return n' →
  f (walk n p) = Return o →
  walk n' (p ++ r) = o ≫= λ m, walk m r.
Proof.
  intros H Hf. apply alter_at_walk in H as (o' & Hf' & Hw).
  rewrite walk_app, Hw. congruence.
Qed.

(** A mount point is neither on the way to a path that was altered with
    success nor below it, when the alteration refuses directories. *)
Lemma alter_at_diverges_from_mount mk f path p n n' q img u :
  alter_at mk f path p n = Return n' →
  (∀ x, is_dir x = true → ∃ e, f (Some x) = Raise e) →
  walk n q = Some (Mnt img u) →
  diverge p q.
Proof.
  intros H Hf Hq. split.
  - intros [r ->]. rewrite walk_app in Hq.
    destruct (walk n p) as [x|] eqn:Hp; [|done]. cbn in Hq.
    assert (is_dir x = true) as Hx.
    { destruct r; [by injection Hq as ->|]. destruct x; try done. }
    apply alter_at_walk in H as (o & Ho & _). rewrite Hp in Ho.
    destruct (Hf x Hx) as [e He]. congruence.
  - intros [r Hr].
    destruct (decide (r = [])) as [->|Hne].
    + rewrite app_nil_r in Hr. subst q.
      apply alter_at_walk in H as (o & Ho & _). rewrite Hq in Ho.
      destruct (Hf (Mnt img u) eq_refl) as [e He]. congruence.
    + destruct (alter_at_way_before _ _ _ _ _ _ _ _ H Hr Hne) as [Hn|[ch Hd]];
        congruence.
Qed.

Lemma plain_to_walk n p x : plain_to n p = Some x → walk n p = Some x.
Proof.
  revert n. induction p as [|c p IH]; intros n; [done|].
  destruct n as [|ch|]; try done. cbn [plain_to walk entries].
  destruct (ch !! c); [apply IH|done].
Qed.

(** A path that is reached through plain directories can be altered, and
    is reached through plain directories afterwards. *)
Lemma alter_at_plain mk f path p n x o :
  p ≠ [] →
  plain_to n p = Some x →
  f (Some x) = Return o →
  ∃ n', alter_at mk f path p n = Return n'
        ∧ plain_to n' p = o
        ∧ walk n' p = o.
Proof.
  revert n. induction p as [|c p IH]; intros n Hne Hp Hf; [done|].
  destruct n as [|ch|]; try done. cbn [plain_to] in Hp.
  destruct (ch !! c) as [n1|] eqn:Hc; [|done].
  destruct p as [|c2 p2].
  - cbn [plain_to] in Hp. injection Hp as ->.
    exists (Dir (partial_alter (λ _, o) c ch)). cbn [alter_at]. rewrite Hc, Hf.
    cbn [obind plain_to walk entries]. rewrite lookup_partial_alter_eq.
    by destruct o.
  - destruct (IH n1) as (n1' & Ha & Hp' & Hw'); [done..|].
    exists (Dir (<[c:=n1']> ch)). rewrite alter_at_deeper, Hc, Ha.
    cbn [obind plain_to walk entries]. by rewrite lookup_insert_eq.
Qed.

(** ** Files *)

Lemma fs_update_Return mk path f w w' :
  fs_update mk path f w = (Return tt, w') →
  ∃ p root', resolve (w_cwd w) path = Some p
             ∧ alter_at mk f path p (w_root w) = Return root'
             ∧ w' = set_root root' w.
Proof.
  unfold fs_update. destruct (resolve _ _) as [p|]; [|done].
  destruct (alter_at _ _ _ _ _) as [root'| |] eqn:E; [|done..].
  intros [= <-]. by exists p, root'.
Qed.

Lemma fs_update_Raise mk path f w e w' :
  (∀ o e, f o = Raise e → ∃ c q, e = OSError c q) →
  fs_update mk path f w = (Raise e, w') → w' = w ∧ ∃ c q, e = OSError c q.
Proof.
  intros Hf. unfold fs_update. destruct (resolve _ _) as [p|].
  - destruct (alter_at _ _ _ _ _) as [root'| |] eqn:E; [done| |done].
    intros [= <- <-]. split; [done|]. by eapply alter_at_Raise.
  - intros [= <- <-]. by eauto.
Qed.

Lemma fs_update_not_exit mk path f w code w' :
  (∀ o code', f o ≠ SysExit code') →
  fs_update mk path f w ≠ (SysExit code, w').
Proof.
  intros Hf. unfold fs_update. destruct (resolve _ _) as [p|]; [|done].
  destruct (alter_at _ _ _ _ _) eqn:E; try done.
  by apply alter_at_not_exit in E.
Qed.

Lemma put_file_stat path data w w' :
  put_file path data w = (Return tt, w') →
  stat w' path = Some (File data)
  ∧ w_log w' = w_log w ∧ w_cwd w' = w_cwd w ∧ w_nproc w' = w_nproc w.
Proof.
  intros (p & root' & Hp & Ha & ->)%fs_update_Return.
  split; [|done]. unfold stat; simpl. rewrite Hp; simpl.
  apply alter_at_walk in Ha as (o & Hf & ->).
  destruct (walk (w_root w) p) as [[]|]; try done; by injection Hf as <-.
Qed.

Lemma put_file_Raise path data w e w' :
  put_file path data w = (Raise e, w') → ∃ c q, e = OSError c q.
Proof.
  intros H. eapply fs_update_Raise in H as [_ H]; [done|].
  intros [[]|] e'; try done; intros [= <-]; by eauto.
Qed.

Lemma write_file_stat path data w w' :
  write_file path data w = (Return tt, w') →
  stat w' path = Some (File data).
Proof.
  unfold write_file. intros (? & w1 & [= <- <-] & H)%bind_Return.
  by apply put_file_stat in H as [? _].
Qed.

Lemma write_file_Raise path data w e w' :
  write_file path data w = (Raise e, w') → ∃ c q, e = OSError c q.
Proof.
  unfold write_file. intros [H|(? & w1 & _ & H)]%bind_Raise; [done|].
  by eapply put_file_Raise.
Qed.

(** ** C2 and C3: the documents the editors write back *)

(** C2.  When [tweak_baseos_treeinfo] returns, the document it has written
    back to the path it read from has no [variant-AppStream] and no
    [media] section; [general.variants], [general.variant] and
    [tree.variants] are [BaseOS]; [general.repository] and
    [variant-BaseOS.repository] are [.]; [general.packagedir] and
    [variant-BaseOS.packages] are [Packages].  This holds whatever document
    the file held. *)
Theorem tweak_baseos_treeinfo_document ini_parse file_path w w' :
  tweak_baseos_treeinfo ini_parse file_path w = (Return tt, w') →
  ∃ ti0 ti,
    read_config ini_parse file_path w = (Return ti0, w)
    ∧ edit_baseos ti0 = Return ti
    ∧ stat w' file_path = Some (File (ConfigParser.write ti))
    ∧ ConfigParser.has_section ti "variant-AppStream" = false
    ∧ ConfigParser.has_section ti "media" = false
    ∧ ConfigParser.value ti "general" "variants" = Some "BaseOS"
    ∧ ConfigParser.value ti "general" "variant" = Some "BaseOS"
    ∧ ConfigParser.value ti "tree" "variants" = Some "BaseOS"
    ∧ ConfigParser.value ti "general" "repository" = Some "."
    ∧ ConfigParser.value ti "variant-BaseOS" "repository" = Some "."
    ∧ ConfigParser.value ti "general" "packagedir" = Some "Packages"
    ∧ ConfigParser.value ti "variant-BaseOS" "packages" = Some "Packages".
Proof.
  unfold tweak_baseos_treeinfo.
  intros (ti0 & w1 & Hr & H)%bind_Return.
  apply bind_Return in H as (ti & w2 & Hl & Hw).
  assert (w1 = w) as ->.
  { revert Hr. unfold read_config. repeat case_match; congruence. }
  unfold lift in Hl. injection Hl as He <-.
  exists ti0, ti. split_and!; [done | done | by eapply write_file_stat |..];
    apply edit_baseos_Return in He; apply He.
Qed.

(** C3.  When [tweak_appstream_treeinfo] returns, the document it has
    written back has no [variant-BaseOS], [checksums], [stage2] or [media]
    section and no section whose name starts with [images-];
    [general.platforms] and [tree.platforms] hold the value the document
    gave for [general.arch] before the edit; the variant is [AppStream],
    the repository [.], the package directory [Packages]. *)
Theorem tweak_appstream_treeinfo_document ini_parse file_path w w' :
  tweak_appstream_treeinfo ini_parse file_path w = (Return tt, w') →
  ∃ ti0 ti arch,
    read_config ini_parse file_path w = (Return ti0, w)
    ∧ edit_appstream ti0 = Return ti
    ∧ stat w' file_path = Some (File (ConfigParser.write ti))
    ∧ ConfigParser.get ti0 "general" "arch" = Return arch
    ∧ ConfigParser.has_section ti "variant-BaseOS" = false
    ∧ ConfigParser.has_section ti "checksums" = false
    ∧ ConfigParser.has_section ti "stage2" = false
    ∧ ConfigParser.has_section ti "media" = false
    ∧ (∀ s, s ∈ ConfigParser.sections ti → startswith s "images-" = false)
    ∧ ConfigParser.value ti "general" "platforms" = Some arch
    ∧ ConfigParser.value ti "tree" "platforms" = Some arch
    ∧ ConfigParser.value ti "general" "variants" = Some "AppStream"
    ∧ ConfigParser.value ti "general" "variant" = Some "AppStream"
    ∧ ConfigParser.value ti "tree" "variants" = Some "AppStream"
    ∧ ConfigParser.value ti "general" "repository" = Some "."
    ∧ ConfigParser.value ti "variant-AppStream" "repository" = Some "."
    ∧ ConfigParser.value ti "general" "packagedir" = Some "Packages"
    ∧ ConfigParser.value ti "variant-AppStream" "packages" = Some "Packages".
Proof.
  unfold tweak_appstream_treeinfo.
  intros (ti0 & w1 & Hr & H)%bind_Return.
  apply bind_Return in H as (ti & w2 & Hl & Hw).
  assert (w1 = w) as ->.
  { revert Hr. unfold read_config. repeat case_match; congruence. }
  unfold lift in Hl. injection Hl as He <-.
  apply edit_appstream_Return in He as Hed. destruct Hed as (arch & Ha & Hed).
  exists ti0, ti, arch.
  split_and!; [done | done | by eapply write_file_stat | done |..]; apply Hed.
Qed.

(** ** C9: what can make the editors fail *)

Section editor_failures.
Import ConfigParser.
Implicit Types (ti : ConfigParser.t).

Lemma edit_baseos_Raise ti e :
  edit_baseos ti = Raise e →
  ∃ s, s ∈ ["general"; "tree"; "variant-BaseOS"]
       ∧ has_section ti s = false ∧ e = NoSectionError s.
Proof.
  unfold edit_baseos. rewrite tweak_paths_unfold.
  destruct (assign_paths ti "BaseOS") as [t7|e'|] eqn:E; simpl; [done| |done].
  intros [= <-]. apply assign_paths_Raise in E as (s & -> & Hin & Hs).
  by exists s.
Qed.

Lemma edit_appstream_Raise ti e :
  edit_appstream ti = Raise e →
  (∃ s, s ∈ ["general"; "tree"; "variant-AppStream"]
        ∧ has_section ti s = false ∧ e = NoSectionError s)
  ∨ (e = NoOptionError "arch" "general"
     ∧ has_section ti "general" = true
     ∧ value ti "general" "arch" = None
     ∧ dict_get "arch" (_defaults ti) = None).
Proof.
  unfold edit_appstream. rewrite tweak_paths_unfold.
  destruct (assign_paths ti "AppStream") as [t7|e'|] eqn:E; simpl; [| |done].
  - apply assign_paths_Return in E as (Pg & Pt & _ & S7 & D7 & V7).
    destruct (platforms_rewrite t7) as [t9|e'|] eqn:E9.
    + unfold platforms_rewrite in E9. by rewrite E9.
    + unfold platforms_rewrite in E9. rewrite E9. simpl. intros [= <-].
      apply platforms_rewrite_Raise in E9 as (-> & Hv & Hd);
        [|by rewrite S7..].
      right. split_and!; [done | done | | congruence].
      rewrite V7 in Hv. by repeat case_decide.
    + unfold platforms_rewrite in E9. by rewrite E9.
  - intros [= <-]. apply assign_paths_Raise in E as (s & -> & Hin & Hs).
    left. by exists s.
Qed.

Lemma edit_baseos_not_exit ti n : edit_baseos ti ≠ SysExit n.
Proof.
  unfold edit_baseos. rewrite tweak_paths_unfold.
  destruct (assign_paths ti "BaseOS") eqn:E; simpl; [done | done |].
  by apply assign_paths_not_exit in E.
Qed.

Lemma edit_appstream_not_exit ti n : edit_appstream ti ≠ SysExit n.
Proof.
  unfold edit_appstream. rewrite tweak_paths_unfold.
  destruct (assign_paths ti "AppStream") as [t7| |] eqn:E; simpl; [|done|].
  - destruct (get t7 "general" "arch") as [arch| |] eqn:Ea; simpl; [|done|].
    + destruct (set t7 "general" "platforms" arch) as [t8| |] eqn:E8; simpl;
        [|done|by apply set_not_exit in E8].
      destruct (set t8 "tree" "platforms" arch) as [t9| |] eqn:E9; simpl;
        [done|done|by apply set_not_exit in E9].
    + by apply get_not_exit in Ea.
  - by apply assign_paths_not_exit in E.
Qed.
End editor_failures.

(** C9.  Removing a section that is absent changes nothing and raises
    nothing.  The BaseOS edit returns exactly when the document has the
    sections [general], [tree] and [variant-BaseOS]; otherwise it raises
    [NoSectionError] for one of these three that is missing.  The AppStream
    edit returns exactly when the document has [general], [tree] and
    [variant-AppStream] and [general.arch] can be read; otherwise it raises
    [NoSectionError] for one of these three that is missing, or
    [NoOptionError] for [arch], which then is neither in [general] nor among
    the defaults.  No section that is only deleted ([media],
    [variant-AppStream], [variant-BaseOS], [checksums], [stage2],
    [images-*]) occurs in any of these conditions.  The same holds for the
    two file editors: a look-up error they raise is the error of the edit
    of the document they read. *)
Theorem editors_fail_only_on_required_lookups (ti : ConfigParser.t) :
  (∀ s, ConfigParser.has_section ti s = false →
        ConfigParser.remove_section ti s = (ti, false))
  ∧ ((∃ ti', edit_baseos ti = Return ti') ↔
       ConfigParser.has_section ti "general" = true
       ∧ ConfigParser.has_section ti "tree" = true
       ∧ ConfigParser.has_section ti "variant-BaseOS" = true)
  ∧ (∀ e, edit_baseos ti = Raise e →
       ∃ s, s ∈ ["general"; "tree"; "variant-BaseOS"]
            ∧ ConfigParser.has_section ti s = false ∧ e = NoSectionError s)
  ∧ ((∃ ti', edit_appstream ti = Return ti') ↔
       ConfigParser.has_section ti "general" = true
       ∧ ConfigParser.has_section ti "tree" = true
       ∧ ConfigParser.has_section ti "variant-AppStream" = true
       ∧ ∃ arch, ConfigParser.get ti "general" "arch" = Return arch)
  ∧ (∀ e, edit_appstream ti = Raise e →
       (∃ s, s ∈ ["general"; "tree"; "variant-AppStream"]
             ∧ ConfigParser.has_section ti s = false ∧ e = NoSectionError s)
       ∨ (e = NoOptionError "arch" "general"
          ∧ ConfigParser.has_section ti "general" = true
          ∧ ConfigParser.value ti "general" "arch" = None
          ∧ dict_get "arch" (ConfigParser._defaults ti) = None))
  ∧ (∀ ini_parse file_path w e w',
       tweak_baseos_treeinfo ini_parse file_path w = (Raise e, w') →
       (∃ c q, e = OSError c q) ∨ (∃ src, e = ParsingError src)
       ∨ ∃ ti0, read_config ini_parse file_path w = (Return ti0, w)
                ∧ edit_baseos ti0 = Raise e)
  ∧ (∀ ini_parse file_path w e w',
       tweak_appstream_treeinfo ini_parse file_path w = (Raise e, w') →
       (∃ c q, e = OSError c q) ∨ (∃ src, e = ParsingError src)
       ∨ ∃ ti0, read_config ini_parse file_path w = (Return ti0, w)
                ∧ edit_appstream ti0 = Raise e).
Proof.
  assert (Hread : ∀ ini_parse file_path w r w1,
             read_config ini_parse file_path w = (r, w1) →
             w1 = w ∧ ∀ e, r = Raise e → ∃ src, e = ParsingError src).
  { intros ini_parse file_path w r w1. unfold read_config.
    repeat case_match; intros [= <- <-]; (split; [done|]); intros e' [= <-]; eauto. }
  split_and!.
  - apply remove_section_absent.
  - split.
    + intros [ti' H]. unfold edit_baseos in H. rewrite tweak_paths_unfold in H.
      apply obind_Return in H as (t & H & _).
      apply obind_Return in H as (t7 & H7 & _).
      by apply assign_paths_Return in H7 as (? & ? & ? & _).
    + intros (Hg & Ht & Hv).
      destruct (edit_baseos ti) as [ti'|e|n] eqn:E; [by eexists| |].
      * apply edit_baseos_Raise in E as (s & Hin & Hs & _).
        repeat (apply elem_of_cons in Hin as [->|Hin]); try congruence.
        by apply elem_of_nil in Hin.
      * by apply edit_baseos_not_exit in E.
  - apply edit_baseos_Raise.
  - split.
    + intros [ti' H].
      apply edit_appstream_Return in H as Hr. destruct Hr as (arch & Ha & _).
      unfold edit_appstream in H. rewrite tweak_paths_unfold in H.
      apply obind_Return in H as (t & H & _).
      apply obind_Return in H as (t7 & H7 & _).
      apply assign_paths_Return in H7 as (? & ? & ? & _). by eauto.
    + intros (Hg & Ht & Hv & arch & Ha).
      destruct (edit_appstream ti) as [ti'|e|n] eqn:E; [by eexists| |].
      * apply edit_appstream_Raise in E as [(s & Hin & Hs & _)|(-> & _ & Hn & Hd)].
        -- repeat (apply elem_of_cons in Hin as [->|Hin]); try congruence.
           by apply elem_of_nil in Hin.
        -- exfalso. revert Ha. unfold ConfigParser.get, ConfigParser.value in *.
           change (ConfigParser.optionxform "arch") with "arch".
           destruct (dict_get "general" _); simpl in *; [|done].
           by rewrite Hn, Hd.
      * by apply edit_appstream_not_exit in E.
  - apply edit_appstream_Raise.
  - intros ini_parse file_path w e w'. unfold tweak_baseos_treeinfo.
    intros [H|(ti0 & w1 & Hr & H)]%bind_Raise.
    { apply Hread in H as [_ H]. right; left. by apply H. }
    apply Hread in Hr as Hw. destruct Hw as [-> _].
    apply bind_Raise in H as [H|(ti1 & w2 & _ & H)].
    + right; right. exists ti0. split; [done|]. unfold lift in H. congruence.
    + left. by eapply write_file_Raise.
  - intros ini_parse file_path w e w'. unfold tweak_appstream_treeinfo.
    intros [H|(ti0 & w1 & Hr & H)]%bind_Raise.
    { apply Hread in H as [_ H]. right; left. by apply H. }
    apply Hread in Hr as Hw. destruct Hw as [-> _].
    apply bind_Raise in H as [H|(ti1 & w2 & _ & H)].
    + right; right. exists ti0. split; [done|]. unfold lift in H. congruence.
    + left. by eapply write_file_Raise.
Qed.

(** ** The command runner and the mount scope *)

Lemma process_effect_fields cmd w :
  w_cwd (process_effect cmd w) = w_cwd w
  ∧ w_tmpnames (process_effect cmd w) = w_tmpnames w
  ∧ w_image (process_effect cmd w) = w_image w
  ∧ w_proc (process_effect cmd w) = w_proc w
  ∧ w_nproc (process_effect cmd w) = w_nproc w
  ∧ w_log (process_effect cmd w) = w_log w.
Proof.
  assert (Hf : ∀ mk path f w1 r w2, fs_update mk path f w1 = (r, w2) →
             w_cwd w2 = w_cwd w1 ∧ w_tmpnames w2 = w_tmpnames w1
             ∧ w_image w2 = w_image w1 ∧ w_proc w2 = w_proc w1
             ∧ w_nproc w2 = w_nproc w1 ∧ w_log w2 = w_log w1).
  { intros mk path f w1 r w2. unfold fs_update.
    repeat case_match; by intros [= <- <-]. }
  unfold process_effect.
  repeat (case_match; try done);
    match goal with H : fs_update _ _ _ _ = _ |- _ => by apply Hf in H end.
Qed.

Section runner.
Implicit Types (cmd : list string) (w : world).

Lemma popen_eq cmd w :
  popen cmd w = (Return (w_proc w (w_nproc w) cmd), after_process cmd w).
Proof.
  unfold popen, after_process, next_rc. by rewrite Nat.add_0_r.
Qed.

Lemma run_zero cmd can_fail w :
  next_rc w 0 cmd = 0 →
  run cmd can_fail w = (Return true, after_process cmd w).
Proof.
  intros Hrc. unfold run, bind. rewrite popen_eq.
  unfold next_rc in Hrc. rewrite Nat.add_0_r in Hrc.
  by rewrite bool_decide_true.
Qed.

Lemma run_tolerated cmd w :
  next_rc w 0 cmd ≠ 0 →
  run cmd true w = (Return false, after_process cmd w).
Proof.
  intros Hrc. unfold run, bind. rewrite popen_eq.
  unfold next_rc in Hrc. rewrite Nat.add_0_r in Hrc.
  by rewrite bool_decide_false.
Qed.

Lemma run_fatal cmd w :
  next_rc w 0 cmd ≠ 0 →
  run cmd false w =
  (SysExit 1,
   add_log (EvStderr (w_proc w (w_nproc w) cmd).2)
     (add_log (EvStderr ("Executed command '" +:+ str_join " " cmd
                         +:+ "' failed with following output:"))
        (after_process cmd w))).
Proof.
  intros Hrc. unfold run, bind. rewrite popen_eq.
  unfold next_rc in Hrc. rewrite Nat.add_0_r in Hrc.
  by rewrite bool_decide_false.
Qed.

Lemma after_process_failed cmd w :
  next_rc w 0 cmd ≠ 0 →
  after_process cmd w =
  add_log (EvExec cmd (next_rc w 0 cmd)) (set_nproc (S (w_nproc w)) w).
Proof. intros Hrc. unfold after_process. by rewrite bool_decide_false. Qed.
End runner.


(** ** The unmount retry loop *)

Lemma failed_attempts_sleep cmd rcs t0 :
  total_sleep (failed_attempts cmd rcs t0) =
  (length rcs * t0 + length rcs * (length rcs - 1) / 2)%nat.
Proof.
  revert t0. induction rcs as [|rc rcs IH]; intros t0; [done|].
  cbn [failed_attempts total_sleep length]. rewrite IH.
  replace (S (length rcs) - 1)%nat with (length rcs) by lia.
  assert (H : ∀ m : nat, (S m * m / 2 = m + m * (m - 1) / 2)%nat).
  { intros m. destruct m as [|m]; [done|].
    replace (S m - 1)%nat with m by lia.
    replace (S (S m) * S m)%nat with (S m * m + S m * 2)%nat by lia.
    rewrite Nat.div_add by done. lia. }
  rewrite H. lia.
Qed.

Lemma total_sleep_app l1 l2 : total_sleep (l1 ++ l2) = (total_sleep l1 + total_sleep l2)%nat.
Proof.
  induction l1 as [|[] l1 IH]; simpl; try done. rewrite IH. lia.
Qed.

(** The loop makes [k] failed attempts, each followed by its sleep, and
    stops at the first attempt that succeeds or when the timeouts are used
    up. *)
Lemma umount_retry_spec mount_point n t0 w :
  let u := ["umount"; mount_point] in
  ∃ k w',
    (k ≤ n)%nat
    ∧ (∀ i, (i < k)%nat → next_rc w i u ≠ 0)
    ∧ ((k < n)%nat → next_rc w k u = 0)
    ∧ umount_retry mount_point (seq t0 n) w = (Return tt, w')
    ∧ w_log w' = w_log w
                 ++ failed_attempts u ((λ i, next_rc w i u) <$> seq 0 k) t0
                 ++ (if decide (k < n)%nat then [EvExec u 0] else [])
    ∧ w_nproc w' = (w_nproc w + k + (if decide (k < n)%nat then 1 else 0))%nat
    ∧ w_proc w' = w_proc w
    ∧ w_cwd w' = w_cwd w
    ∧ (k = n → w_root w' = w_root w)
    ∧ ((k < n)%nat →
       ∃ wk, w_root wk = w_root w ∧ w_cwd wk = w_cwd w
             ∧ w_root w' = w_root (process_effect u wk)).
Proof.
  intros u. subst u. revert t0 w. induction n as [|n IH]; intros t0 w.
  - exists 0%nat, w. simpl. rewrite app_nil_r.
    split_and!; try done; try lia.
  - cbn [seq umount_retry].
    destruct (decide (next_rc w 0 ["umount"; mount_point] = 0)) as [Hz|Hnz].
    + exists 0%nat, (after_process ["umount"; mount_point] w).
      unfold bind. rewrite (run_zero _ _ _ Hz).
      unfold after_process. rewrite bool_decide_true by done.
      destruct (process_effect_fields ["umount"; mount_point]
                  (add_log (EvExec ["umount"; mount_point] (next_rc w 0 ["umount"; mount_point])) (set_nproc (S (w_nproc w)) w)))
        as (Hc & _ & _ & Hp & Hn & Hl).
      rewrite Hc, Hp, Hn, Hl. simpl. rewrite Hz.
      split_and!; try done; try lia.
      intros _.
      by exists (add_log (EvExec ["umount"; mount_point] 0) (set_nproc (S (w_nproc w)) w)).
    + set (w1 := add_log (EvSleep t0)
                   (add_log (EvExec ["umount"; mount_point] (next_rc w 0 ["umount"; mount_point])) (set_nproc (S (w_nproc w)) w))).
      destruct (IH (S t0) w1) as (k & w' & Hk & Hfail & Hok & Hrun & Hlog & Hn & Hp & Hc & Hr & Hs).
      assert (Hrc : ∀ i, next_rc w1 i ["umount"; mount_point] = next_rc w (S i) ["umount"; mount_point]).
      { intros i. unfold next_rc. simpl. by rewrite Nat.add_succ_r. }
      exists (S k), w'.
      unfold bind. rewrite (run_tolerated _ _ Hnz), (after_process_failed _ _ Hnz).
      unfold time_sleep, log. fold w1. rewrite Hrun.
      split_and!; try done; try lia.
      * intros [|i] Hi; [done|]. rewrite <- Hrc. apply Hfail. lia.
      * intros Hlt. rewrite <- Hrc. apply Hok. lia.
      * rewrite Hlog. unfold w1. cbn [w_log add_log set_nproc].
        replace ((λ i, next_rc w i ["umount"; mount_point]) <$> seq 0 (S k))
          with (next_rc w 0 ["umount"; mount_point]
                :: ((λ i, next_rc w1 i ["umount"; mount_point]) <$> seq 0 k)).
        2:{ cbn [seq fmap list_fmap]. f_equal.
            rewrite <- fmap_S_seq, <- list_fmap_compose.
            apply list_fmap_ext. intros ? i _. apply Hrc. }
        cbn [failed_attempts]. rewrite <- !app_assoc. cbn [app].
        destruct (decide (k < n)%nat), (decide (S k < S n)%nat); try lia; done.
      * rewrite Hn. unfold w1. cbn [w_nproc add_log set_nproc].
        destruct (decide (k < n)%nat), (decide (S k < S n)%nat); lia.
      * intros [= ->]. by rewrite Hr.
      * intros Hlt. destruct Hs as (wk & ? & ? & ?); [lia|]. by exists wk.
Qed.

(** A successful [umount] on a mount point reached through plain
    directories uncovers the directory underneath. *)
Lemma umount_releases mp pm img under w :
  resolve (w_cwd w) mp = Some pm →
  pm ≠ [] →
  plain_to (w_root w) pm = Some (Mnt img under) →
  plain_to (w_root (process_effect ["umount"; mp] w)) pm = Some under.
Proof.
  intros Hres Hne Hp. cbn [process_effect]. unfold fs_update. rewrite Hres.
  edestruct (alter_at_plain false
               (λ o, match o with
                     | Some (Mnt _ under) => Return (Some under)
                     | _ => Raise (OSError ENOENT mp)
                     end) mp pm (w_root w)) as (n' & -> & Hp' & _); [done..|].
  done.
Qed.

(** [rmdir] of an empty directory reached through plain directories
    returns and the path is free afterwards. *)
Lemma os_rmdir_empty mp pm w :
  resolve (w_cwd w) mp = Some pm →
  pm ≠ [] →
  plain_to (w_root w) pm = Some (Dir ∅) →
  ∃ w', os_rmdir mp w = (Return tt, w') ∧ stat w' mp = None.
Proof.
  intros Hres Hne Hp. unfold os_rmdir, bind, log. cbn beta iota.
  unfold fs_update. cbn [w_cwd w_root add_log]. rewrite Hres.
  edestruct (alter_at_plain false
               (λ o, match o with
                     | None => Raise (OSError ENOENT mp)
                     | Some (File _) => Raise (OSError ENOTDIR mp)
                     | Some (Mnt _ _) => Raise (OSError EBUSY mp)
                     | Some (Dir ch) =>
                         match map_to_list ch with
                         | [] => Return None
                         | _ :: _ => Raise (OSError ENOTEMPTY mp)
                         end
                     end) mp pm (w_root w)) as (n' & -> & _ & Hw); [done| done | |].
  { cbv beta iota. by rewrite map_to_list_empty. }
  eexists. split; [done|]. unfold stat. cbn [w_cwd w_root set_root add_log].
  rewrite Hres. done.
Qed.

(** ** The mount scope *)

Lemma os_rmdir_log path w rr w3 :
  os_rmdir path w = (rr, w3) →
  w_log w3 = w_log w ++ [EvFs "rmdir" [path]] ∧ ∀ n, rr ≠ SysExit n.
Proof.
  unfold os_rmdir, bind, log. cbn beta iota.
  destruct (fs_update _ _ _ _) as [[[]| |] w'] eqn:E; intros [= <- <-].
  - apply fs_update_Return in E as (? & ? & _ & _ & ->). done.
  - eapply fs_update_Raise in E as [-> _]; [done|].
    intros [[]|] e'; repeat case_match; try done; intros [= <-]; by eauto.
  - exfalso. revert E. apply fs_update_not_exit.
    intros [[]|] code'; repeat case_match; done.
Qed.

Lemma mkdtemp_from_dir candidates suffix w mp w' :
  mkdtemp_from candidates suffix w = (Return mp, w') →
  stat w' mp = Some (Dir ∅) ∧ w_log w' = w_log w ∧ w_nproc w' = w_nproc w
  ∧ w_proc w' = w_proc w.
Proof.
  revert w. induction candidates as [|name rest IH]; intros w; [done|].
  cbn [mkdtemp_from]. cbv zeta. generalize (join "/tmp" ["tmp" +:+ name +:+ suffix]).
  intros file.
  destruct (os_mkdir _ _) as [[[]|e|] w1] eqn:E.
  - intros H. assert (mp = file ∧ w' = w1) as [-> ->] by (split; congruence).
    clear H. apply fs_update_Return in E as (p & root' & Hp & Ha & ->).
    split; [|done]. unfold stat. cbn [w_cwd w_root set_root set_tmpnames] in *.
    rewrite Hp. cbn [mbind option_bind].
    apply alter_at_walk in Ha as (o & Hf & ->).
    destruct (walk (w_root w) p); try done. by injection Hf as <-.
  - assert (w1 = set_tmpnames rest w) as ->.
    { eapply fs_update_Raise in E as [-> _]; [done|].
      intros [|] e'; try done; intros [= <-]; by eauto. }
    destruct e as [[] ?| | | | | | |]; try done.
    intros H. by apply IH in H.
  - done.
Qed.

Lemma mkdtemp_dir suffix w mp w' :
  mkdtemp suffix w = (Return mp, w') →
  stat w' mp = Some (Dir ∅)
  ∧ w_log w' = w_log w ++ [EvFs "mkdtemp" [suffix]]
  ∧ w_nproc w' = w_nproc w ∧ w_proc w' = w_proc w.
Proof. unfold mkdtemp. intros H. by apply mkdtemp_from_dir in H. Qed.

Lemma mount_iso_entered {A} image (body : string → M A) w mp wa wb r w1 rr w3 :
  mkdtemp ".rhel-8-iso" w = (Return mp, wa) →
  run ["mount"; "-o"; "loop"; image; mp] false wa = (Return true, wb) →
  body mp wb = (r, w1) →
  mount_iso_finally mp w1 = (rr, w3) →
  mount_iso image body w =
  (match rr with Return _ => r | Raise e => Raise e | SysExit n => SysExit n end, w3).
Proof.
  intros Hmk Hmount Hbody Hfin. unfold mount_iso, bind.
  rewrite Hmk, Hmount. unfold try_finally. rewrite Hbody, Hfin.
  by destruct rr.
Qed.

(** C7.  Once the scope is entered, however the body leaves it ([r] may be
    a return, an exception or an exit), the teardown runs: [k <= 5] failed
    [umount] attempts, each followed by its sleep, then one successful
    attempt unless all five failed, then [rmdir] on the mount point.  If the
    first four attempts fail and the fifth succeeds, there is no sleep
    after the fifth; and when the mount point still is the image mounted
    over the empty temporary directory, reached through plain directories,
    the fifth attempt releases it, [rmdir] returns, the path is free and the
    scope ends with the body's outcome.  If all five fail, [rmdir] is still
    called, on a tree the loop has not changed, and an exception it raises
    is the outcome of the scope.  In every case the scope ends with the
    body's outcome when [rmdir] returns and with [rmdir]'s exception
    otherwise. *)
Theorem mount_scope_teardown {A} (image : string) (body : string → M A)
    (w : world) (mp : string) (wa wb : world) (r : outcome A) (w1 : world) :
  mkdtemp ".rhel-8-iso" w = (Return mp, wa) →
  run ["mount"; "-o"; "loop"; image; mp] false wa = (Return true, wb) →
  body mp wb = (r, w1) →
  let u := ["umount"; mp] in
  let rc := λ i, next_rc w1 i u in
  ∃ k w2 rr w3,
    (k ≤ 5)%nat
    ∧ umount_retry mp (seq 0 5) w1 = (Return tt, w2)
    ∧ w_log w2 = w_log w1 ++ failed_attempts u (rc <$> seq 0 k) 0
                 ++ (if decide (k < 5)%nat then [EvExec u 0] else [])
    ∧ os_rmdir mp w2 = (rr, w3)
    ∧ w_log w3 = w_log w2 ++ [EvFs "rmdir" [mp]]
    ∧ mount_iso image body w =
      (match rr with Return _ => r | Raise e => Raise e | SysExit n => SysExit n end,
       w3)
    ∧ (rc 0%nat ≠ 0 → rc 1%nat ≠ 0 → rc 2%nat ≠ 0 → rc 3%nat ≠ 0 → rc 4%nat = 0 →
       k = 4%nat
       ∧ w_log w3 = w_log w1
                    ++ [EvExec u (rc 0%nat); EvSleep 0;
                        EvExec u (rc 1%nat); EvSleep 1;
                        EvExec u (rc 2%nat); EvSleep 2;
                        EvExec u (rc 3%nat); EvSleep 3;
                        EvExec u 0;
                        EvFs "rmdir" [mp]]
       ∧ ∀ pm img,
           resolve (w_cwd w1) mp = Some pm →
           pm ≠ [] →
           plain_to (w_root w1) pm = Some (Mnt img (Dir ∅)) →
           rr = Return tt ∧ stat w3 mp = None
           ∧ mount_iso image body w = (r, w3))
    ∧ (rc 0%nat ≠ 0 → rc 1%nat ≠ 0 → rc 2%nat ≠ 0 → rc 3%nat ≠ 0 → rc 4%nat ≠ 0 →
       k = 5%nat
       ∧ w_root w2 = w_root w1
       ∧ w_log w3 = w_log w1
                    ++ [EvExec u (rc 0%nat); EvSleep 0;
                        EvExec u (rc 1%nat); EvSleep 1;
                        EvExec u (rc 2%nat); EvSleep 2;
                        EvExec u (rc 3%nat); EvSleep 3;
                        EvExec u (rc 4%nat); EvSleep 4;
                        EvFs "rmdir" [mp]]
       ∧ ∀ e, rr = Raise e → mount_iso image body w = (Raise e, w3)).
Proof.
  intros Hmk Hmount Hbody u rc.
  destruct (umount_retry_spec mp 5 0 w1)
    as (k & w2 & Hk & Hfail & Hok & Hrun & Hlog & _ & _ & Hcwd & Hroot & Hrel).
  destruct (os_rmdir mp w2) as [rr w3] eqn:Hrm.
  pose proof (os_rmdir_log _ _ _ _ Hrm) as [Hlog3 _].
  assert (Hiso : mount_iso image body w =
                 (match rr with Return _ => r | Raise e => Raise e
                           | SysExit n => SysExit n end, w3)).
  { eapply mount_iso_entered; try done.
    unfold mount_iso_finally, bind. by rewrite Hrun. }
  exists k, w2, rr, w3. split_and!; try done.
  - intros H0 H1 H2 H3 H4.
    assert (k = 4%nat) as ->.
    { destruct (decide (k < 4)%nat) as [Hlt|Hge].
      - exfalso. assert (Hz : rc k = 0) by (apply Hok; lia).
        do 4 (destruct k as [|k]; [done|]). lia.
      - destruct (decide (k = 5%nat)) as [->|]; [|lia].
        exfalso. by apply (Hfail 4%nat); [lia|]. }
    split_and!; [done | by rewrite Hlog3, Hlog, <- !app_assoc |].
    intros pm img Hres Hne Hp.
    destruct Hrel as (wk & Hrk & Hck & Hr2); [lia|].
    destruct (os_rmdir_empty mp pm w2) as (w' & Hrm' & Hfree); [congruence | done | |].
    { rewrite Hr2. apply (umount_releases mp pm img); [congruence | done | congruence]. }
    rewrite Hrm' in Hrm. injection Hrm as <- <-. done.
  - intros H0 H1 H2 H3 H4.
    assert (k = 5%nat) as ->.
    { destruct (decide (k < 5)%nat) as [Hlt|Hge]; [|lia].
      exfalso. assert (Hz : rc k = 0) by (apply Hok; lia).
      do 5 (destruct k as [|k]; [done|]). lia. }
    split_and!; [done | by apply Hroot | |].
    + rewrite Hlog3, Hlog. rewrite <- !app_assoc. done.
    + intros e ->. done.
Qed.

(** C8.  The teardown sleeps after every failed [umount]
    attempt, [i] seconds after the [i]-th (counting from 0): 0, 1, 2 and 3
    seconds between the attempts and, when the fifth attempt fails too,
    4 seconds after it, before the directory is removed.  The seconds
    slept are [k (k - 1) / 2] for [k] failed attempts, at most 10, and
    exactly 10 when all five attempts fail. *)
Theorem teardown_sleeps (mp : string) (w1 : world) :
  let u := ["umount"; mp] in
  let rc := λ i, next_rc w1 i u in
  ∃ k rr w3 new,
    (k ≤ 5)%nat
    ∧ mount_iso_finally mp w1 = (rr, w3)
    ∧ w_log w3 = w_log w1 ++ new
    ∧ new = failed_attempts u (rc <$> seq 0 k) 0
            ++ (if decide (k < 5)%nat then [EvExec u 0] else [])
            ++ [EvFs "rmdir" [mp]]
    ∧ total_sleep new = (k * (k - 1) / 2)%nat
    ∧ (total_sleep new ≤ 10)%nat
    ∧ (rc 0%nat ≠ 0 → rc 1%nat ≠ 0 → rc 2%nat ≠ 0 → rc 3%nat ≠ 0 → rc 4%nat ≠ 0 →
       new = [EvExec u (rc 0%nat); EvSleep 0;
              EvExec u (rc 1%nat); EvSleep 1;
              EvExec u (rc 2%nat); EvSleep 2;
              EvExec u (rc 3%nat); EvSleep 3;
              EvExec u (rc 4%nat); EvSleep 4;
              EvFs "rmdir" [mp]]
       ∧ total_sleep new = 10%nat).
Proof.
  intros u rc.
  destruct (umount_retry_spec mp 5 0 w1)
    as (k & w2 & Hk & Hfail & Hok & Hrun & Hlog & _).
  destruct (os_rmdir mp w2) as [rr w3] eqn:Hrm.
  pose proof (os_rmdir_log _ _ _ _ Hrm) as [Hlog3 _].
  exists k, rr, w3. eexists. split_and!; [done| | |reflexivity|..].
  - unfold mount_iso_finally, bind. by rewrite Hrun.
  - rewrite Hlog3, Hlog. by rewrite <- !app_assoc.
  - rewrite !total_sleep_app, failed_attempts_sleep, length_fmap, length_seq.
    destruct (decide (k < 5)%nat); simpl; lia.
  - rewrite !total_sleep_app, failed_attempts_sleep, length_fmap, length_seq.
    assert (k * (k - 1) / 2 ≤ 10)%nat.
    { do 6 (destruct k as [|k]; [vm_compute; lia|]). lia. }
    generalize dependent (k * (k - 1) / 2)%nat. intros q Hq.
    destruct (decide (k < 5)%nat); cbn [total_sleep]; lia.
  - intros H0 H1 H2 H3 H4.
    assert (k = 5%nat) as ->.
    { destruct (decide (k < 5)%nat) as [Hlt|Hge]; [|lia].
      exfalso. assert (Hz : rc k = 0) by (apply Hok; lia).
      do 5 (destruct k as [|k]; [done|]). lia. }
    done.
Qed.

(** C10.  When the [mount] command fails, the program exits with status 1
    and the directory [mkdtemp] has made is still there: the body of the
    scope is never entered, no [umount] and no [rmdir] is attempted. *)
Theorem mount_failure_leaves_mount_point {A} (image : string)
    (body : string → M A) (w : world) (mp : string) (wa : world) :
  let mount := ["mount"; "-o"; "loop"; image; mp] in
  mkdtemp ".rhel-8-iso" w = (Return mp, wa) →
  next_rc wa 0 mount ≠ 0 →
  ∃ w',
    mount_iso image body w = (SysExit 1, w')
    ∧ exit_status (mount_iso image body w).1 = 1
    ∧ stat w' mp = Some (Dir ∅)
    ∧ w_root w' = w_root wa
    ∧ w_log w' = w_log w
                 ++ [EvFs "mkdtemp" [".rhel-8-iso"];
                     EvExec mount (next_rc wa 0 mount);
                     EvStderr ("Executed command '" +:+ str_join " " mount
                               +:+ "' failed with following output:");
                     EvStderr (w_proc wa (w_nproc wa) mount).2]
    ∧ ∀ json_loads ini_parse sys_argv destdir,
        process_args (tail sys_argv) [] = PArgs [image; destdir] →
        stat w destdir = None →
        main json_loads ini_parse sys_argv w = (SysExit 1, w').
Proof.
  intros mount Hmk Hrc.
  pose proof (run_fatal mount wa Hrc) as Hrun.
  rewrite (after_process_failed _ _ Hrc) in Hrun.
  apply mkdtemp_dir in Hmk as Hd. destruct Hd as (Hstat & Hlog & _).
  assert (Hiso : ∀ B (b : string → M B),
            mount_iso image b w =
            (SysExit 1,
             add_log (EvStderr (w_proc wa (w_nproc wa) mount).2)
               (add_log (EvStderr ("Executed command '" +:+ str_join " " mount
                                   +:+ "' failed with following output:"))
                  (add_log (EvExec mount (next_rc wa 0 mount))
                     (set_nproc (S (w_nproc wa)) wa))))).
  { intros B b. unfold mount_iso, bind. rewrite Hmk. fold mount. by rewrite Hrun. }
  eexists. split_and!; [apply Hiso | by rewrite Hiso | done | done | |].
  - cbn [w_log add_log set_nproc]. rewrite Hlog. by rewrite <- !app_assoc.
  - intros json_loads ini_parse sys_argv destdir Hargs Hdest.
    unfold main, bind, parse_args. rewrite Hargs.
    unfold ret, os_path_exists. rewrite (os_stat_None _ _ Hdest). by rewrite Hiso.
Qed.

(** The help option is answered before the arguments are counted. *)
Lemma help_exits_zero json_loads ini_parse prog rest w :
  (main json_loads ini_parse (prog :: "--help" :: rest) w).1 = SysExit 0.
Proof. reflexivity. Qed.

(** C4.  Validation comes first.  A command line without the help option
    is turned away with the usage and an error on the error stream and
    status 2 when its positional arguments are not two, when the
    destination it names exists, and when it holds an option the program
    does not have; a command line with the help option gets the help on
    the output stream and status 0, whatever else it holds.  In all these
    cases the tree, the working directory, the temporary names and the
    process count are what they were: nothing was mounted, copied or
    edited. *)
Theorem validation_precedes_effects (json_loads : string → option json)
    (ini_parse : string → option ConfigParser.t)
    (sys_argv : list string) (w : world) :
  let prog := basename (default "" (head sys_argv)) in
  let rejected msg :=
    (SysExit 2 : outcome unit,
     add_log (EvStderr (prog +:+ ": error: " +:+ msg +:+ nl))
       (add_log (EvStderr (usage_text prog)) w)) in
  let helped :=
    (SysExit 0 : outcome unit, add_log (EvStdout (help_text prog)) w) in
  (∀ args,
     process_args (tail sys_argv) [] = PArgs args →
     length args ≠ 2%nat →
     main json_loads ini_parse sys_argv w =
     rejected "Expected 2 arguments, path to ISO file and destination directory")
  ∧ (∀ isofile destdir,
       process_args (tail sys_argv) [] = PArgs [isofile; destdir] →
       is_Some (os_stat w destdir) →
       main json_loads ini_parse sys_argv w =
       rejected ("Destination directory already exists: " +:+ destdir))
  ∧ (∀ msg,
       process_args (tail sys_argv) [] = PError msg →
       main json_loads ini_parse sys_argv w = rejected msg)
  ∧ (process_args (tail sys_argv) [] = PHelp →
     main json_loads ini_parse sys_argv w = helped)
  ∧ (∀ msg,
       let w' := (rejected msg).2 in
       exit_status (rejected msg).1 ≠ 0
       ∧ w_root w' = w_root w ∧ w_cwd w' = w_cwd w
       ∧ w_tmpnames w' = w_tmpnames w ∧ w_nproc w' = w_nproc w
       ∧ w_log w' = w_log w ++ [EvStderr (usage_text prog);
                                EvStderr (prog +:+ ": error: " +:+ msg +:+ nl)])
  ∧ (exit_status helped.1 = 0
     ∧ w_root helped.2 = w_root w ∧ w_cwd helped.2 = w_cwd w
     ∧ w_tmpnames helped.2 = w_tmpnames w ∧ w_nproc helped.2 = w_nproc w
     ∧ w_log helped.2 = w_log w ++ [EvStdout (help_text prog)]).
Proof.
  intros prog rejected helped. split_and!; try done.
  - intros args Hargs Hlen. unfold main, bind, parse_args. rewrite Hargs.
    unfold ret. destruct args as [|a [|b [|c args]]]; try done.
  - intros isofile destdir Hargs [n Hn]. unfold main, bind, parse_args.
    rewrite Hargs. unfold ret, os_path_exists. by rewrite Hn.
  - intros msg Hargs. unfold main, bind, parse_args. by rewrite Hargs.
  - intros Hargs. unfold main, bind, parse_args. by rewrite Hargs.
  - intros msg. cbn. split_and!; try done. by rewrite <- app_assoc.
Qed.

(** ** The directory copier *)

(** Below a pruned node: nothing under a name that [filt] returns,
    everything else as in the source. *)
Lemma walk_prune_filt dir n rel :
  peek (walk (prune filt dir n) rel) =
  if bool_decide ("TRANS.TBL" ∈ rel) then None else peek (walk n rel).
Proof.
  revert dir n. induction rel as [|c rel IH]; intros dir n.
  - rewrite bool_decide_false by apply not_elem_of_nil.
    by destruct n.
  - assert (Hent : entries (prune filt dir n) =
                   (λ ch, map_imap
                            (λ name c0,
                               if bool_decide (name ∈ filt dir (names ch)) then None
                               else Some (prune filt (join2 dir name) c0)) ch)
                   <$> entries n).
    { by destruct n. }
    cbn [walk]. rewrite Hent.
    destruct (entries n) as [ch|]; cbn [fmap option_fmap option_map].
    2:{ destruct (bool_decide ("TRANS.TBL" ∈ c :: rel)); reflexivity. }
    rewrite map_lookup_imap.
    destruct (ch !! c) as [n'|] eqn:Hc; cbn [mbind option_bind].
    2:{ destruct (bool_decide ("TRANS.TBL" ∈ c :: rel)); reflexivity. }
    unfold filt at 1.
    destruct (decide (c = "TRANS.TBL")) as [->|Hne].
    + rewrite bool_decide_true by set_solver.
      rewrite bool_decide_true by set_solver. done.
    + rewrite (bool_decide_false (c ∈ _)) by set_solver.
      rewrite IH. 
      destruct (decide ("TRANS.TBL" ∈ rel)).
      * rewrite !bool_decide_true by set_solver. done.
      * rewrite !bool_decide_false by set_solver. done.
Qed.

Lemma shutil_copytree_Return src dst ignore w w' :
  shutil_copytree src dst ignore w = (Return tt, w') →
  ∃ s d n root',
    resolve (w_cwd w) src = Some s
    ∧ resolve (w_cwd w) dst = Some d
    ∧ walk (w_root w) s = Some n ∧ is_dir n = true
    ∧ walk (w_root w) d = None
    ∧ alter_at true
        (λ o, match o with
              | None => Return (Some (prune ignore src n))
              | Some _ => Raise (OSError EEXIST dst)
              end) dst d (w_root w) = Return root'
    ∧ walk root' d = Some (prune ignore src n)
    ∧ w' = set_root root' (add_log (EvFs "copytree" [src; dst]) w).
Proof.
  unfold shutil_copytree. intros ([] & w1 & [= <-] & H)%bind_Return.
  apply bind_Return in H as (n & w2 & Hn & H).
  assert (w2 = add_log (EvFs "copytree" [src; dst]) w ∧
          stat w src = Some n ∧ is_dir n = true) as (-> & Hs & Hd).
  { revert Hn. unfold stat. cbn [w_cwd w_root add_log].
    destruct (resolve (w_cwd w) src ≫= walk (w_root w)) as [[]|]; try done;
      by intros [= <- <-]. }
  apply fs_update_Return in H as (d & root' & Hd' & Ha & ->).
  unfold stat in Hs. destruct (resolve (w_cwd w) src) as [s|] eqn:Hsrc; [|done].
  cbn [w_cwd w_root add_log] in *.
  apply alter_at_walk in Ha as Hw. destruct Hw as (o & Hf & Hw).
  destruct (walk (w_root w) d) eqn:Hwd; [done|]. injection Hf as <-.
  by exists s, d, n, root'.
Qed.

(** C5.  After [copytree src dst] the destination holds, at
    every relative path, what the source holds there, except that nothing
    arrives at a path with a component [TRANS.TBL]: an entry of that name
    is left out whether it is a file or a directory, and with a directory
    all that it holds. *)
Theorem copytree_skips_trans_tbl (src dst : string) (w w' : world) :
  copytree src dst w = (Return tt, w') →
  ∃ s d,
    resolve (w_cwd w) src = Some s
    ∧ resolve (w_cwd w) dst = Some d
    ∧ walk (w_root w) d = None
    ∧ ∀ rel,
        peek (walk (w_root w') (d ++ rel)) =
        if bool_decide ("TRANS.TBL" ∈ rel) then None
        else peek (walk (w_root w) (s ++ rel)).
Proof.
  unfold copytree.
  intros (s & d & n & root' & Hs & Hd & Hn & _ & Hfresh & _ & Hw & ->)%shutil_copytree_Return.
  exists s, d. split_and!; try done.
  intros rel. cbn [w_root set_root]. rewrite !walk_app, Hw, Hn.
  cbn [mbind option_bind]. apply walk_prune_filt.
Qed.

(** ** What the file operations do to the world *)

Lemma fs_update_altered mk path f w w' p :
  fs_update mk path f w = (Return tt, w') →
  resolve (w_cwd w) path = Some p →
  ∃ o, f (walk (w_root w) p) = Return o
       ∧ altered w w' p o
       ∧ (refuses_dirs f → clear_of_mounts w p).
Proof.
  intros (p' & root' & Hp' & Ha & ->)%fs_update_Return Hp.
  assert (p' = p) as -> by congruence.
  apply alter_at_walk in Ha as Hw. destruct Hw as (o & Hf & Hw).
  exists o. split; [done|]. split; [|].
  - split_and!; cbn [w_cwd w_root set_root].
    + done.
    + intros r. by eapply alter_at_below.
    + intros q Hq. by eapply alter_at_frame.
    + intros q r Hq Hr. by eapply alter_at_way_after.
  - intros Hf' q img u Hq. by eapply alter_at_diverges_from_mount.
Qed.

(** Whatever becomes of an update, it touches nothing beside its path. *)
Lemma fs_update_frame mk path f w r w' p :
  fs_update mk path f w = (r, w') →
  resolve (w_cwd w) path = Some p →
  w_cwd w' = w_cwd w
  ∧ ∀ q, diverge p q → walk (w_root w') q = walk (w_root w) q.
Proof.
  unfold fs_update. intros H Hp. rewrite Hp in H.
  destruct (alter_at mk f path p (w_root w)) as [root'| |] eqn:Ha;
    injection H as <- <-; (split; [done|]); try done.
  intros q Hq. cbn [w_root set_root]. by eapply alter_at_frame.
Qed.

Lemma add_log_walk e w q : walk (w_root (add_log e w)) q = walk (w_root w) q.
Proof. done. Qed.

Lemma altered_log e w w' p o : altered (add_log e w) w' p o → altered w w' p o.
Proof. done. Qed.

Lemma put_file_altered path data w w' p :
  put_file path data w = (Return tt, w') →
  resolve (w_cwd w) path = Some p →
  altered w w' p (Some (File data)) ∧ clear_of_mounts w p.
Proof.
  intros H Hp. unfold put_file in H.
  eapply fs_update_altered in H as (o & Hf & Halt & Hm); [|done].
  assert (o = Some (File data)) as ->.
  { destruct (walk (w_root w) p) as [[]|]; try done; by injection Hf as <-. }
  split; [done|]. apply Hm. intros x Hx. destruct x; try done; by eexists.
Qed.


(** [shutil.copy]: the file read, and the file written in its place. *)
Lemma shutil_copy_Return src dst w w' :
  shutil_copy src dst w = (Return tt, w') →
  ∃ data,
    stat w src = Some (File data)
    ∧ put_file (if match stat w dst with Some n => is_dir n | None => false end
                then join dst [basename src] else dst) data
        (add_log (EvFs "copy" [src; dst]) w) = (Return tt, w').
Proof.
  unfold shutil_copy. intros ([] & w1 & [= <-] & H)%bind_Return.
  apply bind_Return in H as (d & w2 & [= <- <-] & H).
  apply bind_Return in H as (same & w3 & [= <- <-] & H).
  match type of H with (if ?b then _ else _) _ = _ => destruct b end; [done|].
  apply bind_Return in H as (data & w4 & Hr & H).
  assert (w4 = add_log (EvFs "copy" [src; dst]) w
          ∧ stat w src = Some (File data)) as [-> Hs].
  { revert Hr. unfold read_file.
    change (stat (add_log (EvFs "copy" [src; dst]) w) src) with (stat w src).
    destruct (stat w src) as [[]|]; try done; by intros [= <- <-]. }
  exists data. split; [done|]. exact H.
Qed.

Lemma copytree_altered src dst ignore w w' s d :
  shutil_copytree src dst ignore w = (Return tt, w') →
  resolve (w_cwd w) src = Some s →
  resolve (w_cwd w) dst = Some d →
  ∃ n, walk (w_root w) s = Some n
       ∧ walk (w_root w) d = None
       ∧ altered w w' d (Some (prune ignore src n))
       ∧ clear_of_mounts w d.
Proof.
  intros (s' & d' & n & root' & Hs' & Hd' & Hn & _ & Hfresh & Ha & Hw & ->)%shutil_copytree_Return
    Hs Hd.
  assert (s' = s) as -> by congruence. assert (d' = d) as -> by congruence.
  exists n. split_and!; try done.
  - split_and!; cbn [w_cwd w_root set_root add_log].
    + done.
    + intros r. eapply alter_at_below; [done|]. by rewrite Hfresh.
    + intros q Hq. by eapply alter_at_frame.
    + intros q r Hq Hr. by eapply alter_at_way_after.
  - intros q img u Hq. eapply alter_at_diverges_from_mount; [done| |done].
    intros x _. by eexists.
Qed.

(** A process leaves alone what diverges from the mount point it is
    given. *)
Lemma process_effect_frame cmd w :
  w_root (process_effect cmd w) = w_root w
  ∨ ∃ mount_point p,
      last cmd = Some mount_point
      ∧ resolve (w_cwd w) mount_point = Some p
      ∧ ∀ q, diverge p q →
             walk (w_root (process_effect cmd w)) q = walk (w_root w) q.
Proof.
  unfold process_effect.
  repeat (case_match; try (by left)); subst;
    match goal with
    | H : fs_update _ ?mp _ _ = _ |- _ =>
        right; exists mp;
        destruct (resolve (w_cwd w) mp) as [p|] eqn:Hp;
        [ exists p; split; [done|]; split; [done|];
          by eapply fs_update_frame in H as [_ H]
        | exfalso; revert H; unfold fs_update; by rewrite Hp ]
    end.
Qed.

(** ** Steps of the copy phase *)

Lemma stat_resolve w path p :
  resolve (w_cwd w) path = Some p → stat w path = walk (w_root w) p.
Proof. intros H. unfold stat. by rewrite H. Qed.

Lemma resolve_rbase cwd d p :
  resolve cwd d = Some p → d ≠ "" ∧ rbase cwd d = p.
Proof.
  unfold resolve, rbase. case_bool_decide; [done|]. by intros [= <-].
Qed.

Lemma walk_mount_child n pm img u x r :
  walk n pm = Some (Mnt img u) →
  walk n (pm ++ x :: r) = img !! x ≫= λ m, walk m r.
Proof.
  intros H. rewrite walk_app, H. cbn [mbind option_bind walk entries].
  by destruct (img !! x).
Qed.


Lemma diverge_sibling V x y r s :
  x ≠ y → diverge (V ++ x :: r) (V ++ y :: s).
Proof.
  intros Hne. apply diverge_common.
  split; intros [k Hk]; simpl in Hk; congruence.
Qed.

Lemma diverge_below V q r : diverge V q → diverge (V ++ r) q.
Proof.
  intros H. rewrite <- (app_nil_r q). by apply diverge_ext.
Qed.


Lemma altered_frame w w' p o q :
  altered w w' p o → diverge p q → walk (w_root w') q = walk (w_root w) q.
Proof. intros (_ & _ & H & _). apply H. Qed.

Lemma altered_cwd w w' p o : altered w w' p o → w_cwd w' = w_cwd w.
Proof. by intros (H & _). Qed.

Lemma altered_parent w w' V x o :
  altered w w' (V ++ [x]) o → ∃ ch, walk (w_root w') V = Some (Dir ch).
Proof. intros (_ & _ & _ & H). by eapply H. Qed.



(** A file of the image is copied into a directory, under its own name. *)
Lemma copy_into_directory src dst w w' ps pd pd' data n :
  shutil_copy src dst w = (Return tt, w') →
  resolve (w_cwd w) src = Some ps →
  walk (w_root w) ps = Some (File data) →
  resolve (w_cwd w) dst = Some pd →
  walk (w_root w) pd = Some n → is_dir n = true →
  resolve (w_cwd w) (join dst [basename src]) = Some pd' →
  altered w w' pd' (Some (File data)) ∧ clear_of_mounts w pd'.
Proof.
  intros (data' & Hs & Hput)%shutil_copy_Return Hps Hdata Hpd Hn Hdir Hpd'.
  rewrite (stat_resolve _ _ _ Hps), Hdata in Hs. injection Hs as <-.
  rewrite (stat_resolve _ _ _ Hpd), Hn, Hdir in Hput.
  by apply put_file_altered with (p := pd') in Hput.
Qed.

(** ** The copy of one variant *)


Lemma for_each_one {A} (x : A) (body : A → M unit) w w' :
  for_each [x] body w = (Return tt, w') → body x w = (Return tt, w').
Proof.
  cbn [for_each]. by intros ([] & w1 & H1 & [= <-])%bind_Return.
Qed.

Section variant.
Variables (mp destdir : string) (pm : list string).
Variables (img : gmap string node) (u : node).
Variables (di ti mt rd : string).

Hypothesis Hdi : img !! ".discinfo" = Some (File di).
Hypothesis Hti : img !! ".treeinfo" = Some (File ti).
Hypothesis Hmt : img !! "extra_files.json" = Some (File mt).
Hypothesis Hrd : img !! "README" = Some (File rd).


End variant.

(** ** Mounting and releasing *)

Lemma run_frame cmd can_fail w r w' :
  run cmd can_fail w = (r, w') →
  w_cwd w' = w_cwd w
  ∧ (w_root w' = w_root w
     ∨ ∃ mount_point p,
         last cmd = Some mount_point
         ∧ resolve (w_cwd w) mount_point = Some p
         ∧ ∀ q, diverge p q → walk (w_root w') q = walk (w_root w) q).
Proof.
  unfold run, bind. rewrite popen_eq. cbn beta iota.
  set (w0 := add_log (EvExec cmd (next_rc w 0 cmd)) (set_nproc (S (w_nproc w)) w)).
  assert (Hafter : w_cwd (after_process cmd w) = w_cwd w
                   ∧ (w_root (after_process cmd w) = w_root w
                      ∨ ∃ mount_point p,
                          last cmd = Some mount_point
                          ∧ resolve (w_cwd w) mount_point = Some p
                          ∧ ∀ q, diverge p q →
                                 walk (w_root (after_process cmd w)) q
                                 = walk (w_root w) q)).
  { unfold after_process. fold w0.
    destruct (bool_decide (next_rc w 0 cmd = 0)); [|by split; [|left]].
    destruct (process_effect_fields cmd w0) as (Hc & _). split; [done|].
    destruct (process_effect_frame cmd w0) as [Hsame|Hframe]; [by left | by right]. }
  case_bool_decide; [by intros [= <- <-]|].
  destruct can_fail; [by intros [= <- <-]|].
  unfold print_stderr, log, sys_exit. cbn beta iota. by intros [= <- <-].
Qed.

Lemma umount_retry_frame mount_point timeouts w r w' pm :
  umount_retry mount_point timeouts w = (r, w') →
  resolve (w_cwd w) mount_point = Some pm →
  w_cwd w' = w_cwd w
  ∧ ∀ q, diverge pm q → walk (w_root w') q = walk (w_root w) q.
Proof.
  revert w. induction timeouts as [|t ts IH]; intros w H Hpm.
  - by injection H as <- <-.
  - cbn [umount_retry] in H. unfold bind in H.
    destruct (run ["umount"; mount_point] true w) as [[ok| |] w1] eqn:Hrun.
    + apply run_frame in Hrun as [Hc Hr].
      assert (Hw1 : ∀ q, diverge pm q → walk (w_root w1) q = walk (w_root w) q).
      { destruct Hr as [->|(mp' & p & Hl & Hp & Hf)]; [done|].
        injection Hl as <-. assert (p = pm) as -> by congruence. done. }
      destruct ok; [by injection H as <- <-|].
      unfold time_sleep, log in H. cbn beta iota in H.
      apply IH in H as [Hc' Hf']; [|cbn [w_cwd add_log]; by rewrite Hc].
      cbn [w_cwd w_root add_log] in Hc', Hf'.
      split; [by rewrite Hc'|]. intros q Hq. rewrite Hf' by done. by apply Hw1.
    + exfalso. revert Hrun. unfold run, bind. rewrite popen_eq.
      cbn beta iota. by case_bool_decide.
    + exfalso. revert Hrun. unfold run, bind. rewrite popen_eq.
      cbn beta iota. by case_bool_decide.
Qed.

Lemma mount_iso_finally_frame mount_point w r w' pm :
  mount_iso_finally mount_point w = (r, w') →
  resolve (w_cwd w) mount_point = Some pm →
  w_cwd w' = w_cwd w
  ∧ ∀ q, diverge pm q → walk (w_root w') q = walk (w_root w) q.
Proof.
  unfold mount_iso_finally, bind. intros H Hpm.
  destruct (umount_retry_spec mount_point 5 0 w) as (k & w2 & _ & _ & _ & Hrun & _).
  rewrite Hrun in H.
  apply umount_retry_frame with (pm := pm) in Hrun as [Hc Hf]; [|done].
  unfold os_rmdir, bind, log in H. cbn beta iota in H.
  eapply fs_update_frame in H as [Hc' Hf']; [|cbn [w_cwd add_log]; by rewrite Hc].
  split; [by rewrite Hc'|]. intros q Hq. rewrite Hf' by done. by apply Hf.
Qed.



(** ** The copy phase on the fixture image *)



Section fixture.
Variable json_loads : string → option json.
Variables (mp destdir : string) (pm : list string).
Variables (a b iso : gmap string node) (u : node).
Variables (ti di mt rd cfg : string).

Local Abbreviation img := (fixture_image a b ti di mt rd iso).

Hypothesis Hjson : json_loads mt = Some sample_manifest.
Hypothesis Ha1 : a !! "discinfo" = None.
Hypothesis Ha2 : a !! "treeinfo" = None.
Hypothesis Ha3 : a !! "isolinux" = None.
Hypothesis Hb1 : b !! "discinfo" = None.
Hypothesis Hb2 : b !! "treeinfo" = None.
Hypothesis Hcfg : iso !! "isolinux.cfg" = Some (File cfg).



End fixture.

(** ** C1: a complete run on the fixture image *)

Lemma mount_iso_Return {A} image (body : string → M A) w x w' :
  mount_iso image body w = (Return x, w') →
  ∃ mp wa wb w1,
    mkdtemp ".rhel-8-iso" w = (Return mp, wa)
    ∧ run ["mount"; "-o"; "loop"; image; mp] false wa = (Return true, wb)
    ∧ body mp wb = (Return x, w1)
    ∧ mount_iso_finally mp w1 = (Return tt, w').
Proof.
  unfold mount_iso. intros (mp & wa & Hmk & H)%bind_Return.
  apply bind_Return in H as (ok & wb & Hrun & H).
  assert (ok = true) as ->.
  { revert Hrun. unfold run, bind. rewrite popen_eq. cbn beta iota.
    case_bool_decide; [by intros [= <-]|done]. }
  unfold try_finally in H.
  destruct (body mp wb) as [r w1] eqn:Hbody.
  destruct (mount_iso_finally mp w1) as [[[]| |] w2] eqn:Hfin; try done.
  injection H as -> <-. by exists mp, wa, wb, w1.
Qed.

Lemma chmod_effect destdir w :
  process_effect ["chmod"; "u+w"; "-R"; destdir] w = w.
Proof. reflexivity. Qed.

Lemma run_chmod_root destdir w r w' :
  run ["chmod"; "u+w"; "-R"; destdir] false w = (r, w') →
  w_root w' = w_root w ∧ w_cwd w' = w_cwd w.
Proof.
  unfold run, bind. rewrite popen_eq. unfold after_process.
  rewrite chmod_effect. cbn beta iota.
  unfold ret, print_stderr, log, sys_exit.
  repeat case_bool_decide; cbn beta iota; by intros [= <- <-].
Qed.





(** ** Alterations that succeed: what the tree is afterwards *)

(** An alteration that has returned went through plain directories. *)
Lemma alter_at_plain_after mk f path p n n' :
  alter_at mk f path p n = Return n' →
  ∃ o, f (walk n p) = Return o
       ∧ (p = [] → o = Some n')
       ∧ (p ≠ [] → plain_to n' p = o).
Proof.
  revert n n'. induction p as [|c p IH]; intros n n'.
  - cbn [alter_at walk]. intros (o & -> & Ho)%obind_Return.
    destruct o as [x|]; [|done]. apply Return_inj in Ho as ->. by exists (Some n').
  - destruct n as [|ch|]; try done.
    destruct p as [|c2 p2].
    + cbn [alter_at walk entries]. intros (o & Hf & <-%Return_inj)%obind_Return.
      exists o. split_and!; [|done|].
      * by destruct (ch !! c).
      * intros _. cbn [plain_to]. rewrite lookup_partial_alter_eq. by destruct o.
    + rewrite alter_at_deeper. cbn [walk entries].
      destruct (ch !! c) as [n1|] eqn:Hc.
      * intros (n1' & Ha & <-%Return_inj)%obind_Return.
        destruct (IH _ _ Ha) as (o & Hf & _ & Hp).
        exists o. split_and!; [done..|]. intros _.
        cbn [plain_to]. rewrite lookup_insert_eq. by apply Hp.
      * destruct mk; [|done].
        intros (n1' & Ha & <-%Return_inj)%obind_Return.
        destruct (IH _ _ Ha) as (o & Hf & _ & Hp).
        exists o. split_and!; [|done|].
        -- by rewrite walk_empty_dir in Hf.
        -- intros _. cbn [plain_to]. rewrite lookup_insert_eq. by apply Hp.
Qed.

(** Where something is reached through plain directories and the
    alteration puts something there, the alteration returns. *)
Lemma alter_at_plain_some mk f path p n x y :
  plain_to n p = Some x →
  f (Some x) = Return (Some y) →
  ∃ n', alter_at mk f path p n = Return n' ∧ plain_to n' p = Some y.
Proof.
  intros Hp Hf. destruct p as [|c p].
  - cbn [plain_to] in Hp. injection Hp as ->. exists y. cbn [alter_at].
    by rewrite Hf.
  - destruct (alter_at_plain mk f path (c :: p) n x (Some y)) as (n' & ? & ? & _);
      [done..|]. by exists n'.
Qed.

(** An alteration that puts back what it finds changes nothing. *)
Lemma alter_at_id mk f path p n n' :
  alter_at mk f path p n = Return n' →
  mk = false ∨ is_Some (walk n p) →
  f (walk n p) = Return (walk n p) →
  n' = n.
Proof.
  revert n n'. induction p as [|c p IH]; intros n n'.
  - cbn [alter_at walk]. intros Ha _ Hf. rewrite Hf in Ha. cbn in Ha. congruence.
  - destruct n as [|ch|]; try done.
    destruct p as [|c2 p2].
    + cbn [alter_at walk entries]. intros (o & Hf & <-%Return_inj)%obind_Return _ Hf'.
      assert (f (ch !! c) = Return (ch !! c)) as Hff.
      { by destruct (ch !! c). }
      rewrite Hff in Hf. apply Return_inj in Hf as <-.
      f_equal. apply partial_alter_self.
    + rewrite alter_at_deeper. cbn [walk entries].
      destruct (ch !! c) as [n1|] eqn:Hc.
      * intros (n1' & Ha & <-%Return_inj)%obind_Return Hs Hf.
        rewrite (IH _ _ Ha Hs Hf). f_equal. by apply insert_id.
      * destruct mk; [|done]. by intros _ [|[]].
Qed.

(** Two alterations of the same place, one after the other, are one. *)
Lemma alter_at_twice mk f g path path' p n n1 n2 :
  alter_at mk f path p n = Return n1 →
  alter_at mk g path' p n1 = Return n2 →
  alter_at mk (λ o, obind (f o) g) path p n = Return n2.
Proof.
  revert n n1 n2. induction p as [|c p IH]; intros n n1 n2.
  - cbn [alter_at]. intros (o & Hf & Ho)%obind_Return.
    destruct o as [x|]; [|done]. apply Return_inj in Ho as ->.
    intros Hg. rewrite Hf. cbn [obind] in *.
    by destruct (g (Some n1)) as [[]| |].
  - destruct n as [|ch|]; try done.
    destruct p as [|c2 p2].
    + cbn [alter_at]. intros (o & Hf & <-%Return_inj)%obind_Return.
      rewrite lookup_partial_alter_eq.
      intros (o2 & Hg & <-%Return_inj)%obind_Return.
      rewrite Hf. cbn [obind]. rewrite Hg. cbn [obind]. f_equal. f_equal.
      by rewrite partial_alter_partial_alter_eq.
    + rewrite !alter_at_deeper.
      destruct (ch !! c) as [x|] eqn:Hc.
      * intros (x1 & Ha & <-%Return_inj)%obind_Return.
        rewrite alter_at_deeper, lookup_insert_eq.
        intros (x2 & Hb & <-%Return_inj)%obind_Return.
        rewrite (IH _ _ _ Ha Hb). cbn [obind]. by rewrite insert_insert_eq.
      * destruct mk; [|done].
        intros (x1 & Ha & <-%Return_inj)%obind_Return.
        rewrite alter_at_deeper, lookup_insert_eq.
        intros (x2 & Hb & <-%Return_inj)%obind_Return.
        rewrite (IH _ _ _ Ha Hb). cbn [obind]. by rewrite insert_insert_eq.
Qed.

Lemma altered_in_place_trans p n n1 n2 :
  altered_in_place p n n1 → altered_in_place p n1 n2 → altered_in_place p n n2.
Proof.
  intros (f & path & Hf) (g & path' & Hg).
  exists (λ o, obind (f o) g), path. by eapply alter_at_twice.
Qed.

(** Alterations in place that leave at [p] what was there leave the tree
    as it was. *)
Lemma altered_in_place_back p n n' :
  altered_in_place p n n' → walk n' p = walk n p → n' = n.
Proof.
  intros (f & path & Hf) Hw.
  destruct (alter_at_walk _ _ _ _ _ _ Hf) as (o & Ho & Hw').
  eapply alter_at_id; [done | by left |]. congruence.
Qed.

Lemma altered_in_place_frame p n n' q :
  altered_in_place p n n' → diverge p q → walk n' q = walk n q.
Proof. intros (f & path & Hf). by eapply alter_at_frame. Qed.

(** ** The editors: what they keep, and editing twice *)

Lemma filter_all {A} (P : A → Prop) `{!∀ x, Decision (P x)} (l : list A) :
  (∀ x, x ∈ l → P x) → filter P l = l.
Proof.
  induction l as [|x l IH]; intros Hall; [done|].
  rewrite filter_cons_True by (apply Hall; set_solver).
  f_equal. apply IH. intros y ?. apply Hall. set_solver.
Qed.

Lemma filter_ext_in {A} (P Q : A → Prop) `{!∀ x, Decision (P x)}
    `{!∀ x, Decision (Q x)} (l : list A) :
  (∀ x, x ∈ l → (P x ↔ Q x)) → filter P l = filter Q l.
Proof.
  induction l as [|x l IH]; intros Hall; [done|].
  rewrite !filter_cons.
  assert (P x ↔ Q x) as Hx by (apply Hall; set_solver).
  rewrite IH by (intros y ?; apply Hall; set_solver).
  destruct (decide (P x)), (decide (Q x)); tauto.
Qed.

Section dict_more.
Context {V : Type}.
Implicit Types d : list (string * V).

Lemma dict_set_same k v d : dict_get k d = Some v → dict_set k v d = d.
Proof.
  induction d as [|[k' v'] d IH]; [done|]. cbn [dict_get dict_set].
  case_decide; [by intros [= ->]; subst|]. intros Hk. by rewrite IH.
Qed.

Lemma dict_keys_del k d :
  dict_keys (dict_del k d) = filter (λ k', k' ≠ k) (dict_keys d).
Proof.
  unfold dict_keys. induction d as [|[k' v'] d IH]; [done|].
  cbn [dict_del fmap list_fmap fst]. rewrite filter_cons. cbn [fst].
  case_decide; subst.
  - by rewrite decide_False by naive_solver.
  - rewrite decide_True by done. cbn [fmap list_fmap fst]. by rewrite IH.
Qed.
End dict_more.

Section editor_frame.
Import ConfigParser.

Lemma set_same ti s o v :
  s ≠ "" → s ≠ DEFAULTSECT →
  value ti s (lower o) = Some v → set ti s o v = Return ti.
Proof.
  intros ? ?. unfold set, value, optionxform.
  rewrite bool_decide_false by naive_solver.
  destruct (dict_get s (_sections ti)) as [sd|] eqn:Hs; [|done].
  cbn [mbind option_bind]. intros Hk.
  rewrite (dict_set_same _ _ _ Hk), (dict_set_same _ _ _ Hs). by destruct ti.
Qed.

Lemma set_sections ti s o v ti' :
  set ti s o v = Return ti' →
  sections ti' = sections ti
  ∧ ∀ s', s' ≠ s → dict_get s' (_sections ti') = dict_get s' (_sections ti).
Proof.
  unfold set. case_bool_decide.
  - by intros <-%Return_inj.
  - destruct (dict_get s (_sections ti)) as [sd|] eqn:Hs; [|done].
    intros <-%Return_inj. cbn [_sections sections]. split.
    + by apply dict_keys_set.
    + intros s' Hne. rewrite dict_get_set. by rewrite decide_False.
Qed.

Lemma remove_section_sections ti s :
  _sections (remove_section ti s).1 = dict_del s (_sections ti).
Proof.
  unfold remove_section, has_section, dict_has.
  destruct (dict_get s (_sections ti)) eqn:Hs; [done|].
  cbn [fst]. by rewrite dict_del_absent.
Qed.

Lemma remove_section_names ti s :
  sections (remove_section ti s).1 = filter (λ s', s' ≠ s) (sections ti).
Proof. unfold sections. by rewrite remove_section_sections, dict_keys_del. Qed.

Lemma remove_section_other ti s s' :
  s' ≠ s →
  dict_get s' (_sections (remove_section ti s).1) = dict_get s' (_sections ti).
Proof.
  intros. rewrite remove_section_sections, dict_get_del. by rewrite decide_False.
Qed.

Lemma remove_sections_names l ti :
  sections (fold_left (λ ti s, (remove_section ti s).1) l ti)
  = filter (λ s', s' ∉ l) (sections ti).
Proof.
  revert ti. induction l as [|s l IH]; intros ti; cbn [fold_left].
  - symmetry. apply filter_all. intros ? _. set_solver.
  - rewrite IH, remove_section_names, list_filter_filter.
    apply list_filter_iff. intros s'. set_solver.
Qed.

Lemma remove_sections_other l ti s' :
  s' ∉ l →
  dict_get s' (_sections (fold_left (λ ti s, (remove_section ti s).1) l ti))
  = dict_get s' (_sections ti).
Proof.
  revert ti. induction l as [|s l IH]; intros ti Hn; cbn [fold_left]; [done|].
  rewrite IH by set_solver. apply remove_section_other. set_solver.
Qed.

Lemma remove_sections_defaults l ti :
  _defaults (fold_left (λ ti s, (remove_section ti s).1) l ti) = _defaults ti.
Proof.
  revert ti. induction l as [|s l IH]; intros ti; cbn [fold_left]; [done|].
  by rewrite IH, remove_section_defaults.
Qed.

Lemma remove_sections_absent l ti :
  (∀ s, s ∈ l → has_section ti s = false) →
  fold_left (λ ti s, (remove_section ti s).1) l ti = ti.
Proof.
  induction l as [|s l IH]; intros H; cbn [fold_left]; [done|].
  rewrite remove_section_absent by (apply H; set_solver).
  apply IH. intros s' ?. apply H. set_solver.
Qed.

Lemma assign_paths_sections ti variant ti' :
  assign_paths ti variant = Return ti' →
  sections ti' = sections ti
  ∧ ∀ s, s ∉ ["general"; "tree"; "variant-" +:+ variant] →
         dict_get s (_sections ti') = dict_get s (_sections ti).
Proof.
  unfold assign_paths. intros H.
  repeat (apply obind_Return in H as (? & ?%set_sections & H)).
  apply set_sections in H.
  split.
  - intuition congruence.
  - intros s Hs.
    assert (s ≠ "general" ∧ s ≠ "tree" ∧ s ≠ "variant-" +:+ variant) as (? & ? & ?)
      by set_solver.
    repeat match goal with
           | H : _ ∧ _ |- _ => destruct H as [_ H]
           end.
    repeat match goal with
           | H : ∀ s', s' ≠ _ → _ = _ |- _ => rewrite H by done; clear H
           end.
    done.
Qed.

Lemma platforms_rewrite_sections ti ti' :
  platforms_rewrite ti = Return ti' →
  sections ti' = sections ti
  ∧ ∀ s, s ∉ ["general"; "tree"] →
         dict_get s (_sections ti') = dict_get s (_sections ti).
Proof.
  unfold platforms_rewrite. intros H.
  apply obind_Return in H as (arch & _ & H).
  apply obind_Return in H as (t1 & [E1 F1]%set_sections & [E2 F2]%set_sections).
  split; [congruence|]. intros s Hs.
  rewrite F2, F1; set_solver.
Qed.

Lemma edit_baseos_unfold ti ti' :
  edit_baseos ti = Return ti' →
  ∃ t, assign_paths ti "BaseOS" = Return t
       ∧ ti' = fold_left (λ ti s, (remove_section ti s).1)
                 ["media"; "variant-AppStream"] t.
Proof.
  unfold edit_baseos. rewrite tweak_paths_unfold. intros H.
  apply obind_Return in H as (t & H & <-%Return_inj).
  apply obind_Return in H as (t7 & H7 & H).
  apply obind_Return in H as (t8 & <-%Return_inj & <-%Return_inj).
  by exists t7.
Qed.

Lemma edit_appstream_unfold ti ti' :
  edit_appstream ti = Return ti' →
  ∃ t7 t9, assign_paths ti "AppStream" = Return t7
       ∧ platforms_rewrite t7 = Return t9
       ∧ ti' = fold_left (λ ti s, (remove_section ti s).1)
                 ("media" :: ["variant-BaseOS"; "checksums"; "stage2"]
                  ++ filter (λ s, startswith s "images-")
                       (sections (remove_section t9 "media").1)) t9.
Proof.
  unfold edit_appstream. rewrite tweak_paths_unfold. intros H.
  apply obind_Return in H as (t & H & <-%Return_inj).
  apply obind_Return in H as (t7 & H7 & H).
  apply obind_Return in H as (t9 & H9 & <-%Return_inj).
  by exists t7, t9.
Qed.

End editor_frame.

(** ** The editors leave alone what they do not name *)

(** X1.  The BaseOS edit keeps the defaults, the order of the sections that
    stay, every section it neither removes nor assigns to (with its
    options in their order), and in the three sections it assigns to every
    option that is not assigned. *)
Theorem edit_baseos_keeps_the_rest (ti ti' : ConfigParser.t) :
  edit_baseos ti = Return ti' →
  ConfigParser._defaults ti' = ConfigParser._defaults ti
  ∧ ConfigParser.sections ti'
    = filter (λ s, s ∉ ["media"; "variant-AppStream"]) (ConfigParser.sections ti)
  ∧ (∀ s, s ∉ ["media"; "variant-AppStream"; "general"; "tree"; "variant-BaseOS"] →
          dict_get s (ConfigParser._sections ti')
          = dict_get s (ConfigParser._sections ti))
  ∧ (∀ k, k ∉ ["variants"; "variant"; "repository"; "packagedir"] →
          ConfigParser.value ti' "general" k = ConfigParser.value ti "general" k)
  ∧ (∀ k, k ≠ "variants" →
          ConfigParser.value ti' "tree" k = ConfigParser.value ti "tree" k)
  ∧ (∀ k, k ∉ ["packages"; "repository"] →
          ConfigParser.value ti' "variant-BaseOS" k
          = ConfigParser.value ti "variant-BaseOS" k).
Proof.
  intros (t & Ha & ->)%edit_baseos_unfold.
  pose proof (assign_paths_sections _ _ _ Ha) as [Hn Ho].
  apply assign_paths_Return in Ha as (_ & _ & _ & _ & D & V).
  rewrite remove_sections_defaults, remove_sections_names, Hn.
  split_and!; [done | done | | | |].
  - intros s Hs. rewrite remove_sections_other by set_solver.
    apply Ho. set_solver.
  - intros k Hk. rewrite remove_sections_value, V.
    rewrite decide_False by set_solver.
    repeat case_decide; simplify_eq/=; try done; set_solver.
  - intros k Hk. rewrite remove_sections_value, V.
    rewrite decide_False by set_solver.
    repeat case_decide; simplify_eq/=; try done; set_solver.
  - intros k Hk. rewrite remove_sections_value, V.
    rewrite decide_False by set_solver.
    repeat case_decide; simplify_eq/=; try done; set_solver.
Qed.

(** X2.  The AppStream edit keeps the defaults, the order of the sections that
    stay, every section it neither removes nor assigns to, and in the
    three sections it assigns to every option that is not assigned. *)
Theorem edit_appstream_keeps_the_rest (ti ti' : ConfigParser.t) :
  edit_appstream ti = Return ti' →
  ConfigParser._defaults ti' = ConfigParser._defaults ti
  ∧ ConfigParser.sections ti'
    = filter (λ s, (s ∉ ["media"; "variant-BaseOS"; "checksums"; "stage2"])
                   ∧ startswith s "images-" = false)
        (ConfigParser.sections ti)
  ∧ (∀ s, s ∉ ["media"; "variant-BaseOS"; "checksums"; "stage2";
               "general"; "tree"; "variant-AppStream"] →
          startswith s "images-" = false →
          dict_get s (ConfigParser._sections ti')
          = dict_get s (ConfigParser._sections ti))
  ∧ (∀ k, k ∉ ["variants"; "variant"; "repository"; "packagedir"; "platforms"] →
          ConfigParser.value ti' "general" k = ConfigParser.value ti "general" k)
  ∧ (∀ k, k ∉ ["variants"; "platforms"] →
          ConfigParser.value ti' "tree" k = ConfigParser.value ti "tree" k)
  ∧ (∀ k, k ∉ ["packages"; "repository"] →
          ConfigParser.value ti' "variant-AppStream" k
          = ConfigParser.value ti "variant-AppStream" k).
Proof.
  intros (t7 & t9 & H7 & H9 & ->)%edit_appstream_unfold.
  pose proof (assign_paths_sections _ _ _ H7) as [N7 O7].
  pose proof (platforms_rewrite_sections _ _ H9) as [N9 O9].
  apply assign_paths_Return in H7 as (_ & _ & _ & _ & D7 & V7).
  apply platforms_rewrite_Return in H9 as (arch & _ & _ & D9 & V9).
  set (L := "media" :: _).
  assert (HL : ∀ s, s ∈ L ↔
                    s ∈ ["media"; "variant-BaseOS"; "checksums"; "stage2"]
                    ∨ (startswith s "images-" = true ∧ s ≠ "media"
                       ∧ s ∈ ConfigParser.sections ti)).
  { intros s. unfold L.
    rewrite elem_of_cons, elem_of_app, list_elem_of_filter,
      remove_section_names, list_elem_of_filter, N9, N7.
    rewrite Is_true_true. set_solver. }
  rewrite remove_sections_defaults, remove_sections_names, N9, N7.
  split_and!; [congruence | | | | |].
  - apply filter_ext_in. intros s Hs. rewrite HL.
    destruct (startswith s "images-") eqn:Hp.
    + split; [|by intros [_ ?]]. intros Hn. exfalso. apply Hn.
      destruct (decide (s = "media")) as [->|]; [left; set_solver|by right].
    + split; [intros Hn; split; [tauto|done] | intros [Hn _] [?|(? & _)]; done].
  - intros s Hs Hp. rewrite remove_sections_other.
    + rewrite O9, O7; set_solver.
    + rewrite HL. rewrite Hp. set_solver.
  - intros k Hk. rewrite remove_sections_value, V9, V7.
    rewrite decide_False by (rewrite HL; set_solver).
    repeat case_decide; simplify_eq/=; try done; set_solver.
  - intros k Hk. rewrite remove_sections_value, V9, V7.
    rewrite decide_False by (rewrite HL; set_solver).
    repeat case_decide; simplify_eq/=; try done; set_solver.
  - intros k Hk. rewrite remove_sections_value, V9, V7.
    rewrite decide_False by (rewrite HL; set_solver).
    repeat case_decide; simplify_eq/=; try done; set_solver.
Qed.

(** ** Editing twice *)

Section editing_twice.
Import ConfigParser.

Lemma value_has_section ti s k v :
  value ti s k = Some v → has_section ti s = true.
Proof.
  unfold value, has_section, dict_has. by destruct (dict_get s (_sections ti)).
Qed.

Lemma assign_paths_again ti variant :
  value ti "general" "variants" = Some variant →
  value ti "general" "variant" = Some variant →
  value ti "general" "repository" = Some "." →
  value ti "general" "packagedir" = Some "Packages" →
  value ti "tree" "variants" = Some variant →
  value ti ("variant-" +:+ variant) "packages" = Some "Packages" →
  value ti ("variant-" +:+ variant) "repository" = Some "." →
  assign_paths ti variant = Return ti.
Proof.
  intros. unfold assign_paths.
  destruct (variant_section_named variant) as (? & ? & _).
  repeat (rewrite set_same by done; cbn [obind]). done.
Qed.

Lemma platforms_rewrite_again ti arch :
  get ti "general" "arch" = Return arch →
  value ti "general" "platforms" = Some arch →
  value ti "tree" "platforms" = Some arch →
  platforms_rewrite ti = Return ti.
Proof.
  intros Ha ? ?. unfold platforms_rewrite. rewrite Ha. cbn [obind].
  repeat (rewrite set_same by done; cbn [obind]). done.
Qed.

End editing_twice.

(** A document in the form the BaseOS edit produces is a fixed point of
    that edit. *)
Lemma edit_baseos_fixpoint (ti : ConfigParser.t) :
  baseos_edited ti → edit_baseos ti = Return ti.
Proof.
  intros (? & ? & ? & ? & ? & ? & ? & ? & ?).
  unfold edit_baseos. rewrite tweak_paths_unfold.
  rewrite assign_paths_again by done. cbn [obind].
  rewrite (remove_section_absent ti "media") by done. cbn [fst obind].
  by rewrite remove_section_absent.
Qed.

(** So is a document in the form the AppStream edit produces, for the
    architecture it names. *)
Lemma edit_appstream_fixpoint (ti : ConfigParser.t) (arch : string) :
  appstream_edited arch ti →
  ConfigParser.get ti "general" "arch" = Return arch →
  edit_appstream ti = Return ti.
Proof.
  intros (? & ? & ? & ? & Himg & ? & ? & ? & ? & ? & ? & ? & ? & ?) Ha.
  unfold edit_appstream. rewrite tweak_paths_unfold.
  rewrite assign_paths_again by done. cbn [obind].
  fold (platforms_rewrite ti).
  rewrite (platforms_rewrite_again ti arch) by done. cbn [obind].
  rewrite remove_section_absent by done. cbn [fst].
  f_equal. apply remove_sections_absent.
  intros s [Hs|Hs%list_elem_of_filter]%elem_of_app.
  - set_solver.
  - destruct Hs as [Hp Hin]. apply Himg in Hin. by rewrite Hin in Hp.
Qed.

(** The AppStream edit does not touch the architecture. *)
Lemma edit_appstream_arch (ti ti' : ConfigParser.t) :
  edit_appstream ti = Return ti' →
  ConfigParser.get ti' "general" "arch" = ConfigParser.get ti "general" "arch".
Proof.
  intros H.
  pose proof (edit_appstream_Return _ _ H) as (arch & _ & E).
  destruct E as (_ & _ & _ & _ & _ & Hpl & _).
  apply edit_appstream_unfold in H as (t7 & t9 & H7 & H9 & ->).
  apply assign_paths_Return in H7 as (Hg & _ & _ & S7 & D7 & V7).
  apply platforms_rewrite_Return in H9 as (? & _ & S9 & D9 & V9).
  apply get_ext.
  - rewrite remove_sections_value in Hpl |- *.
    destruct (decide ("general" ∈ _)); [done|].
    rewrite V9, V7. change (lower "arch") with "arch".
    repeat case_decide; simplify_eq/=; try done; naive_solver.
  - rewrite Hg. eapply value_has_section, Hpl.
  - by rewrite remove_sections_defaults, D9, D7.
Qed.

(** X3.  Either edit of a document that the same edit has produced changes
    nothing: every assignment finds its value in place (for AppStream the
    platforms are set to the architecture once more) and there is nothing
    left to remove. *)
Theorem edits_are_idempotent (ti ti' : ConfigParser.t) :
  (edit_baseos ti = Return ti' → edit_baseos ti' = Return ti')
  ∧ (edit_appstream ti = Return ti' → edit_appstream ti' = Return ti').
Proof.
  split; intros H.
  - apply edit_baseos_fixpoint. by eapply edit_baseos_Return.
  - pose proof (edit_appstream_Return _ _ H) as (arch & Ha & E).
    apply (edit_appstream_fixpoint ti' arch); [done|].
    by rewrite (edit_appstream_arch _ _ H).
Qed.

(** ** The file editors: failures and second runs *)

Lemma read_config_world ini_parse path w r w' :
  read_config ini_parse path w = (r, w') → w' = w ∧ ∀ n, r ≠ SysExit n.
Proof.
  unfold read_config. destruct (stat w path) as [[data| |]|];
    try destruct (ini_parse data); by intros [= <- <-].
Qed.

Lemma put_file_world path data w r w' :
  put_file path data w = (r, w') →
  (∀ n, r ≠ SysExit n)
  ∧ (r ≠ Return tt → w' = w).
Proof.
  unfold put_file, fs_update. destruct (resolve _ _) as [p|]; [|by intros [= <- <-]].
  destruct (alter_at _ _ _ _ _) as [root'|e|n] eqn:E; intros [= <- <-]; try done.
  exfalso. revert E. apply alter_at_not_exit. by intros [[]|].
Qed.

Lemma edit_file_outcome ini_parse edit path w r w' :
  (∀ ti n, edit ti ≠ SysExit n) →
  edit_file ini_parse edit path w = (r, w') →
  (∀ n, r ≠ SysExit n)
  ∧ (r ≠ Return tt → w_root w' = w_root w ∧ w_cwd w' = w_cwd w).
Proof.
  intros Hedit. unfold edit_file, bind, lift.
  destruct (read_config _ _ _) as [r0 w0] eqn:E0.
  apply read_config_world in E0 as [-> Hr0].
  destruct r0 as [t0| |]; [|by intros [= <- <-]|by intros [= <- <-]; exfalso; eapply Hr0].
  destruct (edit t0) as [t| |] eqn:Et;
    [|by intros [= <- <-]|by exfalso; eapply Hedit].
  unfold write_file, bind, log.
  destruct (put_file _ _ _) as [r1 w1] eqn:E1.
  apply put_file_world in E1 as [Hx Hw].
  destruct r1 as [[]| |]; intros [= <- <-]; [done| |by exfalso; eapply Hx].
  by rewrite Hw.
Qed.

Lemma edit_file_again ini_parse edit path w w1 :
  edit_file ini_parse edit path w = (Return tt, w1) →
  (∀ t0 t, read_config ini_parse path w = (Return t0, w) →
           edit t0 = Return t →
           ini_parse (ConfigParser.write t) = Some t ∧ edit t = Return t) →
  ∃ w2, edit_file ini_parse edit path w1 = (Return tt, w2)
        ∧ w_root w2 = w_root w1 ∧ w_cwd w2 = w_cwd w1.
Proof.
  intros H Hback. unfold edit_file in H.
  apply bind_Return in H as (t0 & w0 & Hread & H).
  pose proof (read_config_world _ _ _ _ _ Hread) as [-> _].
  apply bind_Return in H as (t & w0 & Hed & H).
  unfold lift in Hed. injection Hed as Hed <-.
  destruct (Hback t0 t Hread Hed) as [Hparse Hed'].
  unfold write_file in H. apply bind_Return in H as ([] & w0 & [= <-] & H).
  apply fs_update_Return in H as (p & root' & Hp & Ha & ->).
  cbn [w_cwd w_root add_log] in Hp, Ha.
  destruct (alter_at_plain_after _ _ _ _ _ _ Ha) as (o & Hf & H0 & H1).
  assert (o = Some (File (ConfigParser.write t))) as ->.
  { destruct (walk (w_root w) p) as [[]|]; try done; by injection Hf as <-. }
  assert (Hplain : plain_to root' p = Some (File (ConfigParser.write t))).
  { destruct p as [|c p]; [|by apply H1].
    specialize (H0 eq_refl). injection H0 as <-. done. }
  set (w1 := set_root root' (add_log _ w)).
  assert (Hstat : stat w1 path = Some (File (ConfigParser.write t))).
  { unfold stat. cbn [w_cwd w1 set_root add_log]. rewrite Hp.
    cbn [mbind option_bind w_root]. by apply plain_to_walk. }
  unfold edit_file, bind, read_config, lift. rewrite Hstat, Hparse, Hed'.
  unfold write_file, bind, log, put_file, fs_update.
  cbn [w_cwd w1 set_root add_log w_root]. rewrite Hp.
  edestruct (alter_at_plain_some false
               (λ o, match o with
                     | None | Some (File _) => Return (Some (File (ConfigParser.write t)))
                     | Some _ => Raise (OSError EISDIR path)
                     end) path p root') as (n' & Ha' & _); [done..|].
  rewrite Ha'. eexists. split; [done|]. split; [|done].
  cbn [w_root set_root]. eapply alter_at_id; [done| |].
  - right. rewrite (plain_to_walk _ _ _ Hplain). done.
  - rewrite (plain_to_walk _ _ _ Hplain). done.
Qed.

(** X4.  A path at which there is no file: [read] skips it without a word, the
    document stays empty, and the first assignment fails for want of the
    section [general].  Nothing is created. *)
Theorem tweak_without_a_file (ini_parse : string → option ConfigParser.t)
    (file_path : string) (w : world) :
  (∀ data, stat w file_path ≠ Some (File data)) →
  tweak_baseos_treeinfo ini_parse file_path w
  = (Raise (NoSectionError "general"), w)
  ∧ tweak_appstream_treeinfo ini_parse file_path w
    = (Raise (NoSectionError "general"), w).
Proof.
  intros Hno.
  assert (Hread : read_config ini_parse file_path w = (Return ConfigParser.empty, w)).
  { unfold read_config. destruct (stat w file_path) as [[data| |]|]; try done.
    by destruct (Hno data). }
  unfold tweak_baseos_treeinfo, tweak_appstream_treeinfo, bind. by rewrite Hread.
Qed.

(** X5.  The editors never leave the interpreter, and when they do not return
    the tree is as it was: the document is edited in memory before the
    file is opened for writing, and an [open] that fails writes nothing. *)
Theorem editors_fail_clean (ini_parse : string → option ConfigParser.t)
    (file_path : string) (w : world) (r : outcome unit) (w' : world) :
  tweak_baseos_treeinfo ini_parse file_path w = (r, w')
  ∨ tweak_appstream_treeinfo ini_parse file_path w = (r, w') →
  (∀ n, r ≠ SysExit n)
  ∧ (r ≠ Return tt → w_root w' = w_root w ∧ w_cwd w' = w_cwd w).
Proof.
  intros [H|H].
  - eapply (edit_file_outcome ini_parse edit_baseos); [|exact H].
    intros ti n. apply edit_baseos_not_exit.
  - eapply (edit_file_outcome ini_parse edit_appstream); [|exact H].
    intros ti n. apply edit_appstream_not_exit.
Qed.

(** X6.  Running an editor on the file it has written: if the reader gives
    back the document that was written, the second run returns and the
    tree is the same. *)
Theorem tweak_twice (ini_parse : string → option ConfigParser.t)
    (file_path : string) (w w1 : world) :
  (tweak_baseos_treeinfo ini_parse file_path w = (Return tt, w1) →
   (∀ t0 t, read_config ini_parse file_path w = (Return t0, w) →
            edit_baseos t0 = Return t →
            ini_parse (ConfigParser.write t) = Some t) →
   ∃ w2, tweak_baseos_treeinfo ini_parse file_path w1 = (Return tt, w2)
         ∧ w_root w2 = w_root w1 ∧ w_cwd w2 = w_cwd w1)
  ∧ (tweak_appstream_treeinfo ini_parse file_path w = (Return tt, w1) →
     (∀ t0 t, read_config ini_parse file_path w = (Return t0, w) →
              edit_appstream t0 = Return t →
              ini_parse (ConfigParser.write t) = Some t) →
     ∃ w2, tweak_appstream_treeinfo ini_parse file_path w1 = (Return tt, w2)
           ∧ w_root w2 = w_root w1 ∧ w_cwd w2 = w_cwd w1).
Proof.
  split; intros H Hback.
  - eapply (edit_file_again ini_parse edit_baseos); [exact H|].
    intros t0 t Hr He. split; [by eapply Hback|].
    apply edit_baseos_fixpoint. by eapply edit_baseos_Return.
  - eapply (edit_file_again ini_parse edit_appstream); [exact H|].
    intros t0 t Hr He. split; [by eapply Hback|].
    pose proof (edit_appstream_Return _ _ He) as (arch & Ha & E).
    apply (edit_appstream_fixpoint t arch); [done|].
    by rewrite (edit_appstream_arch _ _ He).
Qed.

(** ** The mount scope: entering it and leaving no trace *)

Lemma fs_update_plain path f w p x o :
  resolve (w_cwd w) path = Some p →
  p ≠ [] →
  plain_to (w_root w) p = Some x →
  f (Some x) = Return o →
  ∃ n', fs_update false path f w = (Return tt, set_root n' w)
        ∧ altered_in_place p (w_root w) n'
        ∧ plain_to n' p = o
        ∧ walk n' p = o.
Proof.
  intros Hres Hne Hp Hf.
  destruct (alter_at_plain false f path p (w_root w) x o) as (n' & Ha & ? & ?);
    [done..|].
  exists n'. unfold fs_update. rewrite Hres, Ha.
  split_and!; try done. by exists f, path.
Qed.

Lemma mkdtemp_from_fresh candidates suffix w mp w' :
  mkdtemp_from candidates suffix w = (Return mp, w') →
  ∃ pm, resolve (w_cwd w) mp = Some pm
        ∧ pm ≠ []
        ∧ walk (w_root w) pm = None
        ∧ altered_in_place pm (w_root w) (w_root w')
        ∧ plain_to (w_root w') pm = Some (Dir ∅)
        ∧ w_cwd w' = w_cwd w ∧ w_image w' = w_image w
        ∧ w_proc w' = w_proc w ∧ w_nproc w' = w_nproc w
        ∧ w_log w' = w_log w.
Proof.
  revert w. induction candidates as [|name rest IH]; intros w; [done|].
  cbn [mkdtemp_from]. cbv zeta. generalize (join "/tmp" ["tmp" +:+ name +:+ suffix]).
  intros file.
  destruct (os_mkdir _ _) as [[[]|e|] w1] eqn:E.
  - intros H. assert (mp = file ∧ w' = w1) as [-> ->] by (split; congruence).
    clear H. apply fs_update_Return in E as (p & root' & Hp & Ha & ->).
    cbn [w_cwd w_root set_root set_tmpnames] in *.
    destruct (alter_at_plain_after _ _ _ _ _ _ Ha) as (o & Hf & H0 & H1).
    exists p.
    destruct (walk (w_root w) p) as [x|] eqn:Hw; [done|].
    injection Hf as <-.
    assert (p ≠ []) as Hne by (by intros ->).
    split_and!; try done.
    + by eexists _, _.
    + by apply H1.
  - assert (w1 = set_tmpnames rest w) as ->.
    { eapply fs_update_Raise in E as [-> _]; [done|].
      intros [|] e'; try done; intros [= <-]; by eauto. }
    destruct e as [[] ?| | | | | | |]; try done.
    intros H. by apply IH in H.
  - done.
Qed.

Lemma mount_takes_effect image mp pm w :
  resolve (w_cwd w) mp = Some pm →
  pm ≠ [] →
  plain_to (w_root w) pm = Some (Dir ∅) →
  let w' := process_effect ["mount"; "-o"; "loop"; image; mp] w in
  altered_in_place pm (w_root w) (w_root w')
  ∧ plain_to (w_root w') pm = Some (Mnt (w_image w image) (Dir ∅)).
Proof.
  intros Hres Hne Hp. cbn [process_effect].
  edestruct (fs_update_plain mp
               (λ o, match o with
                     | Some (File _) | None => Raise (OSError ENOTDIR mp)
                     | Some d => Return (Some (Mnt (w_image w image) d))
                     end) w pm) as (n' & -> & ? & ? & _); [done..|].
  done.
Qed.

Lemma umount_takes_effect mp pm img under w :
  resolve (w_cwd w) mp = Some pm →
  pm ≠ [] →
  plain_to (w_root w) pm = Some (Mnt img under) →
  let w' := process_effect ["umount"; mp] w in
  altered_in_place pm (w_root w) (w_root w')
  ∧ plain_to (w_root w') pm = Some under.
Proof.
  intros Hres Hne Hp. cbn [process_effect].
  edestruct (fs_update_plain mp
               (λ o, match o with
                     | Some (Mnt _ under) => Return (Some under)
                     | _ => Raise (OSError ENOENT mp)
                     end) w pm) as (n' & -> & ? & ? & _); [done..|].
  done.
Qed.

Lemma rmdir_takes_effect mp pm w :
  resolve (w_cwd w) mp = Some pm →
  pm ≠ [] →
  plain_to (w_root w) pm = Some (Dir ∅) →
  ∃ w', os_rmdir mp w = (Return tt, w')
        ∧ altered_in_place pm (w_root w) (w_root w')
        ∧ walk (w_root w') pm = None
        ∧ w_cwd w' = w_cwd w.
Proof.
  intros Hres Hne Hp. unfold os_rmdir, bind, log. cbn beta iota.
  edestruct (fs_update_plain mp
               (λ o, match o with
                     | None => Raise (OSError ENOENT mp)
                     | Some (File _) => Raise (OSError ENOTDIR mp)
                     | Some (Mnt _ _) => Raise (OSError EBUSY mp)
                     | Some (Dir ch) =>
                         match map_to_list ch with
                         | [] => Return None
                         | _ :: _ => Raise (OSError ENOTEMPTY mp)
                         end
                     end) (add_log (EvFs "rmdir" [mp]) w) pm)
    as (n' & -> & ? & _ & ?); [done | done | done | |].
  { cbv beta iota. by rewrite map_to_list_empty. }
  by eexists.
Qed.

(** Entering the scope. *)
Lemma scope_mounted image w mp wa :
  mkdtemp ".rhel-8-iso" w = (Return mp, wa) →
  next_rc wa 0 ["mount"; "-o"; "loop"; image; mp] = 0 →
  ∃ pm wb,
    run ["mount"; "-o"; "loop"; image; mp] false wa = (Return true, wb)
    ∧ resolve (w_cwd w) mp = Some pm
    ∧ pm ≠ []
    ∧ walk (w_root w) pm = None
    ∧ w_cwd wb = w_cwd w
    ∧ altered_in_place pm (w_root w) (w_root wb)
    ∧ plain_to (w_root wb) pm = Some (Mnt (w_image w image) (Dir ∅)).
Proof.
  intros Hmk Hrc. unfold mkdtemp in Hmk.
  apply mkdtemp_from_fresh in Hmk
    as (pm & Hres & Hne & Hfree & Ha & Hp & Hc & Hi & _).
  cbn [w_cwd w_root w_image add_log] in *.
  exists pm, (after_process ["mount"; "-o"; "loop"; image; mp] wa).
  rewrite (run_zero _ _ _ Hrc). unfold after_process. rewrite bool_decide_true by done.
  set (w0 := add_log _ _).
  destruct (process_effect_fields ["mount"; "-o"; "loop"; image; mp] w0) as (Hc0 & _).
  destruct (mount_takes_effect image mp pm w0) as [Ha' Hp'];
    [by cbn [w_cwd w0 add_log set_nproc]; rewrite Hc | done | done |].
  cbn [w_root w_image w0 add_log set_nproc] in Ha', Hp'.
  split_and!; try done.
  - by rewrite Hc0.
  - by eapply altered_in_place_trans.
  - by rewrite Hp', Hi.
Qed.

(** X7.  On entry to the body the path it is given is a directory created for
    this run at a place that was free, the image is mounted on it, so that
    a name in the image is found under that path, and the rest of the tree
    is as it was. *)
Theorem scope_shows_the_image {A} (image : string) (body : string → M A)
    (w : world) (mp : string) (wa : world) :
  mkdtemp ".rhel-8-iso" w = (Return mp, wa) →
  next_rc wa 0 ["mount"; "-o"; "loop"; image; mp] = 0 →
  ∃ pm wb,
    mount_iso image body w
    = try_finally (body mp) (mount_iso_finally mp) wb
    ∧ resolve (w_cwd w) mp = Some pm
    ∧ stat w mp = None
    ∧ stat wb mp = Some (Mnt (w_image w image) (Dir ∅))
    ∧ (∀ name, simple_name name = true →
               stat wb (join mp [name]) = w_image w image !! name)
    ∧ w_cwd wb = w_cwd w
    ∧ (∀ q, diverge pm q → walk (w_root wb) q = walk (w_root w) q).
Proof.
  intros Hmk Hrc.
  destruct (scope_mounted image w mp wa Hmk Hrc)
    as (pm & wb & Hrun & Hres & Hne & Hfree & Hc & Ha & Hp).
  exists pm, wb. apply plain_to_walk in Hp as Hw.
  split_and!; try done.
  - unfold mount_iso, bind. by rewrite Hmk, Hrun.
  - by rewrite (stat_resolve _ _ _ Hres).
  - unfold stat. rewrite Hc, Hres. done.
  - intros name Hname. unfold stat. rewrite Hc.
    rewrite (join_simple _ mp [name]) by (by repeat constructor).
    apply resolve_rbase in Hres as [_ ->]. cbn [mbind option_bind].
    rewrite (walk_mount_child _ _ _ _ name [] Hw).
    by destruct (w_image w image !! name).
  - intros q Hq. by eapply altered_in_place_frame.
Qed.

Lemma run_true cmd can_fail w w' :
  run cmd can_fail w = (Return true, w') → next_rc w 0 cmd = 0.
Proof.
  destruct (decide (next_rc w 0 cmd = 0)) as [|Hne]; [done|].
  destruct can_fail.
  - by rewrite (run_tolerated _ _ Hne).
  - by rewrite (run_fatal _ _ Hne).
Qed.

(** Leaving the scope when one of the five attempts succeeds. *)
Lemma teardown_releases mp pm img w1 :
  resolve (w_cwd w1) mp = Some pm →
  pm ≠ [] →
  plain_to (w_root w1) pm = Some (Mnt img (Dir ∅)) →
  (∃ i, (i < 5)%nat ∧ next_rc w1 i ["umount"; mp] = 0) →
  ∃ w3, mount_iso_finally mp w1 = (Return tt, w3)
        ∧ altered_in_place pm (w_root w1) (w_root w3)
        ∧ walk (w_root w3) pm = None
        ∧ w_cwd w3 = w_cwd w1.
Proof.
  intros Hres Hne Hp (i & Hi & Hrc).
  destruct (umount_retry_spec mp 5 0 w1)
    as (k & w2 & Hk & Hfail & _ & Hrun & _ & _ & _ & Hcwd & _ & Hrel).
  assert (k < 5)%nat as Hlt.
  { destruct (decide (k < 5)%nat); [done|]. exfalso.
    apply (Hfail i); [lia|done]. }
  destruct (Hrel Hlt) as (wk & Hrk & Hck & Hr2).
  destruct (umount_takes_effect mp pm img (Dir ∅) wk) as [Ha Hp2];
    [congruence | done | congruence |].
  cbv zeta in Ha, Hp2. rewrite <- Hr2, Hrk in Ha. rewrite <- Hr2 in Hp2.
  destruct (rmdir_takes_effect mp pm w2) as (w3 & Hrm & Ha3 & Hw3 & Hc3);
    [congruence | done | done |].
  exists w3. unfold mount_iso_finally, bind. rewrite Hrun, Hrm.
  split_and!; [done | by eapply altered_in_place_trans | done | congruence].
Qed.

(** X8.  A scope whose body leaves the mount point alone and whose [umount]
    succeeds at one of the five attempts ends with the body's outcome,
    whatever that is; the temporary directory is gone, beside it the tree
    is as the body left it, and if the body has changed nothing the tree is
    the one the scope was entered with. *)
Theorem scope_leaves_no_trace {A} (image : string) (body : string → M A)
    (w : world) (mp : string) (wa wb : world) (r : outcome A) (w1 : world)
    (pm : list string) :
  mkdtemp ".rhel-8-iso" w = (Return mp, wa) →
  run ["mount"; "-o"; "loop"; image; mp] false wa = (Return true, wb) →
  body mp wb = (r, w1) →
  w_cwd w1 = w_cwd wb →
  resolve (w_cwd w) mp = Some pm →
  plain_to (w_root w1) pm = plain_to (w_root wb) pm →
  (∃ i, (i < 5)%nat ∧ next_rc w1 i ["umount"; mp] = 0) →
  ∃ w3,
    mount_iso image body w = (r, w3)
    ∧ stat w3 mp = None
    ∧ w_cwd w3 = w_cwd w
    ∧ (∀ q, diverge pm q → walk (w_root w3) q = walk (w_root w1) q)
    ∧ (w_root w1 = w_root wb → w_root w3 = w_root w).
Proof.
  intros Hmk Hrun Hbody Hc1 Hres Hkeep Hsome.
  pose proof (run_true _ _ _ _ Hrun) as Hrc.
  destruct (scope_mounted image w mp wa Hmk Hrc)
    as (pm' & wb' & Hrun' & Hres' & Hne & Hfree & Hcb & Hab & Hpb).
  assert (wb' = wb) as -> by congruence.
  assert (pm' = pm) as -> by congruence.
  destruct (teardown_releases mp pm (w_image w image) w1)
    as (w3 & Hfin & Ha3 & Hw3 & Hc3); [congruence | done | congruence | done |].
  exists w3. split_and!.
  - rewrite (mount_iso_entered image body w mp wa wb r w1 (Return tt) w3); done.
  - unfold stat. rewrite Hc3, Hc1, Hcb, Hres. done.
  - congruence.
  - intros q Hq. by eapply altered_in_place_frame.
  - intros Heq. rewrite Heq in Ha3.
    apply (altered_in_place_back pm); [by eapply altered_in_place_trans | congruence].
Qed.

(** X9.  A scope that returns has removed its mount point. *)
Theorem scope_returns_without_mount_point {A} (image : string)
    (body : string → M A) (w : world) (x : A) (w' : world) :
  mount_iso image body w = (Return x, w') →
  ∃ mp wa, mkdtemp ".rhel-8-iso" w = (Return mp, wa)
           ∧ stat wa mp = Some (Dir ∅)
           ∧ stat w' mp = None.
Proof.
  intros (mp & wa & wb & w1 & Hmk & Hrun & Hbody & Hfin)%mount_iso_Return.
  exists mp, wa. split; [done|]. split; [by apply mkdtemp_dir in Hmk as [? _]|].
  unfold mount_iso_finally in Hfin.
  apply bind_Return in Hfin as ([] & w2 & _ & Hrm).
  unfold os_rmdir in Hrm. apply bind_Return in Hrm as ([] & w0 & [= <-] & Hrm).
  apply fs_update_Return in Hrm as (p & root' & Hp & Ha & ->).
  cbn [w_cwd w_root add_log] in Hp, Ha.
  unfold stat. cbn [w_cwd w_root set_root add_log]. rewrite Hp.
  cbn [mbind option_bind].
  apply alter_at_walk in Ha as (o & Hf & ->).
  destruct (walk (w_root w2) p) as [[|ch|]|]; try done.
  destruct (map_to_list ch); [|done]. by injection Hf as <-.
Qed.

(** ** [copy_boot_files] *)

Lemma copy_boot_files_unfold srcdir destdir ignore :
  copy_boot_files srcdir destdir ignore
  = (listing <- os_listdir srcdir ;;
     for_each listing (boot_step srcdir destdir ignore))%io.
Proof. done. Qed.

Lemma existsb_elem_of {A} (f : A → bool) (l : list A) :
  existsb f l = true ↔ ∃ x, x ∈ l ∧ f x = true.
Proof.
  induction l as [|y l IH]; cbn [existsb].
  - split; [done|]. intros (x & Hx & _). by apply elem_of_nil in Hx.
  - rewrite orb_true_iff, IH. split.
    + intros [?|(x & ? & ?)]; [exists y|exists x]; set_solver.
    + intros (x & [->|?]%elem_of_cons & ?); [by left|right; by exists x].
Qed.

Lemma boot_ignored_spec ignore fname :
  boot_ignored ignore fname = true ↔
  fname ∈ ["AppStream"; "BaseOS"; ".treeinfo"; ".discinfo"; "media.repo"]
  ∨ JStr fname ∈ ignore.
Proof.
  unfold boot_ignored. rewrite existsb_elem_of. split.
  - intros (j & Hin & Hj).
    destruct j as [| | |s| |]; try done. cbn [json_is_str] in Hj.
    apply bool_decide_eq_true in Hj as ->.
    apply elem_of_app in Hin as [Hin|Hin]; [left|by right].
    apply list_elem_of_fmap in Hin as (y & [= ->] & Hy). done.
  - intros [Hin|Hin]; exists (JStr fname);
      (split; [|cbn [json_is_str]; by apply bool_decide_eq_true]);
      apply elem_of_app; [left|by right].
    by apply list_elem_of_fmap_2.
Qed.

Lemma prune_file ignore dir n :
  is_dir n = false → ∃ data, n = File data ∧ prune ignore dir n = File data.
Proof. destruct n; try done. by eexists. Qed.

Section boot.
Variables (srcdir destdir : string) (ignore : list json).
Variables (cwd ps pd : list string) (srcnode : node) (ch : gmap string node).
Hypothesis Hps : resolve cwd srcdir = Some ps.
Hypothesis Hpd : resolve cwd destdir = Some pd.
Hypothesis Hch : entries srcnode = Some ch.
Hypothesis Hdiv : diverge ps pd.

Local Abbreviation boot_inv := (boot_ready cwd ps pd srcnode).

Lemma boot_step_ignored x w :
  boot_ignored ignore x = true →
  boot_step srcdir destdir ignore x w = (Return tt, w).
Proof. unfold boot_step. by intros ->. Qed.

Lemma boot_step_copied x sub w w1 :
  boot_inv w →
  simple_name x = true →
  ch !! x = Some sub →
  boot_ignored ignore x = false →
  boot_step srcdir destdir ignore x w = (Return tt, w1) →
  boot_inv w1
  ∧ altered w w1 (pd ++ [x]) (Some (prune filt (join srcdir [x]) sub))
  ∧ (is_dir sub = true → walk (w_root w) (pd ++ [x]) = None).
Proof.
  intros (Hc & Hsrc & dn & Hdn & Hdir) Hx Hsub Hig. unfold boot_step. rewrite Hig.
  assert (Hrs : resolve (w_cwd w) (join srcdir [x]) = Some (ps ++ [x])).
  { rewrite Hc, (join_simple _ srcdir [x]) by (by repeat constructor).
    by apply resolve_rbase in Hps as [_ ->]. }
  assert (Hrd : resolve (w_cwd w) (join destdir [x]) = Some (pd ++ [x])).
  { rewrite Hc, (join_simple _ destdir [x]) by (by repeat constructor).
    by apply resolve_rbase in Hpd as [_ ->]. }
  assert (Hwx : walk (w_root w) (ps ++ [x]) = Some sub).
  { rewrite walk_app, Hsrc. cbn [mbind option_bind walk]. by rewrite Hch, Hsub. }
  unfold bind, os_path_isdir. rewrite (stat_resolve _ _ _ Hrs), Hwx.
  assert (Hinv : ∀ o, altered w w1 (pd ++ [x]) o → boot_inv w1).
  { intros o Ha. split_and!.
    - by rewrite (altered_cwd _ _ _ _ Ha).
    - rewrite (altered_frame _ _ _ _ ps Ha); [done|].
      apply diverge_below, diverge_sym, Hdiv.
    - destruct (altered_parent _ _ _ _ _ Ha) as [ch' Hch']. by exists (Dir ch'). }
  destruct (is_dir sub) eqn:Hd.
  - intros H. unfold copytree in H.
    eapply copytree_altered in H as (n & Hn & Hfree & Ha & _); [|done..].
    assert (n = sub) as -> by congruence.
    split_and!; [by eapply Hinv | done | done].
  - intros H. destruct (prune_file filt (join srcdir [x]) sub Hd) as (data & -> & ->).
    assert (Hpd' : resolve (w_cwd w) destdir = Some pd) by (by rewrite Hc).
    assert (Hb : resolve (w_cwd w) (join destdir [basename (join srcdir [x])])
                 = Some (pd ++ [x])) by (by rewrite basename_join_one).
    destruct (copy_into_directory _ _ _ _ _ _ _ _ _ H Hrs Hwx Hpd' Hdn Hdir Hb)
      as [Ha _].
    split_and!; [by eapply Hinv | done | done].
Qed.

(** The loop over a listing without repetitions. *)
Lemma boot_loop l w w' :
  NoDup l →
  (∀ x, x ∈ l → simple_name x = true ∧ is_Some (ch !! x)) →
  boot_inv w →
  for_each l (boot_step srcdir destdir ignore) w = (Return tt, w') →
  boot_inv w'
  ∧ (∀ q, (∀ x, x ∈ l → boot_ignored ignore x = false → diverge (pd ++ [x]) q) →
          walk (w_root w') q = walk (w_root w) q)
  ∧ (∀ x sub, x ∈ l → boot_ignored ignore x = false → ch !! x = Some sub →
       (∀ r, walk (w_root w') (pd ++ x :: r)
             = walk (prune filt (join srcdir [x]) sub) r)
       ∧ (is_dir sub = true → walk (w_root w) (pd ++ [x]) = None)).
Proof.
  revert w. induction l as [|y l IH]; intros w Hnd Hl Hinv.
  - intros [= <-]. split_and!; [done|done|]. intros x sub Hx. by apply elem_of_nil in Hx.
  - cbn [for_each]. intros (u & w1 & Hstep & Hrest)%bind_Return. destruct u.
    apply NoDup_cons in Hnd as [Hy Hnd].
    destruct (Hl y) as [Hsy [suby Hsuby]]; [set_solver|].
    assert (Hl' : ∀ x, x ∈ l → simple_name x = true ∧ is_Some (ch !! x))
      by (intros x ?; apply Hl; set_solver).
    destruct (boot_ignored ignore y) eqn:Hig.
    + rewrite boot_step_ignored in Hstep by done. injection Hstep as <-.
      destruct (IH w Hnd Hl' Hinv Hrest) as (Hinv' & Hframe & Hcopied).
      split_and!; [done| |].
      * intros q Hq. apply Hframe. intros x Hx. apply Hq. set_solver.
      * intros x sub [->|Hx]%elem_of_cons Hx' Hsub; [congruence|].
        by apply Hcopied.
    + destruct (boot_step_copied y suby w w1 Hinv Hsy Hsuby Hig Hstep)
        as (Hinv1 & Ha & Hfree).
      destruct (IH w1 Hnd Hl' Hinv1 Hrest) as (Hinv' & Hframe & Hcopied).
      split_and!; [done| |].
      * intros q Hq. rewrite Hframe by (intros x Hx; apply Hq; set_solver).
        apply (altered_frame _ _ _ _ _ Ha). apply Hq; [set_solver|done].
      * intros x sub [->|Hx]%elem_of_cons Hx' Hsub.
        -- assert (sub = suby) as -> by congruence. split; [|done].
           intros r. rewrite Hframe.
           ++ destruct Ha as (_ & Hb & _). rewrite (cons_middle y pd r), app_assoc.
              rewrite Hb. done.
           ++ intros z Hz _. apply (diverge_sibling pd z y [] r). set_solver.
        -- destruct (Hcopied x sub Hx Hx' Hsub) as [Hr Hf]. split; [done|].
           intros Hd. rewrite <- (Hf Hd).
           symmetry. apply (altered_frame _ _ _ _ _ Ha).
           apply (diverge_sibling pd y x [] []). set_solver.
Qed.

End boot.

Lemma names_spec (ch : gmap string node) :
  NoDup (names ch) ∧ ∀ x, x ∈ names ch ↔ is_Some (ch !! x).
Proof.
  unfold names. split; [apply NoDup_fst_map_to_list|].
  intros x. rewrite list_elem_of_fmap. split.
  - intros ([y n] & -> & Hin). apply elem_of_map_to_list in Hin. by exists n.
  - intros [n Hn]. exists (x, n). split; [done|]. by apply elem_of_map_to_list.
Qed.

(** X10.  [copy_boot_files] copies every entry of the source directory whose
    name is not among the five fixed names and not in the list it is given:
    a file arrives in the destination directory under its name, replacing
    what was there; a directory arrives as [copytree] leaves it, and only
    if the name was free in the destination.  What carries another name
    in the destination, and everything beside the destination, stays as
    it was. *)
Theorem copy_boot_files_copies_the_rest (srcdir destdir : string)
    (ignore : list json) (w w' : world) (ps pd : list string)
    (srcnode dn : node) (ch : gmap string node) :
  copy_boot_files srcdir destdir ignore w = (Return tt, w') →
  resolve (w_cwd w) srcdir = Some ps →
  walk (w_root w) ps = Some srcnode →
  entries srcnode = Some ch →
  forallb simple_name (names ch) = true →
  resolve (w_cwd w) destdir = Some pd →
  walk (w_root w) pd = Some dn →
  is_dir dn = true →
  diverge ps pd →
  let skipped x :=
    x ∈ ["AppStream"; "BaseOS"; ".treeinfo"; ".discinfo"; "media.repo"]
    ∨ JStr x ∈ ignore in
  w_cwd w' = w_cwd w
  ∧ (∀ x data, ch !! x = Some (File data) → ¬ skipped x →
       walk (w_root w') (pd ++ [x]) = Some (File data))
  ∧ (∀ x sub, ch !! x = Some sub → is_dir sub = true → ¬ skipped x →
       walk (w_root w) (pd ++ [x]) = None
       ∧ ∀ r, walk (w_root w') (pd ++ x :: r)
              = walk (prune filt (join srcdir [x]) sub) r)
  ∧ (∀ x r, ch !! x = None ∨ skipped x →
       walk (w_root w') (pd ++ x :: r) = walk (w_root w) (pd ++ x :: r))
  ∧ (∀ q, diverge pd q → walk (w_root w') q = walk (w_root w) q).
Proof.
  intros H Hps Hsrc Hch Hnames Hpd Hdn Hdir Hdiv skipped.
  destruct (names_spec ch) as [Hnd Hin].
  assert (Hsimple : ∀ name, is_Some (ch !! name) → simple_name name = true).
  { intros name Hname%Hin. rewrite forallb_forall in Hnames.
    apply Hnames. by apply list_elem_of_In. }
  rewrite copy_boot_files_unfold in H.
  apply bind_Return in H as (listing & w0 & Hls & Hloop).
  unfold os_listdir in Hls. rewrite (stat_resolve _ _ _ Hps), Hsrc, Hch in Hls.
  injection Hls as <- <-.
  assert (Hskip : ∀ x, boot_ignored ignore x = false ↔ ¬ skipped x).
  { intros x. rewrite <- not_true_iff_false. unfold skipped.
    by rewrite boot_ignored_spec. }
  destruct (boot_loop srcdir destdir ignore (w_cwd w) ps pd srcnode ch
              Hps Hpd Hch Hdiv (names ch) w w' Hnd)
    as ((Hc & _) & Hframe & Hcopied); [| |done|].
  { intros x Hx%Hin. split; [by apply Hsimple|done]. }
  { split_and!; [done..|]. by exists dn. }
  split_and!.
  - done.
  - intros x data Hx Hn.
    destruct (Hcopied x (File data)) as [Hr _]; [by apply Hin | by apply Hskip | done |].
    specialize (Hr []). by rewrite Hr.
  - intros x sub Hx Hd Hn.
    destruct (Hcopied x sub) as [Hr Hf]; [by apply Hin | by apply Hskip | done |].
    split; [by apply Hf | apply Hr].
  - intros x r Hx. apply Hframe. intros y Hy%Hin Hny%Hskip.
    apply (diverge_sibling pd y x [] r). intros ->.
    destruct Hx as [Hx|Hx]; [|done]. rewrite Hx in Hy. by destruct Hy.
  - intros q Hq. apply Hframe. intros y _ _. by apply diverge_below.
Qed.

(** ** [copytree]: what it refuses, what it creates *)

Lemma alter_at_plain_Raise mk f path p n x e :
  plain_to n p = Some x →
  f (Some x) = Raise e →
  alter_at mk f path p n = Raise e.
Proof.
  revert n. induction p as [|c p IH]; intros n Hp Hf.
  - cbn [plain_to] in Hp. injection Hp as ->. cbn [alter_at]. by rewrite Hf.
  - destruct n as [|ch|]; try done. cbn [plain_to] in Hp.
    destruct (ch !! c) as [n1|] eqn:Hc; [|done].
    destruct p as [|c2 p2].
    + cbn [plain_to] in Hp. injection Hp as ->. cbn [alter_at]. by rewrite Hc, Hf.
    + rewrite alter_at_deeper, Hc, (IH n1 Hp Hf). done.
Qed.

(** X11.  [copytree] refuses a source that is missing or is a file, and a
    destination that exists, whatever it is; in each case the tree is
    as it was.  The source is looked at first.  (That the source is a
    file or a directory, and that the destination exists, is what
    [os.stat] finds; the destination is not inside a mounted image.) *)
Theorem copytree_refusals (src dst : string) (w : world) :
  let w1 := add_log (EvFs "copytree" [src; dst]) w in
  (stat w src = None →
   copytree src dst w = (Raise (OSError ENOENT src), w1))
  ∧ (∀ data, os_stat w src = Some (File data) →
             copytree src dst w = (Raise (OSError ENOTDIR src), w1))
  ∧ (∀ n d x, os_stat w src = Some n → is_dir n = true →
              os_stat w dst = Some x →
              resolve (w_cwd w) dst = Some d →
              plain_to (w_root w) d = Some x →
              copytree src dst w = (Raise (OSError EEXIST dst), w1))
  ∧ w_root w1 = w_root w.
Proof.
  intros w1. unfold copytree, shutil_copytree, bind, log. cbn beta iota.
  change (stat (add_log (EvFs "copytree" [src; dst]) w) src) with (stat w src).
  fold w1. split_and!; [| | |done].
  - by intros ->.
  - by intros data ->%os_stat_stat.
  - intros n d x ->%os_stat_stat Hd _ Hres Hp.
    assert (Hn : match n with
                 | File _ => (Raise (OSError ENOTDIR src) : outcome node, w1)
                 | _ => (Return n, w1)
                 end = (Return n, w1)) by (by destruct n).
    rewrite Hn. unfold fs_update. cbn [w_cwd w_root w1 add_log]. rewrite Hres.
    by rewrite (alter_at_plain_Raise true _ dst d (w_root w) x (OSError EEXIST dst)).
Qed.

(** X12.  When [copytree] returns, the source was a directory and the
    destination was free; for a destination named by a path without
    [..], every ancestor of the destination is a plain directory
    afterwards, whether it was there before or had to be made; and what
    does not lie on the way to the destination or below it is as it was.
    (With a [..] in the path the directory in front of it is made as
    well, which the ancestors of the place reached do not show.) *)
Theorem copytree_makes_the_way (src dst : string) (w w' : world) :
  ".." ∉ split_slash dst →
  copytree src dst w = (Return tt, w') →
  ∃ s d n,
    resolve (w_cwd w) src = Some s
    ∧ resolve (w_cwd w) dst = Some d
    ∧ walk (w_root w) s = Some n ∧ is_dir n = true
    ∧ walk (w_root w) d = None
    ∧ walk (w_root w') d = Some (prune filt src n)
    ∧ (∀ q r, d = q ++ r → r ≠ [] →
         (walk (w_root w) q = None ∨ ∃ ch, walk (w_root w) q = Some (Dir ch))
         ∧ ∃ ch', walk (w_root w') q = Some (Dir ch'))
    ∧ (∀ q, diverge d q → walk (w_root w') q = walk (w_root w) q)
    ∧ w_cwd w' = w_cwd w.
Proof.
  unfold copytree.
  intros _ (s & d & n & root' & Hs & Hd & Hn & Hdir & Hfree & Ha & Hw & ->)%shutil_copytree_Return.
  exists s, d, n. cbn [w_root w_cwd set_root add_log].
  split_and!; try done.
  - intros q r Hq Hr. split.
    + by eapply alter_at_way_before.
    + by eapply alter_at_way_after.
  - intros q Hq. by eapply alter_at_frame.
Qed.

(** ** Reading the manifest of extra files *)

Lemma item_files_Return (items files : list json) :
  Forall2 (λ item file, ∃ m, item = JObj m ∧ m !! "file" = Some file) items files →
  foldr (λ item acc,
           file <- py_getitem item "file" ;;
           rest <- acc ;;
           Return (file :: rest))%O
        (Return []) items
  = Return files.
Proof.
  induction 1 as [|item file items files (m & -> & Hm) _ IH]; [done|].
  cbn [foldr py_getitem]. rewrite Hm. cbn [obind]. by rewrite IH.
Qed.

Lemma item_files_Raise (good : list json) (files : list json) (bad : json)
    (rest : list json) (e : exn) :
  Forall2 (λ item file, ∃ m, item = JObj m ∧ m !! "file" = Some file) good files →
  py_getitem bad "file" = Raise e →
  foldr (λ item acc,
           file <- py_getitem item "file" ;;
           rest <- acc ;;
           Return (file :: rest))%O
        (Return []) (good ++ bad :: rest)
  = Raise e.
Proof.
  intros Hgood Hbad.
  induction Hgood as [|item file items files (m & -> & Hm) _ IH].
  - cbn [app foldr]. by rewrite Hbad.
  - cbn [app foldr py_getitem]. rewrite Hm. cbn [obind]. by rewrite IH.
Qed.

Lemma read_extra_files_world json_loads mount_dir w r w' :
  read_extra_files json_loads mount_dir w = (r, w') →
  w' = w ∧ ∀ n, r ≠ SysExit n.
Proof.
  unfold read_extra_files, bind, read_file, ret, raise, lift.
  destruct (stat w _) as [[text| |]|]; try (by intros [= <- <-]).
  destruct (json_loads text) as [j|]; [|by intros [= <- <-]].
  destruct (obind (py_getitem j "data") _) as [l|e|n] eqn:E; try (by intros [= <- <-]).
  exfalso. revert E.
  destruct (py_getitem j "data") as [d| |] eqn:Ed; cbn [obind]; [|done|].
  - destruct (py_iter d) as [items| |] eqn:Ei; cbn [obind]; [|done|].
    + clear. induction items as [|item items IH]; cbn [foldr]; [done|].
      destruct (py_getitem item "file") eqn:Ef; cbn [obind]; [|done|].
      * destruct (foldr _ _ items); cbn [obind]; try done.
      * by destruct item as [| | | | |m]; cbn in Ef; try destruct (m !! "file").
    + by destruct d.
  - by destruct j as [| | | | |m]; cbn in Ed; try destruct (m !! "data").
Qed.

(** X13.  The list of extra files is the name of the manifest followed by the
    [file] members of the items of its [data] array, in the order of the
    array; nothing is changed by reading it. *)
Theorem read_extra_files_lists (json_loads : string → option json)
    (mount_dir : string) (w : world) (text : string)
    (members : gmap string json) (items files : list json) :
  stat w (join mount_dir ["extra_files.json"]) = Some (File text) →
  json_loads text = Some (JObj members) →
  members !! "data" = Some (JArr items) →
  Forall2 (λ item file, ∃ m, item = JObj m ∧ m !! "file" = Some file) items files →
  read_extra_files json_loads mount_dir w
  = (Return (JStr "extra_files.json" :: files), w).
Proof.
  intros Hstat Hjson Hdata Hitems.
  unfold read_extra_files, bind, read_file, ret, lift.
  rewrite Hstat, Hjson. cbn [py_getitem]. rewrite Hdata. cbn [obind py_iter].
  by rewrite (item_files_Return items files Hitems).
Qed.

(** X14.  How reading the manifest fails: a manifest that is missing or is a
    directory is an [OSError]; a text the decoder rejects is a decoding
    error; an object without [data], or the first item without [file], is
    a [KeyError] for that key.  In every case the world is as it was, and
    the interpreter is never left. *)
Theorem read_extra_files_failures (json_loads : string → option json)
    (mount_dir : string) (w : world) :
  let path := join mount_dir ["extra_files.json"] in
  let result := read_extra_files json_loads mount_dir w in
  (stat w path = None → result = (Raise (OSError ENOENT path), w))
  ∧ (∀ n, stat w path = Some n → is_dir n = true →
          result = (Raise (OSError EISDIR path), w))
  ∧ (∀ text, stat w path = Some (File text) → json_loads text = None →
             result = (Raise (JSONDecodeError "extra_files.json"), w))
  ∧ (∀ text members, stat w path = Some (File text) →
       json_loads text = Some (JObj members) →
       members !! "data" = None →
       result = (Raise (KeyError "data"), w))
  ∧ (∀ text members good files m rest, stat w path = Some (File text) →
       json_loads text = Some (JObj members) →
       members !! "data" = Some (JArr (good ++ JObj m :: rest)) →
       Forall2 (λ item file, ∃ m, item = JObj m ∧ m !! "file" = Some file)
         good files →
       m !! "file" = None →
       result = (Raise (KeyError "file"), w))
  ∧ result.2 = w
  ∧ ∀ n, result.1 ≠ SysExit n.
Proof.
  intros path result. unfold result, path.
  split_and!.
  - intros H. unfold read_extra_files, bind, read_file. by rewrite H.
  - intros n H Hd. unfold read_extra_files, bind, read_file. rewrite H.
    by destruct n.
  - intros text H Hj. unfold read_extra_files, bind, read_file, raise.
    by rewrite H, Hj.
  - intros text members H Hj Hd.
    unfold read_extra_files, bind, read_file, ret, lift.
    rewrite H, Hj. cbn [py_getitem]. by rewrite Hd.
  - intros text members good files m rest H Hj Hd Hgood Hm.
    unfold read_extra_files, bind, read_file, ret, lift.
    rewrite H, Hj. cbn [py_getitem]. rewrite Hd. cbn [obind py_iter].
    rewrite (item_files_Raise good files (JObj m) rest (KeyError "file") Hgood); [done|].
    cbn [py_getitem]. by rewrite Hm.
  - destruct (read_extra_files _ _ _) as [r w'] eqn:E.
    by apply read_extra_files_world in E as [-> _].
  - destruct (read_extra_files _ _ _) as [r w'] eqn:E.
    by apply read_extra_files_world in E as [_ ?].
Qed.

(** ** [main]: runs that end early *)

(** X15.  When the manifest cannot be read, whatever the reason, the scope is
    left with that error before anything is copied; if one of the five
    [umount] attempts succeeds, the program ends with the same error and
    the tree is exactly what it was before the run: no destination, no
    mount, no temporary directory. *)
Theorem main_without_manifest (json_loads : string → option json)
    (ini_parse : string → option ConfigParser.t)
    (sys_argv : list string) (isofile destdir : string)
    (w : world) (mp : string) (wa wb : world) (e : exn) :
  process_args (tail sys_argv) [] = PArgs [isofile; destdir] →
  stat w destdir = None →
  mkdtemp ".rhel-8-iso" w = (Return mp, wa) →
  run ["mount"; "-o"; "loop"; isofile; mp] false wa = (Return true, wb) →
  (read_extra_files json_loads mp wb).1 = Raise e →
  (∃ i, (i < 5)%nat ∧ next_rc wb i ["umount"; mp] = 0) →
  ∃ w',
    main json_loads ini_parse sys_argv w = (Raise e, w')
    ∧ w_root w' = w_root w
    ∧ w_cwd w' = w_cwd w
    ∧ stat w' destdir = None
    ∧ stat w' mp = None.
Proof.
  intros Hargs Hdest Hmk Hrun Hread Hsome.
  assert (Hbody : copy_variants json_loads mp destdir wb = (Raise e, wb)).
  { unfold copy_variants, bind.
    destruct (read_extra_files json_loads mp wb) as [r w1] eqn:E.
    apply read_extra_files_world in E as [-> _]. cbn [fst] in Hread. by subst r. }
  pose proof (run_true _ _ _ _ Hrun) as Hrc.
  destruct (scope_mounted isofile w mp wa Hmk Hrc)
    as (pm & wb' & Hrun' & Hres & Hne & Hfree & Hcb & Hab & Hpb).
  assert (wb' = wb) as -> by congruence.
  destruct (teardown_releases mp pm (w_image w isofile) wb)
    as (w3 & Hfin & Ha3 & Hw3 & Hc3); [congruence | done | done | done |].
  assert (Hroot : w_root w3 = w_root w).
  { apply (altered_in_place_back pm); [by eapply altered_in_place_trans | congruence]. }
  exists w3.
  assert (Hiso : mount_iso isofile (λ mount_dir, copy_variants json_loads mount_dir destdir) w
                 = (Raise e, w3)).
  { by rewrite (mount_iso_entered isofile _ w mp wa wb (Raise e) wb (Return tt) w3). }
  split_and!.
  - unfold main, bind, parse_args. rewrite Hargs.
    unfold ret, os_path_exists. rewrite (os_stat_None _ _ Hdest). by rewrite Hiso.
  - done.
  - congruence.
  - unfold stat in *. by rewrite Hroot, Hc3, Hcb.
  - unfold stat. rewrite Hc3, Hcb, Hres. done.
Qed.

(** ** The command line *)

(** An argument that is not taken for an option: it does not start with
    a dash, or it is the single dash. *)
Lemma process_args_positional (pre rest acc : list string) :
  Forall (λ a, startswith a "-" = false ∨ a = "-") pre →
  process_args (pre ++ rest) acc = process_args rest (acc ++ pre).
Proof.
  intros Hpre. revert acc.
  induction Hpre as [|a pre Ha _ IH]; intros acc.
  - by rewrite app_nil_r.
  - cbn [app process_args].
    assert (a ≠ "--") as Hne by (by destruct Ha as [Ha| ->]; [intros ->|]).
    rewrite bool_decide_false by done.
    assert (startswith a "--" = false) as ->.
    { destruct Ha as [Ha| ->]; [|done].
      destruct a as [|c a]; [done|]. unfold startswith in *.
      cbn [String.prefix] in Ha |- *.
      destruct (ascii_dec "-" c); [|done]. by rewrite prefix_empty in Ha. }
    assert ((startswith a "-" && bool_decide (a ≠ "-"))%bool = false) as ->.
    { destruct Ha as [-> | ->]; [done|]. by rewrite bool_decide_false by naive_solver. }
    by rewrite IH, <- app_assoc.
Qed.

(** X16.  The positional arguments are the arguments that do not look like
    options, in their order; after [--] every argument is positional;
    and an argument that looks like an option ends the run at once, with
    status 0 (help) or 2 (error), before anything is touched or started. *)
Theorem command_line (json_loads : string → option json)
    (ini_parse : string → option ConfigParser.t)
    (prog : string) (pre : list string) :
  Forall (λ a, startswith a "-" = false ∨ a = "-") pre →
  process_args pre [] = PArgs pre
  ∧ (∀ post, process_args (pre ++ "--" :: post) [] = PArgs (pre ++ post))
  ∧ (∀ opt post w,
       startswith opt "-" = true → opt ≠ "-" → opt ≠ "--" →
       ∃ code w',
         main json_loads ini_parse (prog :: pre ++ opt :: post) w
         = (SysExit code, w')
         ∧ (code = 0 ∨ code = 2)
         ∧ w_root w' = w_root w ∧ w_cwd w' = w_cwd w
         ∧ w_tmpnames w' = w_tmpnames w ∧ w_nproc w' = w_nproc w).
Proof.
  intros Hpre. split_and!.
  - rewrite <- (app_nil_r pre) at 1. by rewrite process_args_positional.
  - intros post. rewrite process_args_positional by done.
    cbn [process_args app]. by rewrite bool_decide_true.
  - intros opt post w Hopt Hne1 Hne2.
    unfold main, bind, parse_args. cbn [tail].
    rewrite process_args_positional by done. cbn [process_args app].
    rewrite bool_decide_false by done. rewrite Hopt.
    rewrite (bool_decide_true (opt ≠ "-")) by done. cbn [andb].
    destruct (startswith opt "--").
    + unfold process_long_opt. destruct (split_eq opt) as [o v].
      destruct (startswith "--help" o); [destruct v|]; by eexists _, _; split_and!; eauto.
    + unfold process_short_opts.
      destruct opt as [|c1 [|c2 opt]]; try by eexists _, _; split_and!; eauto.
      destruct (Ascii.eqb c2 "h"); by eexists _, _; split_and!; eauto.
Qed.

(** ** The processes a run starts *)

Lemma commands_app l1 l2 : commands (l1 ++ l2) = commands l1 ++ commands l2.
Proof. unfold commands. apply omap_app. Qed.

Lemma quiet_still {A} (c : M A) : (∀ w, (c w).2 = w) → quiet c.
Proof.
  intros H w r w' E. exists []. specialize (H w). rewrite E in H. cbn in H.
  subst. by rewrite app_nil_r.
Qed.

Lemma quiet_same_log {A} (c : M A) :
  (∀ w, w_log (c w).2 = w_log w) → quiet c.
Proof.
  intros H w r w' E. exists []. specialize (H w). rewrite E in H. cbn in H.
  by rewrite app_nil_r.
Qed.

Lemma quiet_bind {A B} (c : M A) (k : A → M B) :
  quiet c → (∀ a, quiet (k a)) → quiet (bind c k).
Proof.
  intros Hc Hk w r w'. unfold bind.
  destruct (c w) as [[a|e|n] w1] eqn:E.
  - intros E2. destruct (Hc _ _ _ E) as (new1 & L1 & C1).
    destruct (Hk a _ _ _ E2) as (new2 & L2 & C2).
    exists (new1 ++ new2). rewrite L2, L1, <- app_assoc. split; [done|].
    by rewrite commands_app, C1, C2.
  - intros [= <- <-]. by apply (Hc _ _ _ E).
  - intros [= <- <-]. by apply (Hc _ _ _ E).
Qed.

Lemma quiet_for_each {A} (l : list A) (body : A → M unit) :
  (∀ x, quiet (body x)) → quiet (for_each l body).
Proof.
  intros Hb. induction l as [|x l IH]; cbn [for_each].
  - by apply quiet_still.
  - apply quiet_bind; [apply Hb|]. by intros _.
Qed.

Lemma quiet_log e : commands [e] = [] → quiet (log e).
Proof. intros He w r w' [= <- <-]. by exists [e]. Qed.

Lemma quiet_fs_update mk path f : quiet (fs_update mk path f).
Proof.
  apply quiet_same_log. intros w. unfold fs_update.
  destruct (resolve _ _); [|done]. by destruct (alter_at _ _ _ _ _).
Qed.

Lemma quiet_read_file path : quiet (read_file path).
Proof.
  apply quiet_still. intros w. unfold read_file.
  by destruct (stat w path) as [[]|].
Qed.

Lemma quiet_shutil_copy src dst : quiet (shutil_copy src dst).
Proof.
  unfold shutil_copy. apply quiet_bind; [by apply quiet_log|]. intros _.
  apply quiet_bind; [by apply quiet_still|]. intros d.
  apply quiet_bind; [by apply quiet_still|]. intros [].
  - by apply quiet_still.
  - apply quiet_bind; [apply quiet_read_file|]. intros data. apply quiet_fs_update.
Qed.

Lemma quiet_copytree src dst : quiet (copytree src dst).
Proof.
  unfold copytree, shutil_copytree.
  apply quiet_bind; [by apply quiet_log|]. intros _.
  apply quiet_bind; [|intros n; apply quiet_fs_update].
  apply quiet_still. intros w. by destruct (stat w src) as [[]|].
Qed.

Lemma quiet_copy_boot_files srcdir destdir ignore :
  quiet (copy_boot_files srcdir destdir ignore).
Proof.
  rewrite copy_boot_files_unfold. apply quiet_bind.
  - apply quiet_still. intros w. unfold os_listdir.
    destruct (stat w srcdir) as [n|]; [|done]. by destruct (entries n).
  - intros listing. apply quiet_for_each. intros fname. unfold boot_step.
    destruct (boot_ignored ignore fname); [by apply quiet_still|].
    apply quiet_bind; [by apply quiet_still|].
    intros []; [apply quiet_copytree | apply quiet_shutil_copy].
Qed.

Lemma quiet_read_extra_files json_loads mount_dir :
  quiet (read_extra_files json_loads mount_dir).
Proof.
  apply quiet_still. intros w.
  destruct (read_extra_files json_loads mount_dir w) as [r w'] eqn:E.
  by apply read_extra_files_world in E as [-> _].
Qed.

Lemma quiet_copy_variants json_loads mount_dir destdir :
  quiet (copy_variants json_loads mount_dir destdir).
Proof.
  unfold copy_variants.
  apply quiet_bind; [apply quiet_read_extra_files|]. intros extra_files.
  apply quiet_bind; [|intros _; apply quiet_copy_boot_files].
  apply quiet_for_each. intros variant.
  apply quiet_bind; [apply quiet_copytree|]. intros _.
  apply quiet_bind; apply quiet_for_each || intros _.
  - intros fname. apply quiet_shutil_copy.
  - apply quiet_for_each. intros item.
    apply quiet_bind; [by apply quiet_still|]. intros fname. apply quiet_shutil_copy.
Qed.

Lemma quiet_edit_file ini_parse edit path : quiet (edit_file ini_parse edit path).
Proof.
  unfold edit_file. apply quiet_bind.
  - apply quiet_still. intros w.
    destruct (read_config ini_parse path w) as [r w'] eqn:E.
    by apply read_config_world in E as [-> _].
  - intros ti. apply quiet_bind; [by apply quiet_still|]. intros ti'.
    unfold write_file. apply quiet_bind; [by apply quiet_log|]. intros _.
    apply quiet_fs_update.
Qed.

Lemma quiet_mkdtemp suffix : quiet (mkdtemp suffix).
Proof.
  intros w r w' E. exists [EvFs "mkdtemp" [suffix]]. split; [|done].
  unfold mkdtemp in E. revert E.
  change (w_log w ++ [EvFs "mkdtemp" [suffix]])
    with (w_log (add_log (EvFs "mkdtemp" [suffix]) w)).
  generalize (add_log (EvFs "mkdtemp" [suffix]) w). generalize (w_tmpnames w).
  intros candidates. induction candidates as [|name rest IH]; intros w0.
  - by intros [= <- <-].
  - cbn [mkdtemp_from]. cbv zeta.
    generalize (join "/tmp" ["tmp" +:+ name +:+ suffix]). intros file.
    destruct (os_mkdir _ _) as [r1 w1] eqn:E1.
    assert (w_log w1 = w_log w0 ∧ (∀ e, r1 = Raise e → w1 = set_tmpnames rest w0))
      as [Hl Hw].
    { revert E1. unfold os_mkdir, fs_update. cbn [w_cwd w_root set_tmpnames].
      destruct (resolve _ _); [|by intros [= <- <-]].
      by destruct (alter_at _ _ _ _ _); intros [= <- <-]. }
    destruct r1 as [[]|e|n]; [by intros [= <- <-] | | by intros [= <- <-]].
    rewrite (Hw e eq_refl).
    destruct e as [[] ?| | | | | | |]; try (by intros [= <- <-]).
    intros E. apply IH in E. done.
Qed.

(** Running a command puts that command, and no other, into the log. *)
Lemma run_commands cmd can_fail w r w' :
  run cmd can_fail w = (r, w') →
  ∃ new, w_log w' = w_log w ++ new ∧ commands new = [cmd].
Proof.
  unfold run, bind. rewrite popen_eq. cbn beta iota.
  assert (Hl : w_log (after_process cmd w) = w_log w ++ [EvExec cmd (next_rc w 0 cmd)]).
  { unfold after_process. case_bool_decide; [|done].
    by destruct (process_effect_fields cmd
                   (add_log (EvExec cmd (next_rc w 0 cmd)) (set_nproc (S (w_nproc w)) w)))
      as (_ & _ & _ & _ & _ & ->). }
  case_bool_decide.
  - intros [= <- <-]. by eexists.
  - destruct can_fail; [intros [= <- <-]; by eexists|].
    unfold print_stderr, log, sys_exit. cbn beta iota. intros [= <- <-].
    eexists [_; _; _]. cbn [w_log add_log]. rewrite Hl, <- !app_assoc. done.
Qed.

Lemma failed_attempts_commands cmd rcs t0 :
  commands (failed_attempts cmd rcs t0) = replicate (length rcs) cmd.
Proof.
  revert t0. induction rcs as [|rc rcs IH]; intros t0; [done|].
  cbn [failed_attempts length replicate]. cbn. f_equal. apply IH.
Qed.

(** The teardown starts [umount] between one and five times, and nothing
    else. *)
Lemma teardown_commands mp w r w' :
  mount_iso_finally mp w = (r, w') →
  ∃ new j, w_log w' = w_log w ++ new
           ∧ (1 ≤ j ≤ 5)%nat
           ∧ commands new = replicate j ["umount"; mp].
Proof.
  unfold mount_iso_finally, bind.
  destruct (umount_retry_spec mp 5 0 w)
    as (k & w2 & Hk & _ & _ & Hrun & Hlog & _).
  rewrite Hrun. intros Hrm. apply os_rmdir_log in Hrm as [Hl3 _].
  eexists _, (k + if decide (k < 5)%nat then 1 else 0)%nat.
  rewrite Hl3, Hlog, <- !app_assoc. split; [done|]. split.
  - destruct (decide (k < 5)%nat); lia.
  - rewrite !commands_app, failed_attempts_commands, length_fmap, length_seq.
    destruct (decide (k < 5)%nat); cbn.
    + by rewrite Nat.add_1_r, replicate_S_end.
    + by rewrite app_nil_r, Nat.add_0_r.
Qed.

(** The scope starts [mount] once, and if the mount succeeds [umount]
    between one and five times, whatever the body does, provided the body
    starts nothing. *)
Lemma scope_commands {A} image (body : string → M A) w r w' :
  (∀ mp, quiet (body mp)) →
  mount_iso image body w = (r, w') →
  ∃ new mp j,
    w_log w' = w_log w ++ new
    ∧ (j ≤ 5)%nat
    ∧ commands new `prefix_of`
        ["mount"; "-o"; "loop"; image; mp] :: replicate j ["umount"; mp]
    ∧ ((∃ x, r = Return x) →
       (1 ≤ j)%nat
       ∧ commands new
         = ["mount"; "-o"; "loop"; image; mp] :: replicate j ["umount"; mp]).
Proof.
  intros Hq. unfold mount_iso, bind.
  destruct (mkdtemp ".rhel-8-iso" w) as [rm wa] eqn:Emk.
  destruct (quiet_mkdtemp _ _ _ _ Emk) as (n1 & L1 & C1).
  destruct rm as [mp|e|n].
  2,3: intros [= <- <-]; exists n1, "", 0%nat; rewrite C1;
       split_and!; [done | lia | apply prefix_nil | by intros [x [=]]].
  destruct (run _ false wa) as [rr wb] eqn:Erun.
  destruct (run_commands _ _ _ _ _ Erun) as (n2 & L2 & C2).
  destruct rr as [ok|e|n].
  2,3: intros [= <- <-]; exists (n1 ++ n2), mp, 0%nat;
       rewrite L2, L1, <- app_assoc, commands_app, C1, C2;
       split_and!; [done | lia | done | by intros [x [=]]].
  unfold try_finally.
  destruct (body mp wb) as [rb w1] eqn:Eb.
  destruct (Hq mp _ _ _ Eb) as (n3 & L3 & C3).
  destruct (mount_iso_finally mp w1) as [rf w3] eqn:Ef.
  destruct (teardown_commands _ _ _ _ Ef) as (n4 & j & L4 & Hj & C4).
  assert (Hall : w_log w3 = w_log w ++ (n1 ++ n2 ++ n3 ++ n4)
                 ∧ commands (n1 ++ n2 ++ n3 ++ n4)
                   = ["mount"; "-o"; "loop"; image; mp] :: replicate j ["umount"; mp]).
  { rewrite L4, L3, L2, L1, <- !app_assoc, !commands_app, C1, C2, C3, C4. done. }
  destruct Hall as [Hl Hc].
  intros E. assert (w' = w3) as -> by (by destruct rf; injection E).
  exists (n1 ++ n2 ++ n3 ++ n4), mp, j. rewrite Hc.
  split_and!; [done | lia | done | intros _; split; [lia|done]].
Qed.

Lemma early_exit_trace (P : list event → string → string → string → nat → Prop)
    (w w' : world) (r : outcome unit) (new : list event) :
  w_log w' = w_log w ++ new →
  commands new = [] →
  r ≠ Return tt →
  ∃ new isofile destdir mp j,
    w_log w' = w_log w ++ new
    ∧ (j ≤ 5)%nat
    ∧ commands new `prefix_of`
        ["mount"; "-o"; "loop"; isofile; mp]
        :: replicate j ["umount"; mp] ++ [["chmod"; "u+w"; "-R"; destdir]]
    ∧ (r = Return tt → P new isofile destdir mp j).
Proof.
  intros L C Hr. exists new, "", "", "", 0%nat. rewrite C.
  split_and!; [done | lia | apply prefix_nil | done].
Qed.

Lemma parser_error_trace {A} prog msg w r w' :
  parser_error (A := A) prog msg w = (r, w') →
  r = SysExit 2
  ∧ w_log w' = w_log w ++ [EvStderr (usage_text prog);
                            EvStderr (prog +:+ ": error: " +:+ msg +:+ nl)].
Proof.
  unfold parser_error, bind, print_stderr, log, sys_exit. intros [= <- <-].
  cbn [w_log add_log]. by rewrite <- app_assoc.
Qed.

(** X17.  A run starts [mount -o loop] on the image, then [umount] on the mount
    point, up to five times, then [chmod u+w -R] on the destination, and
    no other process; the log of any run, however it ends, holds a
    beginning of this sequence, and the log of a run that returns holds all
    of it, with at least one [umount]. *)
Theorem main_starts_three_commands (json_loads : string → option json)
    (ini_parse : string → option ConfigParser.t)
    (sys_argv : list string) (w : world) (r : outcome unit) (w' : world) :
  main json_loads ini_parse sys_argv w = (r, w') →
  ∃ new isofile destdir mp j,
    w_log w' = w_log w ++ new
    ∧ (j ≤ 5)%nat
    ∧ commands new `prefix_of`
        ["mount"; "-o"; "loop"; isofile; mp]
        :: replicate j ["umount"; mp] ++ [["chmod"; "u+w"; "-R"; destdir]]
    ∧ (r = Return tt →
       process_args (tail sys_argv) [] = PArgs [isofile; destdir]
       ∧ (1 ≤ j)%nat
       ∧ commands new
         = ["mount"; "-o"; "loop"; isofile; mp]
           :: replicate j ["umount"; mp] ++ [["chmod"; "u+w"; "-R"; destdir]]).
Proof.
  unfold main, parse_args.
  destruct (process_args (tail sys_argv) []) as [args| |msg] eqn:Hargs.
  2:{ unfold bind, log, sys_exit. intros [= <- <-].
      by eapply (early_exit_trace _ _ _ _ [_]). }
  2:{ unfold bind. destruct (parser_error _ _ w) as [r0 w0] eqn:E0.
      apply parser_error_trace in E0 as [-> L]. intros [= <- <-].
      by eapply (early_exit_trace _ _ _ _ _ L). }
  unfold bind at 1. unfold ret.
  assert (Herr : ∀ msg,
            parser_error (basename (default "" (head sys_argv))) msg w = (r, w') →
            ∃ new isofile destdir mp j,
              w_log w' = w_log w ++ new
              ∧ (j ≤ 5)%nat
              ∧ commands new `prefix_of`
                  ["mount"; "-o"; "loop"; isofile; mp]
                  :: replicate j ["umount"; mp] ++ [["chmod"; "u+w"; "-R"; destdir]]
              ∧ (r = Return tt →
                 PArgs args = PArgs [isofile; destdir]
                 ∧ (1 ≤ j)%nat
                 ∧ commands new
                   = ["mount"; "-o"; "loop"; isofile; mp]
                     :: replicate j ["umount"; mp]
                        ++ [["chmod"; "u+w"; "-R"; destdir]])).
  { intros msg [-> L]%parser_error_trace.
    by eapply (early_exit_trace _ _ _ _ _ L). }
  destruct args as [|isofile [|destdir [|]]]; try apply Herr.
  unfold bind at 1. unfold os_path_exists.
  destruct (os_stat w destdir); [apply Herr|]. clear Herr.
  unfold bind at 1.
  destruct (mount_iso (A := unit) isofile _ w) as [r1 w1] eqn:E1.
  destruct (scope_commands isofile _ w r1 w1
              (λ mp, quiet_copy_variants json_loads mp destdir) E1)
    as (n1 & mp & j & L1 & Hj & P1 & F1).
  assert (Hprefix : ∀ l, l `prefix_of`
                           ["mount"; "-o"; "loop"; isofile; mp]
                           :: replicate j ["umount"; mp] →
                         l `prefix_of`
                           ["mount"; "-o"; "loop"; isofile; mp]
                           :: replicate j ["umount"; mp]
                              ++ [["chmod"; "u+w"; "-R"; destdir]]).
  { intros l Hl. etrans; [exact Hl|].
    by apply prefix_cons, prefix_app_r. }
  destruct r1 as [[]|e|n].
  2,3: intros [= <- <-]; exists n1, isofile, destdir, mp, j;
       split_and!; [done | done | by apply Hprefix | done].
  destruct F1 as [Hj1 C1]; [by eexists|].
  unfold bind at 1.
  destruct (tweak_baseos_treeinfo _ _ w1) as [r2 w2] eqn:E2.
  destruct (quiet_edit_file _ _ _ _ _ _ E2) as (n2 & L2 & C2).
  destruct r2 as [[]|e|n].
  2,3: intros [= <- <-]; exists (n1 ++ n2), isofile, destdir, mp, j;
       rewrite L2, L1, <- app_assoc, commands_app, C1, C2, app_nil_r;
       split_and!; [done | done | by apply Hprefix | done].
  unfold bind at 1.
  destruct (tweak_appstream_treeinfo _ _ w2) as [r3 w3] eqn:E3.
  destruct (quiet_edit_file _ _ _ _ _ _ E3) as (n3 & L3 & C3).
  destruct r3 as [[]|e|n].
  2,3: intros [= <- <-]; exists (n1 ++ n2 ++ n3), isofile, destdir, mp, j;
       rewrite L3, L2, L1, <- !app_assoc, !commands_app, C1, C2, C3, !app_nil_r;
       split_and!; [done | done | by apply Hprefix | done].
  unfold bind, ret.
  destruct (run _ false w3) as [r4 w4] eqn:E4.
  destruct (run_commands _ _ _ _ _ E4) as (n4 & L4 & C4).
  assert (Hfull : w_log w4 = w_log w ++ (n1 ++ n2 ++ n3 ++ n4)
                  ∧ commands (n1 ++ n2 ++ n3 ++ n4)
                    = ["mount"; "-o"; "loop"; isofile; mp]
                      :: replicate j ["umount"; mp]
                         ++ [["chmod"; "u+w"; "-R"; destdir]]).
  { rewrite L4, L3, L2, L1, <- !app_assoc, !commands_app, C1, C2, C3, C4. done. }
  destruct Hfull as [Lf Cf].
  intros E. assert (w' = w4) as -> by (by destruct r4; injection E).
  exists (n1 ++ n2 ++ n3 ++ n4), isofile, destdir, mp, j. rewrite Cf.
  split_and!; [done | done | done | done].
Qed.

(** ** What a run leaves alone *)

(** *** Paths once more: joining a name that holds no slash *)

Lemma split_slash_free s : Forall (λ c, split_slash c = [c]) (split_slash s).
Proof.
  induction s as [|a s IH]; [by repeat constructor|].
  cbn [split_slash]. destruct (Ascii.eqb a "/") eqn:Ea.
  - by constructor.
  - destruct (split_slash s) as [|x r] eqn:Hs; [by destruct (split_slash_nonempty s)|].
    inversion IH as [|? ? Hx Hr]; subst. constructor; [|done].
    cbn [split_slash]. by rewrite Ea, Hx.
Qed.

Lemma basename_free s : split_slash (basename s) = [basename s].
Proof.
  unfold basename. pose proof (split_slash_free s) as H.
  destruct (last (split_slash s)) as [b|] eqn:Hl; [|done].
  apply last_Some in Hl as [l' Hl']. rewrite Hl' in H.
  by apply Forall_app in H as [_ [H _]%Forall_cons].
Qed.

Lemma slash_free_relative b : split_slash b = [b] → startswith b "/" = false.
Proof.
  destruct b as [|a b]; [done|]. unfold startswith. cbn [String.prefix split_slash].
  destruct (ascii_dec "/" a) as [<-|Hne].
  - cbn. pose proof (split_slash_nonempty b). by destruct (split_slash b).
  - done.
Qed.

Lemma rbase_join2_free cwd d b :
  split_slash b = [b] →
  rbase cwd (join2 d b) = norm_step (rbase cwd d) b.
Proof.
  intros Hsp. pose proof (slash_free_relative b Hsp) as Hst.
  unfold join2. rewrite Hst.
  destruct (decide (d = "")) as [->|Hd].
  - rewrite bool_decide_true by done. cbn [orb].
    change ("" +:+ b) with b. unfold rbase. rewrite Hst, Hsp. done.
  - rewrite (bool_decide_false (d = "")) by done. cbn [orb].
    destruct (endswith_slash d) eqn:He.
    + unfold endswith_slash in He.
      destruct (last (split_slash d)) as [[|]|] eqn:Hl; try done.
      pose proof (split_slash_after_slash d b Hsp Hl) as Hsplit.
      apply last_Some in Hl as [l' Hl'].
      rewrite Hl', removelast_last in Hsplit.
      unfold rbase. rewrite startswith_app by done. rewrite Hsplit, Hl'.
      rewrite !fold_left_app. cbn [fold_left]. reflexivity.
    + pose proof (split_slash_sep d b Hsp) as Hsplit.
      unfold rbase. rewrite startswith_app by done. rewrite Hsplit.
      by rewrite fold_left_app.
Qed.

Lemma norm_step_under D x V b :
  (D ++ [x]) `prefix_of` V → D `prefix_of` norm_step V b.
Proof.
  intros [r ->]. unfold norm_step.
  case_bool_decide; [|case_bool_decide].
  - exists ([x] ++ r). by rewrite app_assoc.
  - rewrite <- app_assoc. cbn [app].
    exists (removelast (x :: r)). by rewrite removelast_app.
  - exists ([x] ++ r ++ [b]). by rewrite !app_assoc.
Qed.

Lemma diverge_under D p q : D `prefix_of` p → diverge D q → diverge p q.
Proof. intros [r ->]. apply diverge_below. Qed.

(** *** The calculus *)

Section keeps.
Variables (cwd D pm : list string) (img : gmap string node) (u : node).
Local Abbreviation keeps' := (keeps cwd D pm img u).

Lemma keeps_still {A} (c : M A) :
  (∀ w, w_root (c w).2 = w_root w ∧ w_cwd (c w).2 = w_cwd w) → keeps' c.
Proof.
  intros H w r w' Hc Hm E. destruct (H w) as [Hr Hw]. rewrite E in Hr, Hw.
  cbn [snd] in *. rewrite Hr. split_and!; [congruence | done | done].
Qed.

Lemma keeps_bind {A B} (c : M A) (k : A → M B) :
  keeps' c → (∀ a, keeps' (k a)) → keeps' (bind c k).
Proof.
  intros Hc Hk w r w' Hw Hm. unfold bind.
  destruct (c w) as [[a|e|n] w1] eqn:E.
  - intros E2. destruct (Hc _ _ _ Hw Hm E) as (Hw1 & Hm1 & F1).
    destruct (Hk a _ _ _ Hw1 Hm1 E2) as (Hw2 & Hm2 & F2).
    split_and!; [done..|]. intros q Hq. by rewrite F2, F1.
  - intros [= <- <-]. by apply (Hc _ _ _ Hw Hm E).
  - intros [= <- <-]. by apply (Hc _ _ _ Hw Hm E).
Qed.

Lemma keeps_for_each {A} (l : list A) (body : A → M unit) :
  (∀ x, x ∈ l → keeps' (body x)) → keeps' (for_each l body).
Proof.
  induction l as [|x l IH]; intros Hb; cbn [for_each].
  - by apply keeps_still.
  - apply keeps_bind; [apply Hb; set_solver|]. intros _. apply IH.
    intros y ?. apply Hb. set_solver.
Qed.

Lemma keeps_fs_update mk path f :
  refuses_dirs f →
  (∀ p, resolve cwd path = Some p → D `prefix_of` p) →
  keeps' (fs_update mk path f).
Proof.
  intros Hf Hunder w r w' Hw Hm E.
  destruct (resolve cwd path) as [p|] eqn:Hp.
  2:{ unfold fs_update in E. rewrite Hw, Hp in E. by injection E as <- <-. }
  specialize (Hunder p eq_refl). rewrite <- Hw in Hp.
  destruct (fs_update_frame _ _ _ _ _ _ _ E Hp) as [Hc F].
  split_and!; [congruence | |].
  - destruct r as [[]|e|n].
    + apply fs_update_altered with (p := p) in E as (o & _ & Ha & Hclear); [|done].
      rewrite (altered_frame _ _ _ _ pm Ha); [done|]. by eapply Hclear.
    + unfold fs_update in E. rewrite Hp in E.
      destruct (alter_at _ _ _ _ _); by simplify_eq.
    + unfold fs_update in E. rewrite Hp in E.
      destruct (alter_at _ _ _ _ _); by simplify_eq.
  - intros q Hq. apply F. by eapply diverge_under.
Qed.

Lemma keeps_put_file path data :
  (∀ p, resolve cwd path = Some p → D `prefix_of` p) →
  keeps' (put_file path data).
Proof.
  intros H. apply keeps_fs_update; [|done].
  intros x Hx. destruct x; try done; by eexists.
Qed.

Lemma keeps_shutil_copy src dst :
  (∀ p, resolve cwd dst = Some p → D `prefix_of` p) →
  (∀ p, resolve cwd (join dst [basename src]) = Some p → D `prefix_of` p) →
  keeps' (shutil_copy src dst).
Proof.
  intros H1 H2. unfold shutil_copy.
  apply keeps_bind; [by apply keeps_still|]. intros _.
  apply keeps_bind; [by apply keeps_still|]. intros d.
  apply keeps_bind; [by apply keeps_still|]. intros [].
  - by apply keeps_still.
  - apply keeps_bind.
    + apply keeps_still. intros w. unfold read_file. by destruct (stat w src) as [[]|].
    + intros data. apply keeps_put_file. by destruct d.
Qed.

Lemma keeps_copytree src dst :
  (∀ p, resolve cwd dst = Some p → D `prefix_of` p) →
  keeps' (copytree src dst).
Proof.
  intros H. unfold copytree, shutil_copytree.
  apply keeps_bind; [by apply keeps_still|]. intros _.
  apply keeps_bind.
  - apply keeps_still. intros w. by destruct (stat w src) as [[]|].
  - intros n. apply keeps_fs_update; [|done]. intros x _. by eexists.
Qed.

End keeps.

Section keeps_copy.
Variables (cwd pm : list string) (img : gmap string node) (u : node).
Variables (mp destdir : string).
Hypothesis Hmp : resolve cwd mp = Some pm.
Hypothesis Himg : forallb simple_name (names img) = true.
Local Abbreviation D := (rbase cwd destdir).
Local Abbreviation keeps' := (keeps cwd D pm img u).

Lemma keeps_bind_value {A B} (P : A → Prop) (c : M A) (k : A → M B) :
  keeps' c →
  (∀ w a w', w_cwd w = cwd → walk (w_root w) pm = Some (Mnt img u) →
             c w = (Return a, w') → P a) →
  (∀ a, P a → keeps' (k a)) →
  keeps' (bind c k).
Proof.
  intros Hc HP Hk w r w' Hw Hm. unfold bind.
  destruct (c w) as [[a|e|n] w1] eqn:E.
  - intros E2. destruct (Hc _ _ _ Hw Hm E) as (Hw1 & Hm1 & F1).
    destruct (Hk a (HP _ _ _ Hw Hm E) _ _ _ Hw1 Hm1 E2) as (Hw2 & Hm2 & F2).
    split_and!; [done..|]. intros q Hq. by rewrite F2, F1.
  - intros [= <- <-]. by apply (Hc _ _ _ Hw Hm E).
  - intros [= <- <-]. by apply (Hc _ _ _ Hw Hm E).
Qed.

Lemma under_self d x p :
  (D ++ [x]) `prefix_of` rbase cwd d →
  resolve cwd d = Some p → D `prefix_of` p.
Proof.
  intros [r Hr] [_ <-]%resolve_rbase. rewrite Hr, <- app_assoc. by eexists.
Qed.

Lemma under_join_basename d src x p :
  (D ++ [x]) `prefix_of` rbase cwd d →
  resolve cwd (join d [basename src]) = Some p → D `prefix_of` p.
Proof.
  intros Hd [_ <-]%resolve_rbase. cbn [join fold_left].
  rewrite rbase_join2_free by apply basename_free.
  by eapply norm_step_under.
Qed.

Lemma under_join_simple d names x p :
  (D ++ [x]) `prefix_of` rbase cwd d →
  Forall (λ name, simple_name name = true) names → names ≠ [] →
  resolve cwd (join d names) = Some p →
  (D ++ [x]) `prefix_of` p.
Proof.
  intros [r Hr] Hall Hne. rewrite (join_simple _ _ _ Hall Hne). intros [= <-].
  rewrite Hr, <- app_assoc. by eexists.
Qed.

Lemma rbase_variant_dir names :
  Forall (λ name, simple_name name = true) names → names ≠ [] →
  rbase cwd (join destdir names) = D ++ names.
Proof.
  intros Hall Hne. pose proof (join_simple cwd destdir names Hall Hne) as H.
  by apply resolve_rbase in H as [_ ->].
Qed.

Lemma keeps_copy_into src d x :
  (D ++ [x]) `prefix_of` rbase cwd d →
  keeps' (shutil_copy src d).
Proof.
  intros Hd. apply keeps_shutil_copy.
  - intros p. by eapply under_self.
  - intros p. by eapply under_join_basename.
Qed.

Lemma keeps_copy_boot_files B x ignore :
  (D ++ [x]) `prefix_of` rbase cwd B →
  keeps' (copy_boot_files mp B ignore).
Proof.
  intros HB. rewrite copy_boot_files_unfold.
  apply (keeps_bind_value (λ listing, listing = names img)).
  - apply keeps_still. intros w. unfold os_listdir.
    destruct (stat w mp) as [n|]; [|done]. by destruct (entries n).
  - intros w listing w' Hw Hm. unfold os_listdir, stat. rewrite Hw, Hmp.
    cbn [mbind option_bind]. rewrite Hm. cbn [entries]. by intros [= <- _].
  - intros listing ->. apply keeps_for_each. intros fname Hin.
    assert (Hs : simple_name fname = true).
    { rewrite forallb_forall in Himg. apply Himg. by apply list_elem_of_In. }
    unfold boot_step. destruct (boot_ignored ignore fname); [by apply keeps_still|].
    apply keeps_bind; [by apply keeps_still|]. intros [].
    + apply keeps_copytree. intros p Hp.
      eapply (under_join_simple B [fname] x) in Hp as [r ->]; [|done|by repeat constructor|done].
      rewrite <- app_assoc. by eexists.
    + by eapply keeps_copy_into.
Qed.

Lemma keeps_copy_variants json_loads :
  keeps' (copy_variants json_loads mp destdir).
Proof.
  unfold copy_variants.
  apply keeps_bind.
  { apply keeps_still. intros w.
    destruct (read_extra_files json_loads mp w) as [r w'] eqn:E.
    by apply read_extra_files_world in E as [-> _]. }
  intros extra_files. apply keeps_bind.
  - apply keeps_for_each. intros variant Hv.
    assert (Hvd : (D ++ [lower variant])
                  `prefix_of` rbase cwd (join destdir [lower variant; "kickstart"])).
    { rewrite rbase_variant_dir.
      - exists ["kickstart"]. by rewrite <- app_assoc.
      - apply elem_of_cons in Hv as [->|Hv]; [by repeat constructor|].
        apply elem_of_cons in Hv as [->|Hv]; [by repeat constructor|].
        by apply elem_of_nil in Hv.
      - done. }
    apply keeps_bind.
    { apply keeps_copytree. intros p. by eapply under_self. }
    intros _. apply keeps_bind.
    + apply keeps_for_each. intros fname Hf.
      apply (keeps_copy_into _ _ (lower variant)).
      assert (simple_name fname = true) as Hs.
      { apply elem_of_cons in Hf as [->|Hf]; [done|].
        apply elem_of_cons in Hf as [->|Hf]; [done|].
        by apply elem_of_nil in Hf. }
      destruct Hvd as [r Hr]. cbn [join fold_left] in *.
      destruct (join2_simple cwd (join2 (join2 destdir (lower variant)) "kickstart")
                  fname Hs) as (_ & -> & _).
      rewrite Hr, <- app_assoc. by eexists.
    + intros _. apply keeps_for_each. intros item _.
      apply keeps_bind; [by apply keeps_still|]. intros fname.
      by eapply keeps_copy_into.
  - intros _. apply (keeps_copy_boot_files _ "baseos").
    rewrite rbase_variant_dir by (by repeat constructor).
    exists ["kickstart"]. by rewrite <- app_assoc.
Qed.

End keeps_copy.

(** *** The scope and the whole run *)

Lemma mkdtemp_from_candidate candidates suffix w r w' :
  mkdtemp_from candidates suffix w = (r, w') →
  w_cwd w' = w_cwd w
  ∧ match r with
    | Return mp =>
        ∃ name, name ∈ candidates
                ∧ mp = join "/tmp" ["tmp" +:+ name +:+ suffix]
    | _ => w_root w' = w_root w
    end.
Proof.
  revert w. induction candidates as [|name rest IH]; intros w.
  - by intros [= <- <-].
  - cbn [mkdtemp_from]. cbv zeta.
    destruct (os_mkdir _ _) as [r1 w1] eqn:E1.
    assert (w_cwd w1 = w_cwd w
            ∧ (∀ e, r1 = Raise e → w1 = set_tmpnames rest w)
            ∧ ∀ n, r1 ≠ SysExit n) as (Hc & Hw & Hx).
    { revert E1. unfold os_mkdir, fs_update. cbn [w_cwd w_root set_tmpnames].
      destruct (resolve _ _); [|by intros [= <- <-]].
      destruct (alter_at _ _ _ _ _) eqn:Ea; intros [= <- <-]; try done.
      exfalso. revert Ea. apply alter_at_not_exit. by intros []. }
    destruct r1 as [[]|e|n]; [| |by destruct (Hx n)].
    + intros [= <- <-]. split; [done|]. exists name. split; [set_solver|done].
    + rewrite (Hw e eq_refl).
      destruct e as [[] ?| | | | | | |]; try (by intros [= <- <-]).
      intros E. apply IH in E as [Hc' Hr]. split; [done|].
      destruct r; [|done..]. destruct Hr as (name' & ? & ->).
      exists name'. split; [set_solver|done].
Qed.

Lemma run_returns cmd w ok w' :
  run cmd false w = (Return ok, w') → next_rc w 0 cmd = 0.
Proof.
  destruct (decide (next_rc w 0 cmd = 0)) as [|Hne]; [done|].
  by rewrite (run_fatal _ _ Hne).
Qed.

Lemma mount_iso_confined {A} image (body : string → M A) w r1 w1 D q :
  (∀ mp pm, resolve (w_cwd w) mp = Some pm →
            keeps (w_cwd w) D pm (w_image w image) (Dir ∅) (body mp)) →
  mount_iso image body w = (r1, w1) →
  diverge D q →
  (∀ name pm, name ∈ w_tmpnames w →
     resolve (w_cwd w) (join "/tmp" ["tmp" +:+ name +:+ ".rhel-8-iso"]) = Some pm →
     diverge pm q) →
  w_cwd w1 = w_cwd w ∧ walk (w_root w1) q = walk (w_root w) q.
Proof.
  intros Hbody E HD Hcand. revert E. unfold mount_iso, bind.
  destruct (mkdtemp ".rhel-8-iso" w) as [rm wa] eqn:Emk.
  pose proof Emk as Emk'. unfold mkdtemp in Emk'.
  apply mkdtemp_from_candidate in Emk' as [Hca Hrm].
  cbn [w_cwd w_root add_log] in Hca, Hrm.
  destruct rm as [mp|e|n]; [|intros [= <- <-]; by rewrite Hrm..].
  destruct Hrm as (name & Hname & Hmp).
  pose proof Emk as Emk'. unfold mkdtemp in Emk'.
  apply mkdtemp_from_fresh in Emk'
    as (pm & Hres & Hne & Hfree & Ha & Hp & _).
  cbn [w_cwd w_root add_log] in Hres, Ha.
  assert (Hq : diverge pm q) by (apply (Hcand name); [done|by rewrite <- Hmp]).
  assert (Fa : walk (w_root wa) q = walk (w_root w) q)
    by (by eapply altered_in_place_frame).
  destruct (run _ false wa) as [rr wb] eqn:Erun.
  pose proof (run_frame _ _ _ _ _ Erun) as [Hcb Hfb].
  assert (Fb : walk (w_root wb) q = walk (w_root wa) q).
  { destruct Hfb as [->|(mp' & p & Hl & Hp' & Hf)]; [done|].
    injection Hl as <-. rewrite Hca, Hres in Hp'. injection Hp' as <-. by apply Hf. }
  destruct rr as [ok|e|n]; [|intros [= <- <-]; split; congruence..].
  pose proof (run_returns _ _ _ _ Erun) as Hrc.
  destruct (scope_mounted image w mp wa Emk Hrc)
    as (pm' & wb' & Erun' & Hres' & _ & _ & _ & _ & Hpb).
  assert (pm' = pm) as -> by congruence.
  assert (wb' = wb) as -> by congruence.
  unfold try_finally.
  destruct (body mp wb) as [rb w2] eqn:Eb.
  destruct (Hbody mp pm Hres wb rb w2) as (Hc2 & _ & F2);
    [congruence | by apply plain_to_walk | done |].
  destruct (mount_iso_finally mp w2) as [rf w3] eqn:Ef.
  destruct (mount_iso_finally_frame mp w2 rf w3 pm Ef) as [Hc3 F3];
    [by rewrite Hc2|].
  intros E. assert (w1 = w3) as -> by (by destruct rf; injection E).
  split; [congruence|]. rewrite F3, F2 by done. congruence.
Qed.

Lemma edit_file_confined ini_parse edit path w r w' D q :
  (∀ p, resolve (w_cwd w) path = Some p → D `prefix_of` p) →
  edit_file ini_parse edit path w = (r, w') →
  diverge D q →
  w_cwd w' = w_cwd w ∧ walk (w_root w') q = walk (w_root w) q.
Proof.
  intros Hunder E HD. revert E. unfold edit_file, bind, lift.
  destruct (read_config _ _ _) as [r0 w0] eqn:E0.
  apply read_config_world in E0 as [-> _].
  destruct r0 as [t0| |]; [|by intros [= <- <-]..].
  destruct (edit t0) as [t| |]; [|by intros [= <- <-]..].
  unfold write_file, bind, log.
  destruct (put_file _ _ _) as [r2 w2] eqn:E2.
  assert (w_cwd w2 = w_cwd w ∧ walk (w_root w2) q = walk (w_root w) q) as [? ?].
  { unfold put_file in E2.
    destruct (resolve (w_cwd w) path) as [p|] eqn:Hp.
    - eapply fs_update_frame in E2 as [Hc F]; [|exact Hp].
      split; [done|]. rewrite F; [done|]. eapply diverge_under; [|done]. by apply Hunder.
    - unfold fs_update in E2. cbn [w_cwd add_log] in E2. rewrite Hp in E2.
      by injection E2 as <- <-. }
  by destruct r2; intros [= <- <-].
Qed.

(** X18.  When the destination is named by a path without [..], a run of
    the program changes nothing outside the destination directory and the
    temporary directories it may use as mount point, however the run
    ends: what lies neither at or below the destination nor at or below
    one of the candidate temporary directories is after the run what it
    was before.  (The names at the top of the image are plain file names.
    The directories the run makes on the way to the destination are the
    ones the path names; a [..] in the path would have the directory in
    front of it made as well, and that one may lie anywhere.) *)
Theorem main_touches_only_destination_and_mount_point
    (json_loads : string → option json)
    (ini_parse : string → option ConfigParser.t)
    (sys_argv : list string) (isofile destdir : string)
    (w : world) (r : outcome unit) (w' : world) (q : list string) :
  process_args (tail sys_argv) [] = PArgs [isofile; destdir] →
  ".." ∉ split_slash destdir →
  forallb simple_name (names (w_image w isofile)) = true →
  main json_loads ini_parse sys_argv w = (r, w') →
  diverge (rbase (w_cwd w) destdir) q →
  (∀ name pm, name ∈ w_tmpnames w →
     resolve (w_cwd w) (join "/tmp" ["tmp" +:+ name +:+ ".rhel-8-iso"])
     = Some pm →
     diverge pm q) →
  walk (w_root w') q = walk (w_root w) q.
Proof.
  intros Hargs _ Himg E HD Hcand. revert E.
  unfold main, parse_args. rewrite Hargs. unfold bind at 1. unfold ret.
  unfold bind at 1. unfold os_path_exists.
  destruct (os_stat w destdir).
  { unfold parser_error, bind, print_stderr, log, sys_exit. by intros [= <- <-]. }
  unfold bind at 1.
  destruct (mount_iso (A := unit) isofile _ w) as [r1 w1] eqn:E1.
  destruct (mount_iso_confined isofile
              (λ mount_dir, copy_variants json_loads mount_dir destdir)
              w r1 w1 (rbase (w_cwd w) destdir) q)
    as [Hc1 F1]; [|exact E1|done|done|].
  { intros mp pm Hres. by apply keeps_copy_variants. }
  destruct r1 as [[]|e|n]; [|by intros [= <- <-]..].
  assert (Hpath : ∀ v p,
            simple_name v = true →
            resolve (w_cwd w) (join destdir [v; "kickstart"; "treeinfo"]) = Some p →
            rbase (w_cwd w) destdir `prefix_of` p).
  { intros v p Hv. rewrite join_simple; [|by repeat constructor|done].
    intros [= <-]. by eexists. }
  unfold bind at 1.
  destruct (tweak_baseos_treeinfo _ _ w1) as [r2 w2] eqn:E2.
  destruct (edit_file_confined _ _ _ _ _ _ (rbase (w_cwd w) destdir) q
              (λ p, ltac:(rewrite Hc1; by apply (Hpath "baseos"))) E2 HD)
    as [Hc2 F2].
  destruct r2 as [[]|e|n]; [|intros [= <- <-]; congruence..].
  unfold bind at 1.
  destruct (tweak_appstream_treeinfo _ _ w2) as [r3 w3] eqn:E3.
  destruct (edit_file_confined _ _ _ _ _ _ (rbase (w_cwd w) destdir) q
              (λ p, ltac:(rewrite Hc2, Hc1; by apply (Hpath "appstream"))) E3 HD)
    as [Hc3 F3].
  destruct r3 as [[]|e|n]; [|intros [= <- <-]; congruence..].
  unfold bind.
  destruct (run _ false w3) as [r4 w4] eqn:E4.
  apply run_chmod_root in E4 as [Hr4 Hc4].
  intros E'. assert (w' = w4) as -> by (by destruct r4; injection E').
  rewrite Hr4. congruence.
Qed.

(** ** The theorems at work on the sample machines *)

Lemma tweak_baseos_treeinfo_document_witness :
  let w' := (tweak_baseos_treeinfo parse_ini "treeinfo" edit_world).2 in
  tweak_baseos_treeinfo parse_ini "treeinfo" edit_world = (Return tt, w')
  ∧ ∃ ti, stat w' "/srv/treeinfo" = Some (File (ConfigParser.write ti))
          ∧ ConfigParser.has_section ti "variant-AppStream" = false
          ∧ ConfigParser.value ti "variant-BaseOS" "repository" = Some ".".
Proof.
  intros w'.
  assert (H : tweak_baseos_treeinfo parse_ini "treeinfo" edit_world = (Return tt, w'))
    by (vm_compute; reflexivity).
  split; [exact H|].
  destruct (tweak_baseos_treeinfo_document parse_ini "treeinfo" edit_world w' H)
    as (ti0 & ti & _ & _ & Hst & Hv & _ & _ & _ & _ & _ & Hr & _).
  exists ti. split_and!; [exact Hst | exact Hv | exact Hr].
Defined.

Lemma tweak_appstream_treeinfo_document_witness :
  let w' := (tweak_appstream_treeinfo parse_ini "treeinfo" edit_world).2 in
  tweak_appstream_treeinfo parse_ini "treeinfo" edit_world = (Return tt, w')
  ∧ ∃ ti arch,
      stat w' "/srv/treeinfo" = Some (File (ConfigParser.write ti))
      ∧ ConfigParser.value ti "general" "platforms" = Some arch
      ∧ ConfigParser.value ti "tree" "platforms" = Some arch
      ∧ ConfigParser.has_section ti "stage2" = false.
Proof.
  intros w'.
  assert (H : tweak_appstream_treeinfo parse_ini "treeinfo" edit_world = (Return tt, w'))
    by (vm_compute; reflexivity).
  split; [exact H|].
  destruct (tweak_appstream_treeinfo_document parse_ini "treeinfo" edit_world w' H)
    as (ti0 & ti & arch & _ & _ & Hst & _ & _ & _ & Hs2 & _ & _ & Hp & Ht & _).
  exists ti, arch. split_and!; [exact Hst | exact Hp | exact Ht | exact Hs2].
Defined.

Lemma editors_fail_only_on_required_lookups_witness :
  let ti := ConfigParser.Mk []
              [("general", [("arch", "x86_64")]); ("tree", []); ("variant-BaseOS", [])] in
  ConfigParser.has_section ti "media" = false
  ∧ ConfigParser.remove_section ti "media" = (ti, false)
  ∧ (∃ ti', edit_baseos ti = Return ti')
  ∧ ∃ s, ConfigParser.has_section ti s = false
         ∧ edit_appstream ti = Raise (NoSectionError s).
Proof.
  intros ti.
  destruct (editors_fail_only_on_required_lookups ti)
    as (Hrm & Hb & _ & _ & Ha & _).
  split_and!.
  - reflexivity.
  - apply Hrm. reflexivity.
  - apply Hb. split_and!; reflexivity.
  - destruct (Ha (NoSectionError "variant-AppStream")) as [(s & _ & Hs & He)|(He & _)].
    + reflexivity.
    + exists s. split; [exact Hs|]. rewrite <- He. reflexivity.
    + discriminate He.
Defined.


Lemma mount_scope_teardown_witness :
  let w := sample_world 4 in
  let mp := sample_mount_point in
  let u := ["umount"; mp] in
  let body := (λ _ : string, raise (A := unit) (KeyError "data")) in
  let wa := (mkdtemp ".rhel-8-iso" w).2 in
  let wb := (run ["mount"; "-o"; "loop"; "/isos/rhel8.iso"; mp] false wa).2 in
  mkdtemp ".rhel-8-iso" w = (Return mp, wa)
  ∧ run ["mount"; "-o"; "loop"; "/isos/rhel8.iso"; mp] false wa = (Return true, wb)
  ∧ body mp wb = (Raise (KeyError "data"), wb)
  ∧ ∃ w3,
      mount_iso "/isos/rhel8.iso" body w = (Raise (KeyError "data"), w3)
      ∧ w_log w3 = w_log wb
                   ++ [EvExec u 32; EvSleep 0; EvExec u 32; EvSleep 1;
                       EvExec u 32; EvSleep 2; EvExec u 32; EvSleep 3;
                       EvExec u 0; EvFs "rmdir" [mp]]
      ∧ stat w3 mp = None.
Proof.
  intros w mp u body wa wb.
  assert (H1 : mkdtemp ".rhel-8-iso" w = (Return mp, wa)) by (vm_compute; reflexivity).
  assert (H2 : run ["mount"; "-o"; "loop"; "/isos/rhel8.iso"; mp] false wa
               = (Return true, wb)) by (vm_compute; reflexivity).
  assert (H3 : body mp wb = (Raise (KeyError "data"), wb)) by reflexivity.
  split_and!; [exact H1 | exact H2 | exact H3 |].
  destruct (mount_scope_teardown "/isos/rhel8.iso" body w mp wa wb _ wb H1 H2 H3)
    as (k & w2 & rr & w3 & _ & _ & _ & _ & _ & Hiso & H4 & _).
  destruct H4 as (_ & Hlog & Hfree); try (vm_compute; congruence).
  destruct (Hfree (default [] (resolve (w_cwd wb) mp)) (w_image w "/isos/rhel8.iso"))
    as (_ & Hst & Hend);
    [vm_compute; reflexivity | vm_compute; congruence | vm_compute; reflexivity |].
  exists w3. split_and!; [exact Hend | exact Hlog | exact Hst].
Defined.

Lemma teardown_sleeps_witness :
  let w1 := add_log (EvStdout "body left") (sample_world 9) in
  let u := ["umount"; "/mnt"] in
  ∃ rr w3,
    mount_iso_finally "/mnt" w1 = (rr, w3)
    ∧ w_log w3 = w_log w1
                 ++ [EvExec u 32; EvSleep 0; EvExec u 32; EvSleep 1;
                     EvExec u 32; EvSleep 2; EvExec u 32; EvSleep 3;
                     EvExec u 32; EvSleep 4; EvFs "rmdir" ["/mnt"]].
Proof.
  intros w1 u.
  destruct (teardown_sleeps "/mnt" w1)
    as (k & rr & w3 & new & _ & Hfin & Hlog & _ & _ & _ & Hall).
  destruct Hall as [Hnew _]; try (vm_compute; congruence).
  exists rr, w3. split; [exact Hfin|]. rewrite Hlog, Hnew. reflexivity.
Defined.

(** C8: a sleep that does not lie between two attempts.  When all five
    attempts fail, the teardown sleeps 4 seconds after the last of them,
    and the next thing it does is the removal of the directory, not
    another attempt. *)
Lemma sleep_follows_last_failed_attempt :
  let w3 := (mount_iso "/isos/rhel8.iso" (λ _, ret tt) (sample_world 5)).2 in
  let u := ["umount"; sample_mount_point] in
  drop 11 (w_log w3) = [EvSleep 4; EvFs "rmdir" [sample_mount_point]]
  ∧ take 11 (w_log w3) =
    [EvFs "mkdtemp" [".rhel-8-iso"];
     EvExec ["mount"; "-o"; "loop"; "/isos/rhel8.iso"; sample_mount_point] 0;
     EvExec u 32; EvSleep 0; EvExec u 32; EvSleep 1; EvExec u 32; EvSleep 2;
     EvExec u 32; EvSleep 3; EvExec u 32]
  ∧ sleeps_between_attempts (w_log w3) = false.
Proof. vm_compute. done. Qed.

Lemma mount_failure_leaves_mount_point_witness :
  let w := no_loop_world in
  let mp := sample_mount_point in
  let wa := (mkdtemp ".rhel-8-iso" w).2 in
  mkdtemp ".rhel-8-iso" w = (Return mp, wa)
  ∧ next_rc wa 0 ["mount"; "-o"; "loop"; "/isos/rhel8.iso"; mp] ≠ 0
  ∧ ∃ w',
      main sample_json_loads parse_ini sample_argv w = (SysExit 1, w')
      ∧ stat w' mp = Some (Dir ∅).
Proof.
  intros w mp wa.
  assert (H1 : mkdtemp ".rhel-8-iso" w = (Return mp, wa)) by (vm_compute; reflexivity).
  assert (H2 : next_rc wa 0 ["mount"; "-o"; "loop"; "/isos/rhel8.iso"; mp] ≠ 0)
    by (vm_compute; discriminate).
  split_and!; [exact H1 | exact H2 |].
  destruct (mount_failure_leaves_mount_point "/isos/rhel8.iso"
              (λ mount_dir, copy_variants sample_json_loads mount_dir "/srv/ks")
              w mp wa H1 H2)
    as (w' & _ & _ & Hst & _ & _ & Hmain).
  exists w'. split; [|exact Hst].
  apply (Hmain sample_json_loads parse_ini sample_argv "/srv/ks");
    vm_compute; reflexivity.
Defined.

Lemma validation_precedes_effects_witness :
  let w := sample_world 0 in
  let run argv := main sample_json_loads parse_ini argv w in
  (run ["prog"; "/isos/rhel8.iso"]).1 = SysExit 2
  ∧ (run ["prog"; "/isos/rhel8.iso"; "/srv"]).1 = SysExit 2
  ∧ w_root (run ["prog"; "/isos/rhel8.iso"; "/srv"]).2 = w_root w
  ∧ (run ["prog"; "--verbose"; "/isos/rhel8.iso"; "/srv/ks"]).1 = SysExit 2
  ∧ (run ["prog"; "-h"; "/isos/rhel8.iso"; "/srv/ks"]).1 = SysExit 0
  ∧ w_root (run ["prog"; "-h"; "/isos/rhel8.iso"; "/srv/ks"]).2 = w_root w.
Proof.
  intros w run. unfold run.
  destruct (validation_precedes_effects sample_json_loads parse_ini
              ["prog"; "/isos/rhel8.iso"] w) as (Hcount & _).
  destruct (validation_precedes_effects sample_json_loads parse_ini
              ["prog"; "/isos/rhel8.iso"; "/srv"] w) as (_ & Hexists & _).
  destruct (validation_precedes_effects sample_json_loads parse_ini
              ["prog"; "--verbose"; "/isos/rhel8.iso"; "/srv/ks"] w)
    as (_ & _ & Hoption & _).
  destruct (validation_precedes_effects sample_json_loads parse_ini
              ["prog"; "-h"; "/isos/rhel8.iso"; "/srv/ks"] w)
    as (_ & _ & _ & Hhelp & _).
  split_and!.
  - rewrite (Hcount ["/isos/rhel8.iso"]); [reflexivity | reflexivity | ].
    simpl. lia.
  - rewrite (Hexists "/isos/rhel8.iso" "/srv"); [reflexivity | reflexivity | ].
    vm_compute. eexists. reflexivity.
  - rewrite (Hexists "/isos/rhel8.iso" "/srv"); [reflexivity | reflexivity | ].
    vm_compute. eexists. reflexivity.
  - rewrite (Hoption "no such option: --verbose"); reflexivity.
  - rewrite Hhelp; reflexivity.
  - rewrite Hhelp; reflexivity.
Defined.

(** What [os.path.exists] finds and what the lexical reading of a path
    finds: they part where a [..] follows a directory that is missing, and
    where a file is named with a slash at its end. *)
Example os_stat_follows_the_kernel :
  let w := sample_world 0 in
  is_Some (os_stat w "/srv") ∧ is_Some (os_stat w "/srv/../srv/.")
  ∧ os_stat w "/srv/ks" = None
  ∧ os_stat w "/srv/ks/../../srv" = None ∧ is_Some (stat w "/srv/ks/../../srv")
  ∧ os_stat w "/isos/rhel8.iso/" = None ∧ is_Some (stat w "/isos/rhel8.iso/")
  ∧ os_stat w "" = None.
Proof.
  intros w. split_and!;
    try (vm_compute; reflexivity); vm_compute; eexists; reflexivity.
Qed.

(** C4: command lines that are not turned away.  With the help option the
    run ends with status 0, when it is the only argument and when it
    comes after an image and a destination that exists: the option is
    answered while the command line is read, before the arguments are
    counted and before the destination is looked at. *)
Lemma help_is_answered_first :
  let w := sample_world 0 in
  let run argv := main sample_json_loads parse_ini argv w in
  length (tail ["prog"; "--help"]) = 1%nat
  ∧ (run ["prog"; "--help"]).1 = SysExit 0
  ∧ is_Some (os_stat w "/srv")
  ∧ (run ["prog"; "/isos/rhel8.iso"; "/srv"; "-h"]).1 = SysExit 0
  ∧ ¬ rejects_other_counts sample_json_loads parse_ini w ["prog"; "--help"].
Proof.
  intros w run. split_and!; try (vm_compute; reflexivity).
  - vm_compute. eexists. reflexivity.
  - intros H. apply H; [vm_compute; discriminate | vm_compute; reflexivity].
Qed.

Lemma copytree_skips_trans_tbl_witness :
  let w' := (copytree "/src" "/dst" odd_world).2 in
  copytree "/src" "/dst" odd_world = (Return tt, w')
  ∧ peek (walk (w_root w') ["dst"; "b"]) = Some (Some "b")
  ∧ peek (walk (w_root w') ["dst"; "TRANS.TBL"; "a"]) = None.
Proof.
  intros w'.
  assert (H : copytree "/src" "/dst" odd_world = (Return tt, w'))
    by (vm_compute; reflexivity).
  split; [exact H|].
  destruct (copytree_skips_trans_tbl "/src" "/dst" odd_world w' H)
    as (s & d & Hs & Hd & _ & Hrel).
  assert (s = ["src"]) as -> by (vm_compute in Hs; congruence).
  assert (d = ["dst"]) as -> by (vm_compute in Hd; congruence).
  split.
  - change ["dst"; "b"] with (["dst"] ++ ["b"]).
    rewrite (Hrel ["b"]). reflexivity.
  - change ["dst"; "TRANS.TBL"; "a"] with (["dst"] ++ ["TRANS.TBL"; "a"]).
    rewrite (Hrel ["TRANS.TBL"; "a"]). reflexivity.
Defined.

(** C5: an entry other than a file named [TRANS.TBL] that is not copied.
    A directory called [TRANS.TBL] is not a file of that name, yet neither
    it nor the file in it arrives. *)
Lemma directory_named_trans_tbl_is_skipped :
  let w' := (copytree "/src" "/dst" odd_world).2 in
  copytree "/src" "/dst" odd_world = (Return tt, w')
  ∧ peek (walk (w_root odd_world) ["src"; "TRANS.TBL"]) = Some None
  ∧ peek (walk (w_root odd_world) ["src"; "TRANS.TBL"; "a"]) = Some (Some "kept?")
  ∧ peek (walk (w_root w') ["dst"; "TRANS.TBL"]) = None
  ∧ peek (walk (w_root w') ["dst"; "TRANS.TBL"; "a"]) = None
  ∧ ¬ skips_only_files_named "TRANS.TBL" (w_root odd_world) (w_root w')
        ["src"] ["dst"].
Proof.
  intros w'. split_and!; try (vm_compute; reflexivity).
  intros H. specialize (H ["TRANS.TBL"; "a"]). vm_compute in H. discriminate H.
Qed.



(** ** Further theorems at work on the sample machines *)

Ltac not_in_list H :=
  repeat (apply elem_of_cons in H as [H|H]; [discriminate H|]);
  by apply elem_of_nil in H.

Lemma edit_baseos_keeps_the_rest_witness :
  let ti := default ConfigParser.empty (parse_ini sample_treeinfo_text) in
  let ti' := default ConfigParser.empty
               (match edit_baseos ti with Return t => Some t | _ => None end) in
  edit_baseos ti = Return ti'
  ∧ ConfigParser.sections ti'
    = ["checksums"; "general"; "images-x86_64"; "images-xen"; "stage2"; "tree";
       "variant-BaseOS"]
  ∧ ConfigParser.value ti' "general" "arch" = Some "x86_64"
  ∧ ConfigParser.value ti' "stage2" "mainimage" = Some "images/install.img".
Proof.
  intros ti ti'.
  assert (H : edit_baseos ti = Return ti') by (vm_compute; reflexivity).
  split; [exact H|].
  destruct (edit_baseos_keeps_the_rest ti ti' H) as (_ & Hs & Ho & Hg & _).
  split_and!.
  - rewrite Hs. vm_compute. reflexivity.
  - rewrite (Hg "arch"); [vm_compute; reflexivity | compute_done].
  - unfold ConfigParser.value.
    rewrite (Ho "stage2"); [vm_compute; reflexivity | compute_done].
Defined.

Lemma edit_appstream_keeps_the_rest_witness :
  let ti := default ConfigParser.empty (parse_ini sample_treeinfo_text) in
  let ti' := default ConfigParser.empty
               (match edit_appstream ti with Return t => Some t | _ => None end) in
  edit_appstream ti = Return ti'
  ∧ ConfigParser.sections ti' = ["general"; "tree"; "variant-AppStream"]
  ∧ ConfigParser.value ti' "general" "family" = Some "Red Hat Enterprise Linux"
  ∧ ConfigParser.value ti' "tree" "arch" = Some "x86_64".
Proof.
  intros ti ti'.
  assert (H : edit_appstream ti = Return ti') by (vm_compute; reflexivity).
  split; [exact H|].
  destruct (edit_appstream_keeps_the_rest ti ti' H) as (_ & Hs & _ & Hg & Ht & _).
  split_and!.
  - rewrite Hs. vm_compute. reflexivity.
  - rewrite (Hg "family"); [vm_compute; reflexivity | compute_done].
  - rewrite (Ht "arch"); [vm_compute; reflexivity | compute_done].
Defined.

Lemma edits_are_idempotent_witness :
  let ti := default ConfigParser.empty (parse_ini sample_treeinfo_text) in
  let tb := default ConfigParser.empty
              (match edit_baseos ti with Return t => Some t | _ => None end) in
  let ta := default ConfigParser.empty
              (match edit_appstream ti with Return t => Some t | _ => None end) in
  edit_baseos ti = Return tb ∧ edit_baseos tb = Return tb
  ∧ edit_appstream ti = Return ta ∧ edit_appstream ta = Return ta.
Proof.
  intros ti tb ta.
  assert (Hb : edit_baseos ti = Return tb) by (vm_compute; reflexivity).
  assert (Ha : edit_appstream ti = Return ta) by (vm_compute; reflexivity).
  split_and!; [exact Hb | | exact Ha | ].
  - destruct (edits_are_idempotent ti tb) as [H _]. exact (H Hb).
  - destruct (edits_are_idempotent ti ta) as [_ H]. exact (H Ha).
Defined.

Lemma tweak_without_a_file_witness :
  let w := sample_world 0 in
  stat w "/srv/ks/treeinfo" = None
  ∧ tweak_baseos_treeinfo parse_ini "/srv/ks/treeinfo" w
    = (Raise (NoSectionError "general"), w)
  ∧ tweak_appstream_treeinfo parse_ini "/srv" w
    = (Raise (NoSectionError "general"), w).
Proof.
  intros w. split_and!.
  - vm_compute. reflexivity.
  - apply (tweak_without_a_file parse_ini "/srv/ks/treeinfo" w).
    intros data. vm_compute. discriminate.
  - apply (tweak_without_a_file parse_ini "/srv" w).
    intros data. vm_compute. discriminate.
Defined.

Lemma editors_fail_clean_witness :
  let w := edit_world in
  let res := tweak_appstream_treeinfo (λ _, None) "treeinfo" w in
  res.1 = Raise (ParsingError "treeinfo")
  ∧ w_root res.2 = w_root w.
Proof.
  intros w res.
  assert (H : tweak_appstream_treeinfo (λ _, None) "treeinfo" w = (res.1, res.2))
    by (vm_compute; reflexivity).
  destruct (editors_fail_clean (λ _, None) "treeinfo" w res.1 res.2 (or_intror H))
    as [_ Hroot].
  split; [vm_compute; reflexivity|].
  apply Hroot. vm_compute. discriminate.
Defined.

Lemma tweak_twice_witness :
  let w := edit_world in
  let w1 := (tweak_baseos_treeinfo parse_ini "treeinfo" w).2 in
  tweak_baseos_treeinfo parse_ini "treeinfo" w = (Return tt, w1)
  ∧ ∃ w2, tweak_baseos_treeinfo parse_ini "treeinfo" w1 = (Return tt, w2)
          ∧ w_root w2 = w_root w1.
Proof.
  intros w w1.
  assert (H : tweak_baseos_treeinfo parse_ini "treeinfo" w = (Return tt, w1))
    by (vm_compute; reflexivity).
  split; [exact H|].
  destruct (tweak_twice parse_ini "treeinfo" w w1) as [Hb _].
  destruct (Hb H) as (w2 & H2 & Hr & _).
  - intros t0 t H0 Ht.
    vm_compute in H0. injection H0 as <-.
    vm_compute in Ht. injection Ht as <-.
    vm_compute. reflexivity.
  - exists w2. split; [exact H2 | exact Hr].
Defined.

Lemma scope_shows_the_image_witness :
  let w := sample_world 0 in
  let mp := sample_mount_point in
  let wa := (mkdtemp ".rhel-8-iso" w).2 in
  mkdtemp ".rhel-8-iso" w = (Return mp, wa)
  ∧ next_rc wa 0 ["mount"; "-o"; "loop"; "/isos/rhel8.iso"; mp] = 0
  ∧ ∃ wb, stat wb (join mp ["README"]) = Some (File "read me")
          ∧ stat wb (join mp ["images"]) = None
          ∧ stat wb "/isos/rhel8.iso" = Some (File "CD001").
Proof.
  intros w mp wa.
  assert (H1 : mkdtemp ".rhel-8-iso" w = (Return mp, wa)) by (vm_compute; reflexivity).
  assert (H2 : next_rc wa 0 ["mount"; "-o"; "loop"; "/isos/rhel8.iso"; mp] = 0)
    by (vm_compute; reflexivity).
  split_and!; [exact H1 | exact H2 |].
  destruct (scope_shows_the_image "/isos/rhel8.iso" (λ _, ret tt) w mp wa H1 H2)
    as (pm & wb & _ & Hpm & _ & _ & Hname & Hc & Hframe).
  exists wb. split_and!.
  - rewrite (Hname "README"); [vm_compute; reflexivity | vm_compute; reflexivity].
  - rewrite (Hname "images"); [vm_compute; reflexivity | vm_compute; reflexivity].
  - vm_compute in Hpm. injection Hpm as <-.
    unfold stat. rewrite Hc. change (resolve (w_cwd w) "/isos/rhel8.iso")
      with (Some ["isos"; "rhel8.iso"]). cbn [mbind option_bind].
    rewrite Hframe; [vm_compute; reflexivity|].
    unfold diverge. compute_done.
Defined.

Lemma scope_leaves_no_trace_witness :
  let w := sample_world 2 in
  let mp := sample_mount_point in
  let body := (λ _ : string, raise (A := unit) (KeyError "data")) in
  let wa := (mkdtemp ".rhel-8-iso" w).2 in
  let wb := (run ["mount"; "-o"; "loop"; "/isos/rhel8.iso"; mp] false wa).2 in
  mkdtemp ".rhel-8-iso" w = (Return mp, wa)
  ∧ run ["mount"; "-o"; "loop"; "/isos/rhel8.iso"; mp] false wa = (Return true, wb)
  ∧ next_rc wb 2 ["umount"; mp] = 0
  ∧ ∃ w3, mount_iso "/isos/rhel8.iso" body w = (Raise (KeyError "data"), w3)
          ∧ stat w3 mp = None
          ∧ w_root w3 = w_root w.
Proof.
  intros w mp body wa wb.
  assert (H1 : mkdtemp ".rhel-8-iso" w = (Return mp, wa)) by (vm_compute; reflexivity).
  assert (H2 : run ["mount"; "-o"; "loop"; "/isos/rhel8.iso"; mp] false wa
               = (Return true, wb)) by (vm_compute; reflexivity).
  assert (H3 : next_rc wb 2 ["umount"; mp] = 0) by (vm_compute; reflexivity).
  split_and!; [exact H1 | exact H2 | exact H3 |].
  destruct (scope_leaves_no_trace "/isos/rhel8.iso" body w mp wa wb
              (Raise (KeyError "data")) wb ["tmp"; "tmpk3x9q2ab.rhel-8-iso"]
              H1 H2)
    as (w3 & Hiso & Hst & _ & _ & Hroot).
  - reflexivity.
  - reflexivity.
  - vm_compute. reflexivity.
  - reflexivity.
  - exists 2%nat. split; [lia | exact H3].
  - exists w3. split_and!; [exact Hiso | exact Hst | apply Hroot; reflexivity].
Defined.

Lemma scope_returns_without_mount_point_witness :
  let w := sample_world 1 in
  let w' := (mount_iso "/isos/rhel8.iso" (λ _, ret tt) w).2 in
  mount_iso "/isos/rhel8.iso" (λ _, ret tt) w = (Return tt, w')
  ∧ ∃ mp, stat w' mp = None ∧ mp = sample_mount_point.
Proof.
  intros w w'.
  assert (H : mount_iso "/isos/rhel8.iso" (λ _, ret tt) w = (Return tt, w'))
    by (vm_compute; reflexivity).
  split; [exact H|].
  destruct (scope_returns_without_mount_point "/isos/rhel8.iso" (λ _, ret tt) w tt w' H)
    as (mp & wa & Hmk & _ & Hst).
  exists mp. split; [exact Hst|].
  vm_compute in Hmk. injection Hmk as <- _. reflexivity.
Defined.

Lemma copy_boot_files_copies_the_rest_witness :
  let w := mounted_world in
  let ignore := [JStr "extra_files.json"; JStr "README"] in
  let w' := (copy_boot_files sample_mount_point "/srv" ignore w).2 in
  copy_boot_files sample_mount_point "/srv" ignore w = (Return tt, w')
  ∧ walk (w_root w') ["srv"; "isolinux"; "isolinux.cfg"]
    = Some (File "default vesamenu.c32")
  ∧ walk (w_root w') ["srv"; "isolinux"; "TRANS.TBL"] = None
  ∧ walk (w_root w') ["srv"; "README"] = None
  ∧ walk (w_root w') ["srv"; "BaseOS"] = None.
Proof.
  intros w ignore w'.
  assert (H : copy_boot_files sample_mount_point "/srv" ignore w = (Return tt, w'))
    by (vm_compute; reflexivity).
  split; [exact H|].
  destruct (copy_boot_files_copies_the_rest sample_mount_point "/srv" ignore w w'
              ["tmp"; "tmpk3x9q2ab.rhel-8-iso"] ["srv"]
              (Mnt sample_image (Dir ∅)) (Dir ∅) sample_image H)
    as (_ & _ & Hdir & Hkept & _).
  - vm_compute. reflexivity.
  - vm_compute. reflexivity.
  - reflexivity.
  - vm_compute. reflexivity.
  - vm_compute. reflexivity.
  - vm_compute. reflexivity.
  - reflexivity.
  - unfold diverge. compute_done.
  - split_and!.
    + destruct (Hdir "isolinux"
                  (Dir (list_to_map [ ("isolinux.cfg", File "default vesamenu.c32");
                                      ("TRANS.TBL", File "index") ])))
        as [_ Hr]; [vm_compute; reflexivity | reflexivity | |].
      * intros [Hin|Hin]; not_in_list Hin.
      * change ["srv"; "isolinux"; "isolinux.cfg"]
          with (["srv"] ++ "isolinux" :: ["isolinux.cfg"]).
        rewrite Hr. vm_compute. reflexivity.
    + destruct (Hdir "isolinux"
                  (Dir (list_to_map [ ("isolinux.cfg", File "default vesamenu.c32");
                                      ("TRANS.TBL", File "index") ])))
        as [_ Hr]; [vm_compute; reflexivity | reflexivity | |].
      * intros [Hin|Hin]; not_in_list Hin.
      * change ["srv"; "isolinux"; "TRANS.TBL"]
          with (["srv"] ++ "isolinux" :: ["TRANS.TBL"]).
        rewrite Hr. vm_compute. reflexivity.
    + change ["srv"; "README"] with (["srv"] ++ "README" :: []).
      rewrite Hkept; [vm_compute; reflexivity|].
      right. right. apply elem_of_cons. right. apply elem_of_cons. by left.
    + change ["srv"; "BaseOS"] with (["srv"] ++ "BaseOS" :: []).
      rewrite Hkept; [vm_compute; reflexivity|].
      right. left. apply elem_of_cons. right. apply elem_of_cons. by left.
Defined.

Lemma copytree_refusals_witness :
  let w := odd_world in
  copytree "/missing" "/dst" w
  = (Raise (OSError ENOENT "/missing"), add_log (EvFs "copytree" ["/missing"; "/dst"]) w)
  ∧ copytree "/src/b" "/dst" w
    = (Raise (OSError ENOTDIR "/src/b"), add_log (EvFs "copytree" ["/src/b"; "/dst"]) w)
  ∧ copytree "/src/TRANS.TBL" "/src/b" w
    = (Raise (OSError EEXIST "/src/b"),
       add_log (EvFs "copytree" ["/src/TRANS.TBL"; "/src/b"]) w).
Proof.
  intros w. split_and!.
  - destruct (copytree_refusals "/missing" "/dst" w) as (H & _).
    apply H. vm_compute. reflexivity.
  - destruct (copytree_refusals "/src/b" "/dst" w) as (_ & H & _).
    apply (H "b"). vm_compute. reflexivity.
  - destruct (copytree_refusals "/src/TRANS.TBL" "/src/b" w) as (_ & _ & H & _).
    apply (H (dir_of [ ("a", File "kept?") ]) ["src"; "b"] (File "b")).
    + vm_compute. reflexivity.
    + reflexivity.
    + vm_compute. reflexivity.
    + vm_compute. reflexivity.
    + vm_compute. reflexivity.
Defined.

Lemma copytree_makes_the_way_witness :
  let w := odd_world in
  let w' := (copytree "/src" "/a/b/dst" w).2 in
  copytree "/src" "/a/b/dst" w = (Return tt, w')
  ∧ walk (w_root w) ["a"] = None
  ∧ (∃ ch, walk (w_root w') ["a"; "b"] = Some (Dir ch))
  ∧ walk (w_root w') ["src"; "b"] = Some (File "b").
Proof.
  intros w.
  assert (Hplain : ".." ∉ split_slash "/a/b/dst") by compute_done.
  intros w'.
  assert (H : copytree "/src" "/a/b/dst" w = (Return tt, w'))
    by (vm_compute; reflexivity).
  split; [exact H|].
  destruct (copytree_makes_the_way "/src" "/a/b/dst" w w' Hplain H)
    as (s & d & n & Hs & Hd & _ & _ & _ & _ & Hway & Hframe & _).
  vm_compute in Hd. injection Hd as <-.
  split_and!.
  - vm_compute. reflexivity.
  - destruct (Hway ["a"; "b"] ["dst"]) as [_ Hafter]; [reflexivity | discriminate |].
    exact Hafter.
  - rewrite Hframe; [vm_compute; reflexivity|].
    unfold diverge. compute_done.
Defined.

Lemma read_extra_files_lists_witness :
  let w := mounted_world in
  read_extra_files sample_json_loads sample_mount_point w
  = (Return [JStr "extra_files.json"; JStr "README"], w).
Proof.
  intros w.
  apply (read_extra_files_lists sample_json_loads sample_mount_point w
           sample_manifest_text
           {[ "data" := JArr [JObj {[ "file" := JStr "README" ]}] ]}
           [JObj {[ "file" := JStr "README" ]}] [JStr "README"]).
  - vm_compute. reflexivity.
  - vm_compute. reflexivity.
  - vm_compute. reflexivity.
  - repeat constructor. eexists. split; [reflexivity|]. vm_compute. reflexivity.
Defined.

Lemma read_extra_files_failures_witness :
  let w := sample_world 0 in
  read_extra_files sample_json_loads "/srv" w
  = (Raise (OSError ENOENT "/srv/extra_files.json"), w)
  ∧ read_extra_files sample_json_loads "/" w
    = (Raise (OSError ENOENT "/extra_files.json"), w)
  ∧ (read_extra_files (λ _, None) sample_mount_point mounted_world).1
    = Raise (JSONDecodeError "extra_files.json").
Proof.
  intros w. split_and!.
  - destruct (read_extra_files_failures sample_json_loads "/srv" w) as (H & _).
    apply H. vm_compute. reflexivity.
  - destruct (read_extra_files_failures sample_json_loads "/" w) as (H & _).
    apply H. vm_compute. reflexivity.
  - destruct (read_extra_files_failures (λ _, None) sample_mount_point mounted_world)
      as (_ & _ & H & _).
    rewrite (H sample_manifest_text); [reflexivity | vm_compute; reflexivity | reflexivity].
Defined.

Lemma main_without_manifest_witness :
  let w := bare_world in
  let mp := sample_mount_point in
  let wa := (mkdtemp ".rhel-8-iso" w).2 in
  let wb := (run ["mount"; "-o"; "loop"; "/isos/rhel8.iso"; mp] false wa).2 in
  mkdtemp ".rhel-8-iso" w = (Return mp, wa)
  ∧ run ["mount"; "-o"; "loop"; "/isos/rhel8.iso"; mp] false wa = (Return true, wb)
  ∧ ∃ w', main sample_json_loads parse_ini sample_argv w
          = (Raise (OSError ENOENT (join mp ["extra_files.json"])), w')
          ∧ w_root w' = w_root w
          ∧ stat w' "/srv/ks" = None.
Proof.
  intros w mp wa wb.
  assert (H1 : mkdtemp ".rhel-8-iso" w = (Return mp, wa)) by (vm_compute; reflexivity).
  assert (H2 : run ["mount"; "-o"; "loop"; "/isos/rhel8.iso"; mp] false wa
               = (Return true, wb)) by (vm_compute; reflexivity).
  split_and!; [exact H1 | exact H2 |].
  destruct (main_without_manifest sample_json_loads parse_ini sample_argv
              "/isos/rhel8.iso" "/srv/ks" w mp wa wb
              (OSError ENOENT (join mp ["extra_files.json"])))
    as (w' & Hmain & Hroot & _ & Hdest & _).
  - vm_compute. reflexivity.
  - vm_compute. reflexivity.
  - exact H1.
  - exact H2.
  - vm_compute. reflexivity.
  - exists 1%nat. split; [lia | vm_compute; reflexivity].
  - exists w'. split_and!; [exact Hmain | exact Hroot | exact Hdest].
Defined.

Lemma command_line_witness :
  let w := sample_world 0 in
  process_args ["/isos/rhel8.iso"; "--"; "-ks"] [] = PArgs ["/isos/rhel8.iso"; "-ks"]
  ∧ ∃ code w',
      main sample_json_loads parse_ini
        ["prog"; "/isos/rhel8.iso"; "--verbose"; "/srv/ks"] w = (SysExit code, w')
      ∧ (code = 0 ∨ code = 2)
      ∧ w_root w' = w_root w.
Proof.
  intros w.
  assert (Hpre : Forall (λ a, startswith a "-" = false ∨ a = "-") ["/isos/rhel8.iso"]).
  { repeat constructor. }
  destruct (command_line sample_json_loads parse_ini "prog" ["/isos/rhel8.iso"] Hpre)
    as (_ & Hdd & Hopt).
  split.
  - exact (Hdd ["-ks"]).
  - destruct (Hopt "--verbose" ["/srv/ks"] w) as (code & w' & Hmain & Hcode & Hroot & _).
    + reflexivity.
    + discriminate.
    + discriminate.
    + exists code, w'. split_and!; [exact Hmain | exact Hcode | exact Hroot].
Defined.

Lemma main_starts_three_commands_witness :
  let w := sample_world 2 in
  let w' := (main sample_json_loads parse_ini sample_argv w).2 in
  main sample_json_loads parse_ini sample_argv w = (Return tt, w')
  ∧ ∃ isofile destdir mp j,
      (1 ≤ j ≤ 5)%nat
      ∧ commands (w_log w')
        = ["mount"; "-o"; "loop"; isofile; mp]
          :: replicate j ["umount"; mp] ++ [["chmod"; "u+w"; "-R"; destdir]].
Proof.
  intros w w'.
  assert (H : main sample_json_loads parse_ini sample_argv w = (Return tt, w'))
    by (vm_compute; reflexivity).
  split; [exact H|].
  destruct (main_starts_three_commands sample_json_loads parse_ini sample_argv
              w (Return tt) w' H)
    as (new & isofile & destdir & mp & j & Hlog & Hj & _ & Hfull).
  destruct (Hfull eq_refl) as (_ & Hj1 & Hcmds).
  exists isofile, destdir, mp, j. split; [lia|].
  rewrite Hlog. exact Hcmds.
Defined.

Lemma main_touches_only_destination_and_mount_point_witness :
  let w := sample_world 5 in
  let w' := (main sample_json_loads parse_ini sample_argv w).2 in
  main sample_json_loads parse_ini sample_argv w
  = (Raise (OSError EBUSY sample_mount_point), w')
  ∧ walk (w_root w') ["isos"; "rhel8.iso"] = Some (File "CD001")
  ∧ walk (w_root w') ["srv"; "elsewhere"] = None.
Proof.
  intros w.
  assert (Hcand : ∀ q, diverge ["tmp"] q →
            ∀ name pm, name ∈ w_tmpnames w →
              resolve (w_cwd w) (join "/tmp" ["tmp" +:+ name +:+ ".rhel-8-iso"])
              = Some pm →
              diverge pm q).
  { intros q Hq name pm Hin Hres.
    apply elem_of_cons in Hin as [->|Hin];
      [|apply elem_of_cons in Hin as [->|Hin]; [|by apply elem_of_nil in Hin]];
      vm_compute in Hres; injection Hres as <-;
      apply (diverge_below ["tmp"] q [_]), Hq. }
  assert (Hd1 : diverge (rbase (w_cwd w) "/srv/ks") ["isos"; "rhel8.iso"])
    by (unfold diverge; compute_done).
  assert (Hd2 : diverge (rbase (w_cwd w) "/srv/ks") ["srv"; "elsewhere"])
    by (unfold diverge; compute_done).
  assert (Ht1 : diverge ["tmp"] ["isos"; "rhel8.iso"])
    by (unfold diverge; compute_done).
  assert (Ht2 : diverge ["tmp"] ["srv"; "elsewhere"])
    by (unfold diverge; compute_done).
  assert (Hargs : process_args (tail sample_argv) [] = PArgs ["/isos/rhel8.iso"; "/srv/ks"])
    by (vm_compute; reflexivity).
  assert (Hplain : ".." ∉ split_slash "/srv/ks") by compute_done.
  assert (Himg : forallb simple_name (names (w_image w "/isos/rhel8.iso")) = true)
    by (vm_compute; reflexivity).
  intros w'.
  assert (H : main sample_json_loads parse_ini sample_argv w
              = (Raise (OSError EBUSY sample_mount_point), w'))
    by (vm_compute; reflexivity).
  split; [exact H|]. split.
  - rewrite (main_touches_only_destination_and_mount_point
               sample_json_loads parse_ini sample_argv "/isos/rhel8.iso" "/srv/ks"
               w _ w' ["isos"; "rhel8.iso"] Hargs Hplain Himg H Hd1 (Hcand _ Ht1)).
    vm_compute. reflexivity.
  - rewrite (main_touches_only_destination_and_mount_point
               sample_json_loads parse_ini sample_argv "/isos/rhel8.iso" "/srv/ks"
               w _ w' ["srv"; "elsewhere"] Hargs Hplain Himg H Hd2 (Hcand _ Ht2)).
    vm_compute. reflexivity.
Defined.
